(** * Shaper dominoes: valid-code enumeration, sampling, layout and pagination

    A shallow embedding of the TypeScript web library
    ([dominoFactory.ts], [domino.ts], [pdf.ts], [pageSetup.ts],
    [measurement.ts]) and of the C# library ([DominoFactory.cs],
    [Domino.cs], [PageSetup.cs]) of the repository, with the properties of
    the design document proved or refuted on it. *)

From Stdlib Require Import ZArith QArith Qround Lia Lqa List Bool.
From stdpp Require Import base decidable option list numbers gmap.

Local Open Scope Z_scope.

(** ** 32-bit integer operators

    JavaScript bit operators convert their operands with ToInt32 and give an
    int32; C# [int] operators work on the same 32-bit two's-complement
    values.  The wrap-around is written out: the low 32 bits, read as a
    signed number (lemma [toInt32_wrap] gives it as a remainder). *)

Module Int32.

Definition toInt32 (z : Z) : Z :=
  let u := Z.land z 0xffffffff in
  if u <? 0x80000000 then u else u - 0x100000000.

Definition and (a b : Z) : Z := toInt32 (Z.land (toInt32 a) (toInt32 b)).
Definition or (a b : Z) : Z := toInt32 (Z.lor (toInt32 a) (toInt32 b)).
Definition not (a : Z) : Z := toInt32 (Z.lnot (toInt32 a)).
(** The shift count is masked to its low five bits, in both languages. *)
Definition shl (a n : Z) : Z := toInt32 (Z.shiftl (toInt32 a) (Z.land n 31)).
Definition shr (a n : Z) : Z := Z.shiftr (toInt32 a) (Z.land n 31).
(** C# [int] arithmetic in the default unchecked context. *)
Definition add (a b : Z) : Z := toInt32 (a + b).
Definition sub (a b : Z) : Z := toInt32 (a - b).
Definition mul (a b : Z) : Z := toInt32 (a * b).

End Int32.

Infix ".&" := Int32.and (at level 40, left associativity).
Infix ".|" := Int32.or (at level 50, left associativity).
Infix ".<<" := Int32.shl (at level 31, left associativity).
Infix ".>>" := Int32.shr (at level 31, left associativity).

(** ** Exceptions and results *)

Inductive exn : Set :=
  | InsufficientDominoes (requested available : Z)
      (* "Requested n unique dominoes, but only m valid dominoes exist." *)
  | InvalidRandomRange     (* "Invalid randomInt range." *)
  | NoValidDominoes        (* "No valid dominoes available." *)
  | InvalidArrayLength     (* [new Array(count)], [new int[count]], count < 0 *)
  | IndexOutOfRange        (* an array element outside the array *)
  | ArgumentOutOfRange     (* [Random.Next(min, max)] with min > max *)
  | DivideByZero.          (* C# integer [%] and [/] by zero *)

(** What a call does: it returns, it throws, or the model has used up the
    rounds it was given for a [while] loop. *)
Inductive outcome (A : Type) : Type :=
  | Return (a : A)
  | Throw (e : exn)
  | OutOfFuel.

Arguments Return {A} a.
Arguments Throw {A} e.
Arguments OutOfFuel {A}.

Definition obind {A B} (m : outcome A) (f : A → outcome B) : outcome B :=
  match m with
  | Return a => f a
  | Throw e => Throw e
  | OutOfFuel => OutOfFuel
  end.

Notation "m >>- f" := (obind m f) (at level 60, right associativity).

Definition lookupZ {A} (l : list A) (i : Z) : option A :=
  if i <? 0 then None else l !! Z.to_nat i.

(** ** The store of arrays

    Arrays are objects: a variable holds a reference, [slice] and the C#
    collection copy allocate a new array, and element assignment changes the
    array every holder of the reference sees.  The random source is a
    stream of raw draws, of which [drawn] have been used. *)

Module Store.

Abbreviation ref := nat.

Record state := State {
  arrays : list (list Z);
  entropy : nat → Z;
  drawn : nat
}.

Definition M (A : Type) : Type := state → outcome A * state.

Definition ret {A} (a : A) : M A := λ s, (Return a, s).
Definition throw {A} (e : exn) : M A := λ s, (Throw e, s).
Definition out_of_fuel {A} : M A := λ s, (OutOfFuel, s).
Definition bind {A B} (m : M A) (f : A → M B) : M B :=
  λ s, match m s with
       | (Return a, s') => f a s'
       | (Throw e, s') => (Throw e, s')
       | (OutOfFuel, s') => (OutOfFuel, s')
       end.

(** The array behind a reference.  References come from allocation only, so
    a live reference always finds its array. *)
Definition deref (s : state) (r : ref) : list Z := default [] (arrays s !! r).

(** [source.slice()], [[.. ValidDominoes]]: a fresh array with the same
    elements. *)
Definition slice (r : ref) : M ref :=
  λ s, (Return (length (arrays s)),
        State (arrays s ++ [deref s r]) (entropy s) (drawn s)).

Definition length_of (r : ref) : M Z :=
  λ s, (Return (Z.of_nat (length (deref s r))), s).

(** [a[i]] as a value.  Outside the array JavaScript reads [undefined] and
    C# throws; the model stops with [IndexOutOfRange] in both cases, a
    tile code being a number. *)
Definition get (r : ref) (i : Z) : M Z :=
  λ s, match lookupZ (deref s r) i with
       | Some x => (Return x, s)
       | None => (Throw IndexOutOfRange, s)
       end.

(** [a[i] = x].  Outside the array C# throws and JavaScript would grow the
    array with holes; the model stops with [IndexOutOfRange]. *)
Definition set (r : ref) (i x : Z) : M unit :=
  λ s, match lookupZ (deref s r) i with
       | Some _ =>
           (Return (),
            State (alter (λ a, <[Z.to_nat i := x]> a) r (arrays s))
                  (entropy s) (drawn s))
       | None => (Throw IndexOutOfRange, s)
       end.

(** The next raw draw of the random source. *)
Definition draw : M Z :=
  λ s, (Return (entropy s (drawn s)), State (arrays s) (entropy s) (S (drawn s))).

End Store.

Notation "m >>= f" := (Store.bind m f) (at level 60, right associativity).

(** The two statements every sampling loop shares:
    [x = available[randomIndex]; available[randomIndex] = available[i];]
    with [x] the value the loop stores in its result. *)
Definition take_at (available : Store.ref) (i randomIndex : Z) : Store.M Z :=
  Store.get available randomIndex >>= λ x,
  Store.get available i >>= λ y,
  Store.set available randomIndex y >>= λ _,
  Store.ret x.

(** ** Numbers

    A JavaScript [number] or C# [double] is modelled as an exact rational, or
    one of the two infinities, or NaN.  Rounding to binary64 is not
    modelled.  The sign of a zero is not modelled either: the divisors of
    the programs below are sums and constants, whose zero is [+0]. *)

Module Num.

Inductive number : Set :=
  | NaN
  | Inf (negative : bool)
  | Fin (q : Q).

Definition of_Z (z : Z) : number := Fin (inject_Z z).

Definition sign_neg (q : Q) : bool := if Qlt_le_dec q 0 then true else false.
Definition is_zero (q : Q) : bool := Qeq_bool q 0.

Definition neg (a : number) : number :=
  match a with
  | NaN => NaN
  | Inf n => Inf (negb n)
  | Fin q => Fin (- q)
  end.

Definition add (a b : number) : number :=
  match a, b with
  | NaN, _ | _, NaN => NaN
  | Inf n, Inf m => if Bool.eqb n m then Inf n else NaN
  | Inf n, Fin _ | Fin _, Inf n => Inf n
  | Fin p, Fin q => Fin (p + q)
  end.

Definition sub (a b : number) : number := add a (neg b).

Definition mul (a b : number) : number :=
  match a, b with
  | NaN, _ | _, NaN => NaN
  | Inf n, Inf m => Inf (xorb n m)
  | Inf n, Fin q | Fin q, Inf n =>
      if is_zero q then NaN else Inf (xorb n (sign_neg q))
  | Fin p, Fin q => Fin (p * q)
  end.

Definition div (a b : number) : number :=
  match a, b with
  | NaN, _ | _, NaN => NaN
  | Inf _, Inf _ => NaN
  | Inf n, Fin q => Inf (xorb n (sign_neg q))
  | Fin _, Inf _ => Fin 0
  | Fin p, Fin q =>
      if is_zero q then
        (if is_zero p then NaN else Inf (sign_neg p))
      else Fin (p / q)
  end.

(** [Math.floor]. *)
Definition floor (a : number) : number :=
  match a with
  | Fin q => of_Z (Qfloor q)
  | _ => a
  end.

(** [a >= b]: false as soon as one side is NaN. *)
Definition ge (a b : number) : bool :=
  match a, b with
  | NaN, _ | _, NaN => false
  | Inf n, Inf m => implb n m
  | Inf n, Fin _ => negb n
  | Fin _, Inf m => m
  | Fin p, Fin q => Qle_bool q p
  end.

(** [a === b] on numbers. *)
Definition eqb (a b : number) : bool :=
  match a, b with
  | NaN, _ | _, NaN => false
  | Inf n, Inf m => Bool.eqb n m
  | Fin p, Fin q => Qeq_bool p q
  | _, _ => false
  end.

End Num.

(** ** measurement.ts, pageSetup.ts, domino.ts *)

Inductive UnitOfMeasure : Set := Inches | Millimeters.

(** The constructor of [Measurement] rejects a value that is not finite, so
    a measurement carries a rational. *)
Record Measurement := { value : Q; unit : UnitOfMeasure }.

Definition MILLIMETERS_PER_INCH : Q := 254 # 10.

Definition toInches (m : Measurement) : Q :=
  match unit m with
  | Inches => value m
  | Millimeters => value m / MILLIMETERS_PER_INCH
  end.

Definition inches (v : Q) : Measurement := {| value := v; unit := Inches |}.
Definition millimeters (v : Q) : Measurement := {| value := v; unit := Millimeters |}.

Record PageSetup := {
  width : Measurement;
  height : option Measurement;
  margin : option Measurement
}.

Definition letterPortrait (m : option Measurement) : PageSetup :=
  {| width := inches (85 # 10); height := Some (inches 11);
     margin := Some (default (inches (25 # 100)) m) |}.

Definition continuousLabel (w : Measurement) (m : option Measurement) : PageSetup :=
  {| width := w; height := None;
     margin := Some (default (inches (125 # 1000)) m) |}.

Module Domino.

Definition DominoMargin : Q := 125 # 1000.
Definition PIPS_PER_COLUMN : Q := 8.
Definition COLUMNS_PER_DOMINO : Q := 2.
Definition PIP_MARGIN : Q := 1 # 10.
Definition PIP_DIAMETER : Q := 1 # 10.

Definition DominoHeight : Q :=
  PIP_DIAMETER * PIPS_PER_COLUMN + PIP_MARGIN * (PIPS_PER_COLUMN + 1).
Definition DominoWidth : Q :=
  PIP_DIAMETER * COLUMNS_PER_DOMINO + PIP_MARGIN * (COLUMNS_PER_DOMINO + 1).

End Domino.

(** ** dominoFactory.ts *)

Module TS.

Import Num.

Definition COLUMN_MASK : Z := 0xff.
Definition CONSTANT_PIPS_MASK : Z := 0x8181.
Definition DATA_BITS_MASK : Z := Int32.not CONSTANT_PIPS_MASK .& 0xffff.

(** Inner loop of [createReverseTable]: [b] counts the remaining rounds. *)
Fixpoint reverse_loop (b : nat) (v r : Z) : Z :=
  match b with
  | O => r
  | S b' => reverse_loop b' (v .>> 1) ((r .<< 1) .| (v .& 1))
  end.

Definition createReverseTable : list Z :=
  (λ i, reverse_loop 8 i 0) <$> seqZ 0 256.

Definition REVERSE8 : list Z := createReverseTable.

(** [while (x) { x &= x - 1; c++; }].  The loop state after at most [fuel]
    rounds; it has left the loop when the first component is 0
    (lemma [popCount12_exits]). *)
Fixpoint popCount12_loop (fuel : nat) (x c : Z) : Z * Z :=
  if x =? 0 then (x, c)
  else match fuel with
       | O => (x, c)
       | S f => popCount12_loop f (x .& (x - 1)) (c + 1)
       end.

Definition popCount12 (n : Z) : Z := snd (popCount12_loop 12 (n .& 0xfff) 0).

Definition col0_of (dataBits : Z) : Z := ((dataBits .& 0x3f) .<< 1) .| 0x81.
Definition col1_of (dataBits : Z) : Z := (((dataBits .>> 6) .& 0x3f) .<< 1) .| 0x81.
Definition value_of (dataBits : Z) : Z :=
  (col0_of dataBits .| (col1_of dataBits .<< 8)) .& 0xffff.

(** [REVERSE8[col0] === col1]; an index outside the table reads
    [undefined], which equals no number. *)
Definition palindrome (dataBits : Z) : bool :=
  match REVERSE8 !! Z.to_nat (col0_of dataBits) with
  | Some r => r =? col1_of dataBits
  | None => false
  end.

(** One round of the [for (dataBits ...)] loop of [buildValidDominoesList],
    on the pair of the [seen] set and the [list]. *)
Definition build_step (st : gset Z * list Z) (dataBits : Z) : gset Z * list Z :=
  let '(seen, list) := st in
  if negb (popCount12 dataBits =? 6) then st else
  let value := value_of dataBits in
  if palindrome dataBits then st else
  if negb (((value .& CONSTANT_PIPS_MASK) .& 0xffff) =? CONSTANT_PIPS_MASK) then st else
  if negb (((value .& DATA_BITS_MASK) .& 0xffff) =? (value .& DATA_BITS_MASK)) then st else
  if decide (value ∈ seen) then st
  else ({[value]} ∪ seen, list ++ [value]).

Definition buildValidDominoesList : list Z :=
  snd (foldl build_step (∅, []) (seqZ 0 (1 .<< 12))).

(** The module constant [VALID_DOMINOES] is the first array of the store. *)
Definition VALID_DOMINOES : Store.ref := 0%nat.

(** The store once the module is loaded. *)
Definition loaded (rng : nat → Z) : Store.state :=
  Store.State [buildValidDominoesList] rng 0.

Definition getValidDominoes : Store.M Store.ref := Store.ret VALID_DOMINOES.

(** [randomInt]: both branches add to [minInclusive] a value of
    [0 .. span - 1], [buf[0] % span] or [Math.floor(Math.random() * span)];
    the raw draw taken modulo [span] stands for either. *)
Definition randomInt (minInclusive maxExclusive : Z) : Store.M Z :=
  let span := maxExclusive - minInclusive in
  if span <=? 0 then Store.throw InvalidRandomRange else
  Store.draw >>= λ raw,
  Store.ret (minInclusive + raw mod span).

(** The [for (let i = 0; i < count; i++)] loop of
    [generateRandomUniqueDominoes], [n] rounds from index [i]. *)
Fixpoint shuffle_loop (n : nat) (available : Store.ref) (i : Z) (result : list Z)
  : Store.M (list Z) :=
  match n with
  | O => Store.ret result
  | S n' =>
      Store.length_of available >>= λ len,
      randomInt i len >>= λ randomIndex,
      take_at available i randomIndex >>= λ x,
      shuffle_loop n' available (i + 1) (<[Z.to_nat i := x]> result)
  end.

(** [new Array(count)] throws a RangeError for a negative length; its
    holes are written as 0 here, and each is assigned by the loop. *)
Definition generateRandomUniqueDominoes (count : Z) : Store.M (list Z) :=
  Store.slice VALID_DOMINOES >>= λ available,
  Store.length_of available >>= λ len,
  if count >? len then Store.throw (InsufficientDominoes count len) else
  if count <? 0 then Store.throw InvalidArrayLength else
  shuffle_loop (Z.to_nat count) available 0 (replicate (Z.to_nat count) 0).

Record layout := { dominoesPerRow : number; dominoesPerPage : number }.

Definition marginInches (pageSetup : PageSetup) : Q :=
  match margin pageSetup with Some m => toInches m | None => 0 end.

Definition heightInches (pageSetup : PageSetup) : number :=
  match height pageSetup with Some h => Fin (toInches h) | None => Inf false end.

Definition printableWidth (pageSetup : PageSetup) : number :=
  sub (Fin (toInches (width pageSetup))) (mul (of_Z 2) (Fin (marginInches pageSetup))).

Definition printableHeight (pageSetup : PageSetup) : number :=
  sub (heightInches pageSetup) (mul (of_Z 2) (Fin (marginInches pageSetup))).

Definition dominoesPerColumn_of (pageSetup : PageSetup) : number :=
  floor (div (sub (printableHeight pageSetup) (Fin Domino.DominoMargin))
             (add (Fin Domino.DominoHeight) (Fin Domino.DominoMargin))).

Definition dominoesPerRow_of (stripSpacing : Measurement) (pageSetup : PageSetup) : number :=
  floor (div (printableWidth pageSetup)
             (add (Fin Domino.DominoWidth) (Fin (toInches stripSpacing)))).

(** [calculatePageLayout], on the two fields of the factory.  Nothing in
    its body throws. *)
Definition calculatePageLayout (stripSpacing : Measurement) (pageSetup : PageSetup)
  : outcome layout :=
  let dominoesPerColumn := dominoesPerColumn_of pageSetup in
  let dominoesPerRow := dominoesPerRow_of stripSpacing pageSetup in
  let dominoesPerPage := mul dominoesPerColumn dominoesPerRow in
  Return {| dominoesPerRow := dominoesPerRow; dominoesPerPage := dominoesPerPage |}.

(** [calculateXMargin]; [pdf.ts] and [preview.ts] carry the same function. *)
Definition calculateXMargin (pageWidth dominoesPerRow : number) (centerOnPageX : bool)
    (stripSpacing : number) : number :=
  if negb centerOnPageX then stripSpacing else
  let usedWidth :=
    add (mul dominoesPerRow (Fin Domino.DominoWidth))
        (mul (add dominoesPerRow (of_Z 1)) stripSpacing) in
  let remainingWidth := sub pageWidth usedWidth in
  add stripSpacing (div remainingWidth (of_Z 2)).

End TS.

(** ** pdf.ts *)

Module Pdf.

(** [Math.floor(Math.random() * span)]: a value of [0 .. span - 1] for a
    positive [span]; of [span .. 0] otherwise. *)
Definition random_floor (span : Z) : Store.M Z :=
  Store.draw >>= λ raw,
  Store.ret (if 0 <? span then raw mod span else - (raw mod (1 - span))).

(** The inner [for (let i = 0; i < take; i++)] loop of
    [pickRandomDominoes]. *)
Fixpoint pick_loop (n : nat) (available : Store.ref) (i : Z) (result : list Z)
  : Store.M (list Z) :=
  match n with
  | O => Store.ret result
  | S n' =>
      Store.length_of available >>= λ len,
      random_floor (len - i) >>= λ r,
      take_at available i (i + r) >>= λ x,
      pick_loop n' available (i + 1) (result ++ [x])
  end.

(** The [while (remaining > 0)] loop, given [fuel] rounds. *)
Fixpoint pick_rounds (fuel : nat) (source : Store.ref) (result : list Z) (remaining : Z)
  : Store.M (list Z) :=
  if remaining >? 0 then
    match fuel with
    | O => Store.out_of_fuel
    | S f =>
        Store.length_of source >>= λ len,
        let take := Z.min remaining len in
        Store.slice source >>= λ available,
        pick_loop (Z.to_nat take) available 0 result >>= λ result',
        pick_rounds f source result' (remaining - take)
    end
  else Store.ret result.

Definition pickRandomDominoes (fuel : nat) (source : Store.ref) (count : Z)
  : Store.M (list Z) :=
  Store.length_of source >>= λ len,
  if len =? 0 then Store.throw NoValidDominoes else
  if count <=? 0 then Store.ret [] else
  pick_rounds fuel source [] count.

(** A tile as [generateLetterPagesPdfBlob] draws it: the value read from
    [values] ([None] for [undefined]), and its column and row on the page
    ([None] where the division by zero gives no integer). *)
Record tile := { v : option Z; ix : option Z; iy : option Z }.

Definition rem (i d : Z) : option Z :=
  if d =? 0 then None else Some (Z.rem i d).
Definition floor_div (i d : Z) : option Z :=
  if d =? 0 then None else Some (i / d).

(** The loop [for (let i = 0; i < dominoesPerPage; i++)] of one page. *)
Definition page_tiles (values : list Z) (dominoesPerRow dominoesPerPage pageStart : Z)
  : list tile :=
  (λ i, {| v := lookupZ values (pageStart + i);
           ix := rem i dominoesPerRow;
           iy := floor_div i dominoesPerRow |}) <$> seqZ 0 dominoesPerPage.

(** The loop [for (let pageIndex = 0; pageIndex < pageCount; pageIndex++)]
    of [generateLetterPagesPdfBlob]: the pages of the document. *)
Definition letter_pages (values : list Z) (pageCount dominoesPerRow dominoesPerPage : Z)
  : list (list tile) :=
  (λ pageIndex, page_tiles values dominoesPerRow dominoesPerPage
                  (pageIndex * dominoesPerPage)) <$> seqZ 0 pageCount.

End Pdf.

(** ** DominoFactory.cs *)

Module CS.

Import Num.

Definition ColumnMask : Z := 0xFF.
Definition ConstantPipsMask : Z := 0x8181.
Definition DataBitsMask : Z := Int32.not ConstantPipsMask .& 0xFFFF.

(** [(byte)r]: the low eight bits. *)
Definition toByte (z : Z) : Z := Z.land z 0xff.
(** [(uint)dataBits]: the same 32 bits read as unsigned. *)
Definition toUInt32 (z : Z) : Z := Z.land z 0xffffffff.

Fixpoint reverse_loop (b : nat) (v r : Z) : Z :=
  match b with
  | O => r
  | S b' => reverse_loop b' (v .>> 1) ((r .<< 1) .| (v .& 1))
  end.

Definition CreateReverseTable : list Z :=
  (λ i, toByte (reverse_loop 8 i 0)) <$> seqZ 0 256.

Definition Reverse8 : list Z := CreateReverseTable.

(** [System.Numerics.BitOperations.PopCount(uint)] is a .NET library
    function; it is taken by its documented meaning, the number of bits set
    among the 32 bits of its argument. *)
Definition PopCount (u : Z) : Z :=
  Z.of_nat (length (filter (λ i, Z.testbit u i = true) (seqZ 0 32))).

Definition col0_of (dataBits : Z) : Z := ((dataBits .& 0x3F) .<< 1) .| 0x81.
Definition col1_of (dataBits : Z) : Z := (((dataBits .>> 6) .& 0x3F) .<< 1) .| 0x81.
Definition value_of (dataBits : Z) : Z := col0_of dataBits .| (col1_of dataBits .<< 8).

(** [Reverse8[col0] == col1], the byte widened to [int].  The index is
    within the table for every [dataBits] (lemma [col0_of_range]). *)
Definition palindrome (dataBits : Z) : bool :=
  match Reverse8 !! Z.to_nat (col0_of dataBits) with
  | Some r => r =? col1_of dataBits
  | None => false
  end.

(** One round of the [for] loop of [BuildValidDominoesList], on the pair of
    [uniqueDominoes] and [validDominoes].  [HashSet.Add] returns [true]
    exactly when the value was not yet in the set. *)
Definition build_step (st : gset Z * list Z) (dataBits : Z) : gset Z * list Z :=
  let '(uniqueDominoes, validDominoes) := st in
  if negb (PopCount (toUInt32 dataBits) =? 6) then st else
  let value := value_of dataBits in
  if palindrome dataBits then st else
  if decide (value ∈ uniqueDominoes) then st
  else ({[value]} ∪ uniqueDominoes, validDominoes ++ [value]).

Definition BuildValidDominoesList : list Z :=
  snd (foldl build_step (∅, []) (seqZ 0 (1 .<< 12))).

(** The static field [ValidDominoes] is the first array of the store. *)
Definition ValidDominoes : Store.ref := 0%nat.

Definition loaded (rng : nat → Z) : Store.state :=
  Store.State [BuildValidDominoesList] rng 0.

Definition GetValidDominoes : Store.M Store.ref := Store.ret ValidDominoes.

(** [Random.Shared.Next(minValue, maxValue)]: a value of
    [minValue .. maxValue - 1], [minValue] when the two are equal, and an
    ArgumentOutOfRangeException when [minValue > maxValue]. *)
Definition Next (minValue maxValue : Z) : Store.M Z :=
  if minValue >? maxValue then Store.throw ArgumentOutOfRange else
  Store.draw >>= λ raw,
  Store.ret (if minValue =? maxValue then minValue
             else minValue + raw mod (maxValue - minValue)).

Fixpoint shuffle_loop (n : nat) (availableDominoes : Store.ref) (i : Z) (result : list Z)
  : Store.M (list Z) :=
  match n with
  | O => Store.ret result
  | S n' =>
      Store.length_of availableDominoes >>= λ Count,
      Next i Count >>= λ randomIndex,
      take_at availableDominoes i randomIndex >>= λ x,
      shuffle_loop n' availableDominoes (Int32.add i 1) (<[Z.to_nat i := x]> result)
  end.

(** [new int[count]] is zero-filled, and throws for a negative [count]. *)
Definition GenerateRandomUniqueDominoes (count : Z) : Store.M (list Z) :=
  Store.slice ValidDominoes >>= λ availableDominoes,
  Store.length_of availableDominoes >>= λ Count,
  if count >? Count then Store.throw (InsufficientDominoes count Count) else
  if count <? 0 then Store.throw InvalidArrayLength else
  shuffle_loop (Z.to_nat count) availableDominoes 0 (replicate (Z.to_nat count) 0).

(** [double.MaxValue]. *)
Definition double_MaxValue : Q := inject_Z ((2 ^ 53 - 1) * 2 ^ 971).

(** [(int)x] on a [double], unchecked: the value truncated toward zero when
    it fits an [int]; the language leaves every other case unspecified
    ([None]). *)
Definition toInt (x : number) : option Z :=
  match x with
  | Fin q =>
      let z := if sign_neg q then Qceiling q else Qfloor q in
      if (- 2 ^ 31 <=? z) && (z <? 2 ^ 31) then Some z else None
  | _ => None
  end.

Definition marginInches (pageSetup : PageSetup) : Q :=
  match margin pageSetup with Some m => toInches m | None => 0 end.

Definition heightInches (pageSetup : PageSetup) : Q :=
  match height pageSetup with Some h => toInches h | None => double_MaxValue end.

(** [CalculatePageLayout]: the pair [(dominoesPerRow, dominoesPerPage)];
    [None] where a conversion to [int] is unspecified. *)
Definition CalculatePageLayout (stripSpacing : Measurement) (pageSetup : PageSetup)
  : option (Z * Z) :=
  let printableWidth :=
    sub (Fin (toInches (width pageSetup))) (mul (of_Z 2) (Fin (marginInches pageSetup))) in
  let printableHeight :=
    sub (Fin (heightInches pageSetup)) (mul (of_Z 2) (Fin (marginInches pageSetup))) in
  dominoesPerColumn ←
    toInt (floor (div (sub printableHeight (Fin Domino.DominoMargin))
                      (add (Fin Domino.DominoHeight) (Fin Domino.DominoMargin))));
  dominoesPerRow ←
    toInt (floor (div printableWidth
                      (add (Fin Domino.DominoWidth) (Fin (toInches stripSpacing)))));
  Some (dominoesPerRow, Int32.mul dominoesPerColumn dominoesPerRow).

(** A tile as [GeneratePdf] hands it to [RenderDominoToPdf]. *)
Record tile := { Value : Z; ix : Z; iy : Z }.

(** The loop [for (int i = 0; i < dominoesThisPage; i++)] of one page, [n]
    rounds from [i]. *)
Fixpoint page_tiles (n : nat) (dominoValues : list Z) (dominoesPerRow currentIndex i : Z)
  : outcome (list tile) :=
  match n with
  | O => Return []
  | S n' =>
      let globalIndex := Int32.add currentIndex i in
      match lookupZ dominoValues globalIndex with
      | None => Throw IndexOutOfRange
      | Some value =>
          if dominoesPerRow =? 0 then Throw DivideByZero else
          let t := {| Value := value;
                      ix := Z.rem i dominoesPerRow;
                      iy := Z.quot i dominoesPerRow |} in
          page_tiles n' dominoValues dominoesPerRow currentIndex (Int32.add i 1) >>- λ rest,
          Return (t :: rest)
      end
  end.

(** The loop [while (remainingDominoes > 0)] of [GeneratePdf], given [fuel]
    rounds: the pages added to the document, in order. *)
Fixpoint pages_loop (fuel : nat) (dominoValues : list Z)
    (dominoesPerRow dominoesPerPage remainingDominoes currentIndex : Z)
  : outcome (list (list tile)) :=
  if remainingDominoes >? 0 then
    match fuel with
    | O => OutOfFuel
    | S f =>
        let dominoesThisPage := Z.min remainingDominoes dominoesPerPage in
        page_tiles (Z.to_nat dominoesThisPage) dominoValues dominoesPerRow currentIndex 0
          >>- λ page,
        pages_loop f dominoValues dominoesPerRow dominoesPerPage
          (Int32.sub remainingDominoes dominoesThisPage)
          (Int32.add currentIndex dominoesThisPage) >>- λ rest,
        Return (page :: rest)
    end
  else Return [].

(** The tiles per page [GeneratePdf] works out for itself. *)
Definition GeneratePdf_dominoesPerPage (pageSetup : PageSetup) (count dominoesPerRow : Z)
  : option Z :=
  match height pageSetup with
  | Some h =>
      perColumn ←
        toInt (floor (div (sub (Fin (toInches h)) (Fin Domino.DominoMargin))
                          (add (Fin Domino.DominoHeight) (Fin Domino.DominoMargin))));
      Some (Int32.mul perColumn dominoesPerRow)
  | None => Some count
  end.

Definition GeneratePdf (fuel : nat) (pageSetup : PageSetup) (dominoValues : list Z)
    (dominoesPerRow : Z) : option (outcome (list (list tile))) :=
  let count := Z.of_nat (length dominoValues) in
  dominoesPerPage ← GeneratePdf_dominoesPerPage pageSetup count dominoesPerRow;
  Some (pages_loop fuel dominoValues dominoesPerRow dominoesPerPage count 0).

End CS.

(** ** The legality rules of a tile code, stated on its bits *)

Module Code.

Definition column0 (v : Z) : Z := Z.land v 0xff.
Definition column1 (v : Z) : Z := Z.land (Z.shiftr v 8) 0xff.

(** Bit [i] of the reversal is bit [7 - i] of the column. *)
Definition reverse8 (c : Z) : Z :=
  foldr (λ i acc, (if Z.testbit c i then 2 ^ (7 - i) else 0) + acc) 0 (seqZ 0 8).

(** The twelve payload positions: bits 1..6 of each column. *)
Definition payload_bits : list Z := [1; 2; 3; 4; 5; 6; 9; 10; 11; 12; 13; 14].

Definition count_set (v : Z) (bits : list Z) : nat :=
  length (filter (λ i, Z.testbit v i = true) bits).

Record valid (v : Z) : Prop := {
  valid_range : 0 <= v < 2 ^ 16;
  valid_frame0 : Z.testbit (column0 v) 0 = true ∧ Z.testbit (column0 v) 7 = true;
  valid_frame1 : Z.testbit (column1 v) 0 = true ∧ Z.testbit (column1 v) 7 = true;
  valid_weight : count_set v payload_bits = 6%nat;
  valid_not_palindrome : reverse8 (column0 v) ≠ column1 v
}.

Definition validb (v : Z) : bool :=
  (0 <=? v) && (v <? 2 ^ 16)
  && (Z.testbit (column0 v) 0 && Z.testbit (column0 v) 7)
  && (Z.testbit (column1 v) 0 && Z.testbit (column1 v) 7)
  && (count_set v payload_bits =? 6)%nat
  && negb (reverse8 (column0 v) =? column1 v).

(** The payload of a column: its bits 1..6, as a 6-bit number. *)
Definition payload (c : Z) : Z := Z.land (Z.shiftr c 1) 0x3f.

Definition reverse6 (p : Z) : Z :=
  foldr (λ i acc, (if Z.testbit p i then 2 ^ (5 - i) else 0) + acc) 0 (seqZ 0 6).

(** Three of the six payload bits of column 0 are set, and the payload of
    column 1 is their reversal. *)
Definition mirrored (v : Z) : bool :=
  (count_set (payload (column0 v)) (seqZ 0 6) =? 3)%nat
  && (payload (column1 v) =? reverse6 (payload (column0 v))).

End Code.

(** The candidates of the enumeration: the twelve-bit payloads that pass
    the population-count test, in loop order. *)
Definition candidates : list Z :=
  filter (λ d, TS.popCount12 d = 6) (seqZ 0 (1 .<< 12)).

(** The list of candidates, evaluated. *)
Definition candidate_list : list Z := Eval vm_compute in candidates.

(** The list the enumeration evaluates to. *)
Definition enumerated : list Z := Eval vm_compute in TS.buildValidDominoesList.

(** The invariant of both enumeration loops: the set holds exactly the
    values of the list, and the list repeats none. *)
Definition seen_inv (st : gset Z * list Z) : Prop :=
  NoDup st.2 ∧ ∀ x, x ∈ st.1 ↔ x ∈ st.2.

Definition reads (l : list Z) (i x : Z) : bool :=
  match l !! Z.to_nat i with Some r => r =? x | None => false end.

(** What a sampling loop of [n] rounds from index [i] has done to the array
    [a] it works on: it took [picks], and what it left from [i + n] on,
    together with [picks], is what was there from [i] on. *)
Definition sampled (a a' : list Z) (i n : nat) (picks : list Z) : Prop :=
  length picks = n ∧ length a' = length a ∧ picks ++ drop (i + n) a' ≡ₚ drop i a.


(** A sample of [n] pairwise distinct members of [L]. *)
Definition unique_sample (L res : list Z) (n : Z) : Prop :=
  Z.of_nat (length res) = n ∧ NoDup res ∧ res ⊆ L.

(** ** Calls on the loaded web module

    What a client of the module can do with the valid-code array: ask for
    it, draw unique codes with [generateRandomUniqueDominoes], or pass it to
    [pickRandomDominoes] as [pdf.ts] and [preview.ts] do. *)
Inductive call : Set :=
  | CallGetValidDominoes
  | CallGenerateRandomUniqueDominoes (count : Z)
  | CallPickRandomDominoes (count : Z).

(** The store after a call, whether it returned or threw. *)
Definition perform (c : call) (s : Store.state) : Store.state :=
  match c with
  | CallGetValidDominoes => snd (TS.getValidDominoes s)
  | CallGenerateRandomUniqueDominoes count =>
      snd (TS.generateRandomUniqueDominoes count s)
  | CallPickRandomDominoes count =>
      snd ((TS.getValidDominoes >>= λ valid,
            Pdf.pickRandomDominoes (Z.to_nat count) valid count) s)
  end.

Definition session (calls : list call) (s : Store.state) : Store.state :=
  foldl (λ s c, perform c s) s calls.

(** The same medium, twice as wide. *)
Definition doubled (pageSetup : PageSetup) : PageSetup :=
  {| width := {| value := 2 * value (width pageSetup); unit := unit (width pageSetup) |};
     height := height pageSetup;
     margin := margin pageSetup |}.

(** A strip of half an inch, too narrow for a tile beside its margins. *)
Definition narrow_page : PageSetup :=
  {| width := inches (1 # 2); height := Some (inches 11);
     margin := Some (inches (1 # 4)) |}.

Definition one_inch_page : PageSetup :=
  {| width := inches 1; height := Some (inches 11); margin := Some (inches 0) |}.

(** ** What pagination is to achieve *)

(** [ceil(a / b)] on integers, for a positive [b]. *)
Definition ceil_div (a b : Z) : Z := (a + b - 1) / b.

(** Tile [i] of a page sits in column [i mod dominoesPerRow] and row
    [i div dominoesPerRow]. *)
Definition CS_placed (dominoesPerRow : Z) (page : list CS.tile) : Prop :=
  ∀ (i : nat) (t : CS.tile), page !! i = Some t →
    CS.ix t = Z.of_nat i mod dominoesPerRow ∧ CS.iy t = Z.of_nat i / dominoesPerRow.

Definition Pdf_placed (dominoesPerRow : Z) (page : list Pdf.tile) : Prop :=
  ∀ (i : nat) (t : Pdf.tile), page !! i = Some t →
    Pdf.ix t = Some (Z.of_nat i mod dominoesPerRow)
    ∧ Pdf.iy t = Some (Z.of_nat i / dominoesPerRow).

(** ** domino.ts: the shape of one tile, and the pips of pdf.ts *)

Module Shape.

Import Num.

Definition PIP_RADIUS : Q := Domino.PIP_DIAMETER / 2.
Definition CORNER_RADIUS : Q := 1 # 10.
Definition PIP_OFFSET_SPACING : Q := Domino.PIP_DIAMETER + Domino.PIP_MARGIN.

(** The constructor: [this.value = value & 0xffff]. *)
Definition new_Domino (value : Z) : Z := value .& 0xffff.

Record circle := { cx : number; cy : number; r : Q }.

Definition pip_cx (x : number) (column : Z) : number :=
  add (add (add x (Fin Domino.PIP_MARGIN)) (Fin PIP_RADIUS))
      (mul (of_Z column) (Fin PIP_OFFSET_SPACING)).

Definition pip_cy (y : number) (pip : Z) : number :=
  add (add (add y (Fin Domino.PIP_MARGIN)) (Fin PIP_RADIUS))
      (mul (of_Z pip) (Fin PIP_OFFSET_SPACING)).

(** [for (let pip = 0; pip < PIPS_PER_COLUMN; pip++, mask <<= 1)], [n]
    rounds from [pip]: a circle where [(value & mask) !== 0]. *)
Fixpoint pip_loop (n : nat) (value mask pip : Z) (cx y : number) : list circle :=
  match n with
  | O => []
  | S n' =>
      (if negb ((value .& mask) =? 0)
       then [{| cx := cx; cy := pip_cy y pip; r := PIP_RADIUS |}]
       else [])
      ++ pip_loop n' value (mask .<< 1) (pip + 1) cx y
  end.

(** One round of [for (let column = 0; column < COLUMNS_PER_DOMINO;
    column++)], with [mask = 1 << (column * PIPS_PER_COLUMN)]. *)
Definition column_pips (value : Z) (x y : number) (column : Z) : list circle :=
  pip_loop 8 value (1 .<< (column * 8)) 0 (pip_cx x column) y.

(** The circles of [toSvgShape], of [renderPips] in pdf.ts and of the C#
    [ToSvgShape] and [RenderPipsToPdf], which all run these two loops. *)
Definition pips (value : Z) (x y : number) : list circle :=
  column_pips value x y 0 ++ column_pips value x y 1.

(** The position [toSvgShape] gives the tile body. *)
Definition tile_x (dxOffset xMargin stripSpacing : number) : number :=
  add (mul dxOffset (add (Fin Domino.DominoWidth) stripSpacing)) xMargin.

Definition tile_y (dyOffset : number) : number :=
  add (mul dyOffset (add (Fin Domino.DominoHeight) (Fin Domino.DominoMargin)))
      (Fin Domino.DominoMargin).

Record shape := {
  rect_x : number; rect_y : number;
  rect_width : Q; rect_height : Q; rect_rx : Q;
  circles : list circle
}.

(** [new Domino(value).toSvgShape(dxOffset, dyOffset, xMargin,
    stripSpacing)], as the primitives it writes; the text of the markup and
    its [toFixed(4)] rounding are not modelled. *)
Definition toSvgShape (value : Z) (dxOffset dyOffset xMargin stripSpacing : number)
  : shape :=
  let x := tile_x dxOffset xMargin stripSpacing in
  let y := tile_y dyOffset in
  {| rect_x := x; rect_y := y;
     rect_width := Domino.DominoWidth; rect_height := Domino.DominoHeight;
     rect_rx := CORNER_RADIUS;
     circles := pips (new_Domino value) x y |}.

(** [Math.ceil]. *)
Definition ceil (a : number) : number :=
  match a with
  | Fin q => of_Z (Qceiling q)
  | _ => a
  end.

(** [calculateTotalHeight] of dominoFactory.ts, pdf.ts and preview.ts. *)
Definition calculateTotalHeight (count dominoesPerRow : number) : number :=
  add (mul (ceil (div count dominoesPerRow))
           (add (Fin Domino.DominoHeight) (Fin Domino.DominoMargin)))
      (Fin Domino.DominoMargin).

(** The circle of the pip in row [pip] of column [column]. *)
Definition pip_circle (x y : number) (column pip : Z) : circle :=
  {| cx := pip_cx x column; cy := pip_cy y pip; r := PIP_RADIUS |}.

End Shape.

(** ** DominoFactory.cs: the diagnostic [CheckForSymmetricDominoes] *)

Module Diag.

(** [rotated180] of a value: each column replaced by its entry of
    [Reverse8]. *)
Definition rotated180 (value : Z) : outcome Z :=
  let col0 := value .& CS.ColumnMask in
  let col1 := (value .>> 8) .& CS.ColumnMask in
  match CS.Reverse8 !! Z.to_nat col1, CS.Reverse8 !! Z.to_nat col0 with
  | Some r1, Some r0 => Return ((r1 .<< 8) .| r0)
  | _, _ => Throw IndexOutOfRange
  end.

(** The [foreach] loop: the count of values equal to their [rotated180]. *)
Fixpoint count_symmetric (values : list Z) (symmetricCount : Z) : outcome Z :=
  match values with
  | [] => Return symmetricCount
  | value :: rest =>
      rotated180 value >>- λ rotated,
      count_symmetric rest
        (if value =? rotated then Int32.add symmetricCount 1 else symmetricCount)
  end.

(** What the diagnostic prints: the size of the list and the count. *)
Definition CheckForSymmetricDominoes (ValidDominoes : list Z) : outcome (Z * Z) :=
  count_symmetric ValidDominoes 0 >>- λ symmetricCount,
  Return (Z.of_nat (length ValidDominoes), symmetricCount).

(** Both columns of a code are their own reversal. *)
Definition self_mirrored (v : Z) : bool :=
  (Code.reverse8 (Code.column0 v) =? Code.column0 v)
  && (Code.reverse8 (Code.column1 v) =? Code.column1 v).

End Diag.

(** ** pdf.ts: the layout of [generateBrotherLabelPdfBlob] *)

Module Label.

Import Num.

Inductive LabelLayout : Set := strip | rows.

Inductive label_error : Set :=
  | WidthTooSmall      (* Label width must be at least 0.75 in. *)
  | LengthOutOfRange.  (* Label length must be between 2 in and 36 in. *)

(** [Math.max] on two numbers. *)
Definition max (a b : number) : number :=
  match a, b with
  | NaN, _ | _, NaN => NaN
  | _, _ => if ge a b then a else b
  end.

(** [a < b] on numbers. *)
Definition lt (a b : number) : bool :=
  match a, b with
  | NaN, _ | _, NaN => false
  | _, _ => negb (ge a b)
  end.

Definition isFinite (a : number) : bool :=
  match a with Fin _ => true | _ => false end.

Record plan := {
  dominoesPerRow : number;
  dominoesPerColumn : number;
  totalDominoes : number;
  xMargin : number
}.

(** The checks and the counts of [generateBrotherLabelPdfBlob], up to the
    call of [pickRandomDominoes]; the factory is built without a spacing, so
    [stripSpacing] is its default of 0.125 inches. *)
Definition label_plan (labelWidthInches labelLengthInches : number) (layout : LabelLayout)
  : plan + label_error :=
  if negb (isFinite labelWidthInches) || lt labelWidthInches (Fin (75 # 100))
  then inr WidthTooSmall else
  if negb (isFinite labelLengthInches) || lt labelLengthInches (of_Z 2)
     || lt (of_Z 36) labelLengthInches
  then inr LengthOutOfRange else
  let stripSpacingIn := Fin (toInches (inches (125 # 1000))) in
  let perRow :=
    match layout with
    | strip => of_Z 1
    | rows =>
        max (of_Z 1)
            (floor (div labelWidthInches (add (Fin Domino.DominoWidth) stripSpacingIn)))
    end in
  let perColumn :=
    max (of_Z 1)
        (floor (div (sub labelLengthInches (Fin Domino.DominoMargin))
                    (add (Fin Domino.DominoHeight) (Fin Domino.DominoMargin)))) in
  inl {| dominoesPerRow := perRow;
         dominoesPerColumn := perColumn;
         totalDominoes := mul perRow perColumn;
         xMargin := TS.calculateXMargin labelWidthInches perRow true stripSpacingIn |}.

End Label.

(** ** Small inputs *)

(** A store whose array 0 holds three codes, with a constant random
    source. *)
Definition three_codes : Store.state := Store.State [[7; 8; 9]] (λ _, 1) 0.

(** A page one inch high, lower than a tile. *)
Definition short_page : PageSetup :=
  {| width := inches 1; height := Some (inches 1); margin := None |}.

(** [PageSetup.A4Portrait()] of PageSetup.cs and pageSetup.ts. *)
Definition A4Portrait : PageSetup :=
  {| width := millimeters 210; height := Some (millimeters 297);
     margin := Some (millimeters 10) |}.

(** ** preview.ts and the SVG of dominoFactory.ts *)

Module Preview.

Import Num.

Inductive DesktopPaperSize : Set := letter | legal | a4 | a3.

Definition legalPortrait (m : option Measurement) : PageSetup :=
  {| width := inches (85 # 10); height := Some (inches 14);
     margin := Some (default (inches (25 # 100)) m) |}.

Definition A3Portrait : PageSetup :=
  {| width := millimeters 297; height := Some (millimeters 420);
     margin := Some (millimeters 10) |}.

(** The page setup [generateDesktopPreviewSvg] and [getDesktopPageSetup]
    choose for a paper size. *)
Definition pageSetup_of (paper : DesktopPaperSize) : PageSetup :=
  match paper with
  | legal => legalPortrait (Some (inches (25 # 100)))
  | a4 => A4Portrait
  | a3 => A3Portrait
  | letter => letterPortrait (Some (inches (25 # 100)))
  end.

(** What [generateSvg] works out before it writes the markup: the count it
    passes to [generateRandomUniqueDominoes], the tiles per row, the
    offset of the rows and the height of the drawing. *)
Record svg_plan := {
  count : number;
  dominoesPerRow : number;
  xMargin : number;
  measuredHeight : number
}.

Definition generateSvg_plan (stripSpacing : Measurement) (pageSetup : PageSetup)
    (count dominoesPerRow : number) : svg_plan :=
  let pageWidth := Fin (toInches (width pageSetup)) in
  let stripSpacingInches := Fin (toInches stripSpacing) in
  {| count := count;
     dominoesPerRow := dominoesPerRow;
     xMargin := TS.calculateXMargin pageWidth dominoesPerRow true stripSpacingInches;
     measuredHeight := Shape.calculateTotalHeight count dominoesPerRow |}.

(** [generatePagesSvg(pageCount)]. *)
Definition generatePagesSvg_plan (stripSpacing : Measurement) (pageSetup : PageSetup)
    (pageCount : number) : outcome svg_plan :=
  TS.calculatePageLayout stripSpacing pageSetup >>- λ l,
  let totalDominoes := mul pageCount (TS.dominoesPerPage l) in
  Return (generateSvg_plan stripSpacing pageSetup totalDominoes (TS.dominoesPerRow l)).

Inductive preview_error : Set :=
  | RowSpacingNotPositive.  (* Row spacing must be a positive number. *)

(** [generateDesktopPreviewSvg]: the check of the spacing, then one page
    of [generatePagesSvg] on the page setup of the paper. *)
Definition generateDesktopPreviewSvg_plan (rowSpacingInches : number)
    (paper : DesktopPaperSize) : outcome svg_plan + preview_error :=
  if negb (Label.isFinite rowSpacingInches) || ge (of_Z 0) rowSpacingInches
  then inr RowSpacingNotPositive else
  match rowSpacingInches with
  | Fin q => inl (generatePagesSvg_plan (inches q) (pageSetup_of paper) (of_Z 1))
  | _ => inr RowSpacingNotPositive
  end.

End Preview.

(** ** preview.ts: the one-row preview of a label *)

Module LabelPreview.

Import Num.

Record plan := {
  dominoesPerRow : number;
  count : number;
  xMargin : number;
  heightIn : number
}.

(** The check and the counts of [generateLabelPreviewSvg], up to the call
    of [pickRandomDominoes]. *)
Definition preview_plan (labelWidthInches : number) (layout : Label.LabelLayout)
  : plan + Label.label_error :=
  if negb (Label.isFinite labelWidthInches) || Label.lt labelWidthInches (Fin (75 # 100))
  then inr Label.WidthTooSmall else
  let stripSpacingIn := Fin (125 # 1000) in
  let perRow :=
    match layout with
    | Label.strip => of_Z 1
    | Label.rows =>
        Label.max (of_Z 1)
          (floor (div labelWidthInches (add (Fin Domino.DominoWidth) stripSpacingIn)))
    end in
  let count := perRow in
  inl {| dominoesPerRow := perRow;
         count := count;
         xMargin := TS.calculateXMargin labelWidthInches perRow true stripSpacingIn;
         heightIn := Shape.calculateTotalHeight count perRow |}.

End LabelPreview.

(** ** DominoFactory.cs: [GeneratePagesPdf] *)

Module PagesPdf.


End PagesPdf.

(** * Properties of the enumerators *)

Lemma forallb_seqZ (P : Z → bool) (m n : Z) :
  forallb P (seqZ m n) = true → ∀ x, m <= x < m + n → P x = true.
Proof.
  intros H x Hx. rewrite forallb_forall in H. apply H.
  apply list_elem_of_In, elem_of_seqZ. lia.
Qed.

Lemma forallb_elem_of {A} (P : A → bool) (l : list A) x :
  forallb P l = true → x ∈ l → P x = true.
Proof.
  intros H Hx. rewrite forallb_forall in H. by apply H, list_elem_of_In.
Qed.

Lemma land_ones_range (a n : Z) : 0 <= n → 0 <= Z.land a (Z.ones n) < 2 ^ n.
Proof.
  intros Hn. rewrite Z.land_ones by done. apply Z.mod_pos_bound. lia.
Qed.

Lemma toInt32_wrap (z : Z) : Int32.toInt32 z = (z + 2 ^ 31) mod 2 ^ 32 - 2 ^ 31.
Proof.
  unfold Int32.toInt32. change 0xffffffff with (Z.ones 32).
  rewrite Z.land_ones by lia. cbv zeta.
  change 0x80000000 with (2 ^ 31). change 0x100000000 with (2 ^ 32).
  rewrite <- (Zplus_mod_idemp_l z).
  pose proof (Z.mod_pos_bound z (2 ^ 32) ltac:(lia)) as Hm.
  revert Hm. generalize (z mod 2 ^ 32). intros m Hm.
  destruct (Z.ltb_spec m (2 ^ 31)) as [Hlt|Hge].
  - rewrite Z.mod_small by lia. lia.
  - replace (m + 2 ^ 31) with (m + 2 ^ 31 - 2 ^ 32 + 1 * 2 ^ 32) by lia.
    rewrite Z.mod_add by lia. rewrite Z.mod_small by lia. lia.
Qed.

Lemma toInt32_small (z : Z) : - 2 ^ 31 <= z < 2 ^ 31 → Int32.toInt32 z = z.
Proof. intros H. rewrite toInt32_wrap. rewrite Z.mod_small; lia. Qed.

Lemma and_mask_range (a n : Z) :
  0 <= n <= 31 → 0 <= a .& Z.ones n < 2 ^ n.
Proof.
  intros Hn. unfold Int32.and.
  assert (Hp : 2 ^ n <= 2 ^ 31) by (apply Z.pow_le_mono_r; lia).
  assert (Ho : Int32.toInt32 (Z.ones n) = Z.ones n).
  { apply toInt32_small. rewrite Z.ones_equiv. lia. }
  rewrite Ho. pose proof (land_ones_range (Int32.toInt32 a) n ltac:(lia)).
  rewrite toInt32_small; lia.
Qed.

(** The population-count loop has left the loop within its twelve rounds,
    whatever the argument. *)
Lemma popCount12_exits (n : Z) :
  fst (TS.popCount12_loop 12 (n .& 0xfff) 0) = 0.
Proof.
  pose proof (and_mask_range n 12 ltac:(lia)) as Hx.
  change (Z.ones 12) with 0xfff in Hx. change (2 ^ 12) with (0 + 4096) in Hx.
  revert Hx. generalize (n .& 0xfff). intros x Hx.
  apply Z.eqb_eq.
  apply (forallb_seqZ (λ x, fst (TS.popCount12_loop 12 x 0) =? 0) 0 4096); [|exact Hx].
  vm_compute. reflexivity.
Qed.

(** The hand-written population count agrees with the count of set bits,
    and with the library function of the C# side. *)
Lemma popCount12_count (d : Z) :
  0 <= d < 4096 →
  TS.popCount12 d = Z.of_nat (Code.count_set d (seqZ 0 12)) ∧
  CS.PopCount (CS.toUInt32 d) = TS.popCount12 d.
Proof.
  intros Hd.
  assert (H : (TS.popCount12 d =? Z.of_nat (Code.count_set d (seqZ 0 12)))
              && (CS.PopCount (CS.toUInt32 d) =? TS.popCount12 d) = true).
  { apply (forallb_seqZ
      (λ d, (TS.popCount12 d =? Z.of_nat (Code.count_set d (seqZ 0 12)))
            && (CS.PopCount (CS.toUInt32 d) =? TS.popCount12 d)) 0 4096); [|lia].
    vm_compute. reflexivity. }
  apply andb_true_iff in H as [H1 H2]. split; by apply Z.eqb_eq.
Qed.

Lemma reads_spec (l : list Z) (i x : Z) :
  reads l i x = true ↔ l !! Z.to_nat i = Some x.
Proof.
  unfold reads. destruct (l !! Z.to_nat i) as [r|]; [|split; discriminate].
  rewrite Z.eqb_eq. split; congruence.
Qed.

(** Both reverse tables hold the bit reversal of their index. *)
Lemma REVERSE8_reverse8 (c : Z) :
  0 <= c < 256 →
  TS.REVERSE8 !! Z.to_nat c = Some (Code.reverse8 c) ∧
  CS.Reverse8 !! Z.to_nat c = Some (Code.reverse8 c).
Proof.
  intros Hc. rewrite <- !reads_spec. apply andb_true_iff.
  apply (forallb_seqZ
    (λ c, reads TS.REVERSE8 c (Code.reverse8 c)
          && reads CS.Reverse8 c (Code.reverse8 c)) 0 256); [|lia].
  vm_compute. reflexivity.
Qed.

Lemma reverse8_testbit (c i : Z) :
  0 <= c < 256 → 0 <= i < 8 →
  Z.testbit (Code.reverse8 c) i = Z.testbit c (7 - i).
Proof.
  intros Hc Hi.
  assert (H : forallb (λ i, Bool.eqb (Z.testbit (Code.reverse8 c) i) (Z.testbit c (7 - i)))
                (seqZ 0 8) = true).
  { apply (forallb_seqZ
      (λ c, forallb (λ i, Bool.eqb (Z.testbit (Code.reverse8 c) i) (Z.testbit c (7 - i)))
              (seqZ 0 8)) 0 256); [|lia].
    vm_compute. reflexivity. }
  apply Bool.eqb_prop. apply (forallb_seqZ _ 0 8 H). lia.
Qed.

(** The column built from a payload lies within the reverse table. *)
Lemma col0_of_range (d : Z) :
  0 <= TS.col0_of d < 256 ∧ CS.col0_of d = TS.col0_of d.
Proof.
  split; [|unfold CS.col0_of, TS.col0_of; reflexivity].
  unfold TS.col0_of.
  pose proof (and_mask_range d 6 ltac:(lia)) as Hx.
  change (Z.ones 6) with 0x3f in Hx. change (2 ^ 6) with (0 + 64) in Hx.
  revert Hx. generalize (d .& 0x3f). intros x Hx.
  assert (H : (0 <=? x .<< 1 .| 0x81) && (x .<< 1 .| 0x81 <? 256) = true).
  { apply (forallb_seqZ (λ x, (0 <=? x .<< 1 .| 0x81) && (x .<< 1 .| 0x81 <? 256)) 0 64);
      [vm_compute; reflexivity | exact Hx]. }
  apply andb_true_iff in H as [H1 H2]. lia.
Qed.

Lemma validb_spec (v : Z) : Code.validb v = true ↔ Code.valid v.
Proof.
  unfold Code.validb. rewrite !andb_true_iff, negb_true_iff.
  rewrite Z.leb_le, Z.ltb_lt, Nat.eqb_eq, Z.eqb_neq.
  split.
  - intros [[[[[? ?] [? ?]] [? ?]] ?] ?]. by constructor.
  - intros [[? ?] [? ?] [? ?] ? ?]. tauto.
Qed.


Lemma buildValidDominoesList_eval : TS.buildValidDominoesList = enumerated.
Proof. vm_compute. reflexivity. Qed.

(** ** The [seen] set keeps the list free of repetitions *)

Lemma seen_inv_add (seen : gset Z) (l : list Z) (x : Z) :
  seen_inv (seen, l) → x ∉ seen → seen_inv ({[x]} ∪ seen, l ++ [x]).
Proof.
  intros [Hnd Hiff] Hx. simpl in *. split; simpl.
  - apply NoDup_app. split_and!; [done | | apply NoDup_singleton].
    intros y Hy Hy'. apply list_elem_of_singleton in Hy' as ->.
    by apply Hx, Hiff.
  - intros y. rewrite elem_of_union, elem_of_singleton, elem_of_app,
      list_elem_of_singleton, Hiff. tauto.
Qed.

Lemma TS_build_step_inv (st : gset Z * list Z) (d : Z) :
  seen_inv st → seen_inv (TS.build_step st d).
Proof.
  intros Hinv. destruct st as [seen l]. unfold TS.build_step.
  repeat (match goal with |- context [if ?b then _ else _] => destruct b end;
          try assumption).
  by apply seen_inv_add.
Qed.

Lemma CS_build_step_inv (st : gset Z * list Z) (d : Z) :
  seen_inv st → seen_inv (CS.build_step st d).
Proof.
  intros Hinv. destruct st as [seen l]. unfold CS.build_step.
  repeat (match goal with |- context [if ?b then _ else _] => destruct b end;
          try assumption).
  by apply seen_inv_add.
Qed.

Lemma foldl_seen_inv (step : gset Z * list Z → Z → gset Z * list Z) (ds : list Z) :
  (∀ st d, seen_inv st → seen_inv (step st d)) →
  ∀ st, seen_inv st → seen_inv (foldl step st ds).
Proof.
  intros Hstep. induction ds as [|d ds IH]; intros st Hst; simpl; [done|].
  apply IH, Hstep, Hst.
Qed.

Lemma seen_inv_empty : seen_inv (∅, []).
Proof. split; simpl; [constructor | set_solver]. Qed.

Lemma buildValidDominoesList_NoDup :
  NoDup TS.buildValidDominoesList ∧ NoDup CS.BuildValidDominoesList.
Proof.
  unfold TS.buildValidDominoesList, CS.BuildValidDominoesList.
  generalize (seqZ 0 (1 .<< 12)). intros ds. split.
  - pose proof (foldl_seen_inv TS.build_step ds TS_build_step_inv _ seen_inv_empty) as [H _].
    exact H.
  - pose proof (foldl_seen_inv CS.build_step ds CS_build_step_inv _ seen_inv_empty) as [H _].
    exact H.
Qed.

(** ** The enumerated codes *)

Lemma enumerated_validb : forallb Code.validb enumerated = true.
Proof. vm_compute. reflexivity. Qed.

Lemma enumerated_length : length enumerated = 904%nat.
Proof. reflexivity. Qed.

Lemma candidates_eval : candidates = candidate_list.
Proof. vm_compute. reflexivity. Qed.

(** The enumeration is the image of the candidates that are not
    palindromes: the two sanity tests and the [seen] test reject none. *)
Lemma enumerated_filter :
  enumerated = TS.value_of <$> filter (λ d, TS.palindrome d = false) candidates.
Proof. rewrite candidates_eval. vm_compute. reflexivity. Qed.

Lemma candidates_length :
  length candidates = 924%nat ∧
  length (filter (λ d, TS.palindrome d = true) candidates) = 20%nat.
Proof. rewrite candidates_eval. split; vm_compute; reflexivity. Qed.

(** A candidate is rejected as a palindrome exactly when its code is
    mirrored. *)
Lemma candidates_palindrome :
  forallb (λ d, Bool.eqb (TS.palindrome d) (Code.mirrored (TS.value_of d))) candidates = true.
Proof. rewrite candidates_eval. vm_compute. reflexivity. Qed.

(** ** The two enumerators take the same steps *)

(** What the two loops have in common at a candidate: the same value, the
    same verdict of the palindrome test, and the two sanity tests of the
    TypeScript loop passed. *)
Lemma steps_agree_candidates :
  forallb (λ d,
    (CS.value_of d =? TS.value_of d)
    && Bool.eqb (CS.palindrome d) (TS.palindrome d)
    && ((TS.value_of d .& TS.CONSTANT_PIPS_MASK) .& 0xffff =? TS.CONSTANT_PIPS_MASK)
    && ((TS.value_of d .& TS.DATA_BITS_MASK) .& 0xffff =? TS.value_of d .& TS.DATA_BITS_MASK))
    candidates = true.
Proof. rewrite candidates_eval. vm_compute. reflexivity. Qed.

Lemma shl_1_12 : 1 .<< 12 = 4096.
Proof. vm_compute. reflexivity. Qed.

Lemma elem_of_candidates (d : Z) :
  d ∈ candidates ↔ 0 <= d < 4096 ∧ TS.popCount12 d = 6.
Proof.
  unfold candidates. rewrite shl_1_12.
  rewrite list_elem_of_filter, elem_of_seqZ. intuition lia.
Qed.

Lemma build_step_agree (st : gset Z * list Z) (d : Z) :
  0 <= d < 4096 → CS.build_step st d = TS.build_step st d.
Proof.
  intros Hd. destruct st as [seen l].
  unfold CS.build_step, TS.build_step.
  destruct (popCount12_count d Hd) as [_ ->].
  destruct (TS.popCount12 d =? 6) eqn:Hpop; cbn [negb]; [|reflexivity].
  apply Z.eqb_eq in Hpop.
  assert (Hc : d ∈ candidates) by (by apply elem_of_candidates).
  pose proof (forallb_elem_of _ _ _ steps_agree_candidates Hc) as H.
  cbv beta in H.
  rewrite !andb_true_iff in H. destruct H as [[[Hv Hp] Hk] Hm].
  apply Z.eqb_eq in Hv. apply Bool.eqb_prop in Hp.
  rewrite Hv, Hp, Hk, Hm. cbn [negb]. reflexivity.
Qed.

Lemma foldl_agree (ds : list Z) (st : gset Z * list Z) :
  Forall (λ d, 0 <= d < 4096) ds →
  foldl CS.build_step st ds = foldl TS.build_step st ds.
Proof.
  intros Hds. revert st. induction Hds as [|d ds Hd _ IH]; intros st; simpl; [done|].
  rewrite build_step_agree by done. apply IH.
Qed.

Lemma BuildValidDominoesList_agree :
  CS.BuildValidDominoesList = TS.buildValidDominoesList.
Proof.
  unfold CS.BuildValidDominoesList, TS.buildValidDominoesList.
  rewrite shl_1_12. rewrite foldl_agree; [reflexivity|].
  apply Forall_forall. intros d Hd%elem_of_seqZ. lia.
Qed.

Lemma enumerated_eval :
  TS.buildValidDominoesList = enumerated ∧ CS.BuildValidDominoesList = enumerated.
Proof.
  rewrite BuildValidDominoesList_agree. split; exact buildValidDominoesList_eval.
Qed.

(** C1: every code of the list returned by [buildValidDominoesList], and of
    the list returned by the C# [BuildValidDominoesList], is a 16-bit value
    with bits 0 and 7 set in each of its two columns, with exactly 6 of its
    12 payload bits set, and whose column 0, reversed as 8 bits, is not its
    column 1. *)
Theorem enumerated_codes_valid (v : Z) :
  v ∈ TS.buildValidDominoesList ∨ v ∈ CS.BuildValidDominoesList → Code.valid v.
Proof.
  destruct enumerated_eval as [-> ->]. intros Hv.
  assert (Hin : v ∈ enumerated) by tauto.
  apply validb_spec. exact (forallb_elem_of _ _ _ enumerated_validb Hin).
Qed.

Lemma enumerated_codes_valid_witness :
  (33279 ∈ TS.buildValidDominoesList ∨ 33279 ∈ CS.BuildValidDominoesList)
  ∧ Code.valid 33279.
Proof.
  assert (H : 33279 ∈ TS.buildValidDominoesList ∨ 33279 ∈ CS.BuildValidDominoesList).
  { left. rewrite (proj1 enumerated_eval).
    apply (list_elem_of_lookup_2 _ 0%nat). reflexivity. }
  split; [exact H | apply (enumerated_codes_valid 33279 H)].
Defined.

(** C9: the TypeScript enumerator and the C# enumerator compute the same
    ordered list: the two lists have the same length and the same element
    at every index. *)
Theorem enumerators_agree :
  length TS.buildValidDominoesList = length CS.BuildValidDominoesList ∧
  ∀ i : nat, TS.buildValidDominoesList !! i = CS.BuildValidDominoesList !! i.
Proof. rewrite BuildValidDominoesList_agree. split; reflexivity. Qed.

(** C10: the enumerated set has 904 elements.  Of the 924 payloads with
    population count 6, the palindrome test rejects 20, which are exactly
    those whose column-0 payload has population count 3 and reverses onto
    the column-1 payload; every other candidate is in the list, in the
    order of the candidates. *)
Theorem valid_set_size :
  length TS.buildValidDominoesList = 904%nat ∧
  length CS.BuildValidDominoesList = 904%nat ∧
  length candidates = 924%nat ∧
  length (filter (λ d, TS.palindrome d = true) candidates) = 20%nat ∧
  (∀ d, d ∈ candidates →
        (TS.palindrome d = true ↔ Code.mirrored (TS.value_of d) = true)) ∧
  TS.buildValidDominoesList
  = TS.value_of <$> filter (λ d, TS.palindrome d = false) candidates.
Proof.
  destruct enumerated_eval as [-> ->]. destruct candidates_length as [Hc Hp].
  split; [exact enumerated_length|]. split; [exact enumerated_length|].
  split; [exact Hc|]. split; [exact Hp|]. split.
  - intros d Hd.
    pose proof (forallb_elem_of _ _ _ candidates_palindrome Hd) as H.
    cbv beta in H. apply Bool.eqb_prop in H. rewrite H. reflexivity.
  - exact enumerated_filter.
Qed.

(** * Properties of the samplers *)

(** ** One pick of the partial Fisher-Yates shuffle, on lists *)

Lemma insert_swap_perm (l : list Z) (k : nat) (x y : Z) :
  l !! k = Some x → x :: <[k := y]> l ≡ₚ y :: l.
Proof.
  revert k. induction l as [|z l IH]; intros [|k] Hk; simplify_eq/=.
  - apply Permutation_swap.
  - trans (z :: x :: <[k := y]> l); [apply Permutation_swap|].
    rewrite (IH _ Hk). apply Permutation_swap.
Qed.

(** Taking the element at [j] and moving the element at [i] into its place
    leaves, from [i + 1] on, what was there from [i] on, less the element
    taken. *)
Lemma pick_perm (a : list Z) (i j : nat) (x y : Z) :
  a !! i = Some y → a !! j = Some x → (i ≤ j)%nat →
  x :: drop (S i) (<[j := y]> a) ≡ₚ drop i a.
Proof.
  intros Hi Hj Hij.
  rewrite (drop_S a y i Hi).
  destruct (decide (i = j)) as [->|Hne].
  - assert (x = y) as -> by congruence.
    by rewrite list_insert_id.
  - rewrite drop_insert_ge by lia.
    apply insert_swap_perm. rewrite lookup_drop. rewrite <- Hj. f_equal. lia.
Qed.

(** ** Running the primitives of the store *)

Lemma lookupZ_of_nat {A} (l : list A) (i : nat) : lookupZ l (Z.of_nat i) = l !! i.
Proof.
  unfold lookupZ. destruct (Z.ltb_spec (Z.of_nat i) 0); [lia|].
  by rewrite Nat2Z.id.
Qed.

Lemma deref_Some (s : Store.state) (r : Store.ref) (a : list Z) :
  Store.arrays s !! r = Some a → Store.deref s r = a.
Proof. intros H. unfold Store.deref. by rewrite H. Qed.

Lemma take_at_run (s : Store.state) (r : Store.ref) (i j : nat) (a : list Z) (x y : Z) :
  Store.arrays s !! r = Some a → a !! i = Some y → a !! j = Some x →
  take_at r (Z.of_nat i) (Z.of_nat j) s
  = (Return x,
     Store.State (<[r := <[j := y]> a]> (Store.arrays s)) (Store.entropy s) (Store.drawn s)).
Proof.
  intros Hr Hi Hj.
  unfold take_at, Store.bind, Store.get, Store.set, Store.ret.
  rewrite (deref_Some s r a Hr), lookupZ_of_nat, Hj. cbv iota beta.
  rewrite (deref_Some s r a Hr), lookupZ_of_nat, Hi. cbv iota beta.
  rewrite (deref_Some s r a Hr), lookupZ_of_nat, Hj. cbv iota beta.
  rewrite Nat2Z.id.
  f_equal. f_equal.
  apply list_eq. intros k. destruct (decide (r = k)) as [<-|Hne].
  - rewrite list_lookup_alter_eq, Hr, list_lookup_insert_eq; [done|].
    by eapply lookup_lt_Some.
  - by rewrite list_lookup_alter_ne, list_lookup_insert_ne.
Qed.

Lemma slice_run (s : Store.state) (r : Store.ref) (a : list Z) :
  Store.arrays s !! r = Some a →
  Store.slice r s
  = (Return (length (Store.arrays s)),
     Store.State (Store.arrays s ++ [a]) (Store.entropy s) (Store.drawn s)).
Proof. intros Hr. unfold Store.slice. by rewrite (deref_Some s r a Hr). Qed.

Lemma length_of_run (s : Store.state) (r : Store.ref) (a : list Z) :
  Store.arrays s !! r = Some a →
  Store.length_of r s = (Return (Z.of_nat (length a)), s).
Proof. intros Hr. unfold Store.length_of. by rewrite (deref_Some s r a Hr). Qed.

(** ** The three random index draws stay within [i .. len - 1] *)

Lemma randomInt_run (s : Store.state) (i len : nat) :
  (i < len)%nat →
  ∃ (j : nat) (s' : Store.state),
    TS.randomInt (Z.of_nat i) (Z.of_nat len) s = (Return (Z.of_nat j), s')
    ∧ Store.arrays s' = Store.arrays s ∧ (i ≤ j < len)%nat.
Proof.
  intros Hlt. unfold TS.randomInt.
  destruct (Z.leb_spec (Z.of_nat len - Z.of_nat i) 0) as [?|Hspan]; [lia|].
  pose proof (Z.mod_pos_bound (Store.entropy s (Store.drawn s))
                (Z.of_nat len - Z.of_nat i) Hspan) as Hr.
  set (r := Store.entropy s (Store.drawn s) mod (Z.of_nat len - Z.of_nat i)) in *.
  exists (Z.to_nat (Z.of_nat i + r)). eexists.
  unfold Store.bind, Store.draw, Store.ret. fold r.
  rewrite Z2Nat.id by lia. split; [reflexivity|]. simpl. split; [done|lia].
Qed.

Lemma Next_run (s : Store.state) (i len : nat) :
  (i < len)%nat →
  ∃ (j : nat) (s' : Store.state),
    CS.Next (Z.of_nat i) (Z.of_nat len) s = (Return (Z.of_nat j), s')
    ∧ Store.arrays s' = Store.arrays s ∧ (i ≤ j < len)%nat.
Proof.
  intros Hlt. unfold CS.Next.
  destruct (Z.gtb_spec (Z.of_nat i) (Z.of_nat len)) as [?|_]; [lia|].
  destruct (Z.eqb_spec (Z.of_nat i) (Z.of_nat len)) as [?|_]; [lia|].
  assert (Hspan : 0 < Z.of_nat len - Z.of_nat i) by lia.
  pose proof (Z.mod_pos_bound (Store.entropy s (Store.drawn s))
                (Z.of_nat len - Z.of_nat i) Hspan) as Hr.
  set (r := Store.entropy s (Store.drawn s) mod (Z.of_nat len - Z.of_nat i)) in *.
  exists (Z.to_nat (Z.of_nat i + r)). eexists.
  unfold Store.bind, Store.draw, Store.ret. fold r.
  rewrite Z2Nat.id by lia. split; [reflexivity|]. simpl. split; [done|lia].
Qed.

Lemma random_floor_run (s : Store.state) (i len : nat) :
  (i < len)%nat →
  ∃ (j : nat) (r : Z) (s' : Store.state),
    Pdf.random_floor (Z.of_nat len - Z.of_nat i) s = (Return r, s')
    ∧ Z.of_nat i + r = Z.of_nat j
    ∧ Store.arrays s' = Store.arrays s ∧ (i ≤ j < len)%nat.
Proof.
  intros Hlt. unfold Pdf.random_floor.
  destruct (Z.ltb_spec 0 (Z.of_nat len - Z.of_nat i)) as [Hspan|?]; [|lia].
  pose proof (Z.mod_pos_bound (Store.entropy s (Store.drawn s))
                (Z.of_nat len - Z.of_nat i) Hspan) as Hr.
  set (r := Store.entropy s (Store.drawn s) mod (Z.of_nat len - Z.of_nat i)) in *.
  exists (Z.to_nat (Z.of_nat i + r)), r. eexists.
  unfold Store.bind, Store.draw, Store.ret. fold r.
  split; [reflexivity|]. simpl. split; [lia|]. split; [done|lia].
Qed.

(** ** One round of a sampling loop

    From a store whose array [avail] holds [a], a draw [j] of [i .. len - 1]
    followed by [take_at] returns [a[j]] and leaves [a] with [a[i]] at
    [j]. *)
Lemma take_at_step (s : Store.state) (avail : Store.ref) (i j : nat) (a : list Z) :
  Store.arrays s !! avail = Some a → (i ≤ j < length a)%nat →
  ∃ x y,
    a !! i = Some y ∧ a !! j = Some x ∧
    take_at avail (Z.of_nat i) (Z.of_nat j) s
    = (Return x,
       Store.State (<[avail := <[j := y]> a]> (Store.arrays s))
         (Store.entropy s) (Store.drawn s)).
Proof.
  intros Hr Hij.
  destruct (lookup_lt_is_Some_2 a i ltac:(lia)) as [y Hy].
  destruct (lookup_lt_is_Some_2 a j ltac:(lia)) as [x Hx].
  exists x, y. split_and!; [done..|]. by apply take_at_run.
Qed.

Lemma sampled_nil (a : list Z) (i : nat) : sampled a a i 0 [].
Proof. split_and!; [done..|]. by rewrite Nat.add_0_r. Qed.

Lemma sampled_cons (a a' : list Z) (i j n : nat) (x y : Z) (picks : list Z) :
  a !! i = Some y → a !! j = Some x → (i ≤ j)%nat →
  sampled (<[j := y]> a) a' (S i) n picks →
  sampled a a' i (S n) (x :: picks).
Proof.
  intros Hi Hj Hij (Hlen & Hlen' & Hperm). split_and!.
  - simpl. by rewrite Hlen.
  - by rewrite Hlen', length_insert.
  - replace (i + S n)%nat with (S i + n)%nat by lia.
    simpl. rewrite Hperm. by apply pick_perm.
Qed.

Lemma sampled_NoDup (a a' : list Z) (n : nat) (picks : list Z) :
  sampled a a' 0 n picks → NoDup a → NoDup picks ∧ picks ⊆ a.
Proof.
  intros (_ & _ & Hperm) Hnd. rewrite drop_0 in Hperm.
  rewrite <- Hperm in Hnd. apply NoDup_app in Hnd as (Hnd & _ & _).
  split; [done|]. intros x Hx. rewrite <- Hperm. apply elem_of_app. by left.
Qed.

Lemma sampled_subseteq (a a' : list Z) (n : nat) (picks : list Z) :
  sampled a a' 0 n picks → picks ⊆ a.
Proof.
  intros (_ & _ & Hperm). rewrite drop_0 in Hperm.
  intros x Hx. rewrite <- Hperm. apply elem_of_app. by left.
Qed.

Lemma bind_Return {A B} (m : Store.M A) (f : A → Store.M B) (s s' : Store.state) (a : A) :
  m s = (Return a, s') → (m >>= f) s = f a s'.
Proof. intros H. unfold Store.bind. by rewrite H. Qed.

Lemma bind_Throw {A B} (m : Store.M A) (f : A → Store.M B) (s s' : Store.state) (e : exn) :
  m s = (Throw e, s') → (m >>= f) s = (Throw e, s').
Proof. intros H. unfold Store.bind. by rewrite H. Qed.

(** ** The sampling loops *)

Lemma TS_shuffle_loop_run (n : nat) :
  ∀ (s : Store.state) (i : nat) (result a : list Z) (avail : Store.ref),
    Store.arrays s !! avail = Some a →
    (i + n ≤ length a)%nat → (i + n ≤ length result)%nat →
    ∃ picks a' s',
      TS.shuffle_loop n avail (Z.of_nat i) result s
      = (Return (take i result ++ picks ++ drop (i + n) result), s')
      ∧ Store.arrays s' = <[avail := a']> (Store.arrays s)
      ∧ sampled a a' i n picks.
Proof.
  induction n as [|n IH]; intros s i result a avail Hr Ha Hres.
  - exists [], a, s. split_and!.
    + simpl. unfold Store.ret. by rewrite Nat.add_0_r, take_drop.
    + by rewrite list_insert_id.
    + apply sampled_nil.
  - destruct (randomInt_run s i (length a) ltac:(lia)) as (j & s1 & Hrun & Hs1 & Hj).
    assert (Hr1 : Store.arrays s1 !! avail = Some a) by (by rewrite Hs1).
    destruct (take_at_step s1 avail i j a Hr1 ltac:(lia)) as (x & y & Hy & Hx & Htake).
    set (s2 := Store.State (<[avail := <[j := y]> a]> (Store.arrays s1))
                 (Store.entropy s1) (Store.drawn s1)) in *.
    assert (Hr2 : Store.arrays s2 !! avail = Some (<[j := y]> a)).
    { simpl. apply list_lookup_insert_eq. by eapply lookup_lt_Some. }
    destruct (IH s2 (S i) (<[i := x]> result) (<[j := y]> a) avail Hr2)
      as (picks & a' & s' & Hloop & Hs' & Hsam).
    { rewrite length_insert. lia. }
    { rewrite length_insert. lia. }
    exists (x :: picks), a', s'. split_and!.
    + cbn [TS.shuffle_loop].
      rewrite (bind_Return _ _ _ _ _ (length_of_run s avail a Hr)).
      rewrite (bind_Return _ _ _ _ _ Hrun).
      rewrite (bind_Return _ _ _ _ _ Htake).
      rewrite Nat2Z.id. replace (Z.of_nat i + 1) with (Z.of_nat (S i)) by lia.
      rewrite Hloop. f_equal. f_equal.
      rewrite (take_S_r _ _ x) by (apply list_lookup_insert_eq; lia).
      rewrite take_insert_ge by lia. rewrite drop_insert_lt by lia.
      rewrite <- app_assoc. simpl.
      by replace (S (i + n)) with (i + S n)%nat by lia.
    + rewrite Hs'. simpl. rewrite list_insert_insert_eq. by rewrite Hs1.
    + apply (sampled_cons a a' i j n x y picks Hy Hx); [lia | exact Hsam].
Qed.

Lemma add_1_small (i : nat) : Z.of_nat i + 1 < 2 ^ 31 → Int32.add (Z.of_nat i) 1 = Z.of_nat (S i).
Proof. intros H. unfold Int32.add. rewrite toInt32_small; lia. Qed.

Lemma CS_shuffle_loop_run (n : nat) :
  ∀ (s : Store.state) (i : nat) (result a : list Z) (avail : Store.ref),
    Store.arrays s !! avail = Some a →
    Z.of_nat (length a) < 2 ^ 31 →
    (i + n ≤ length a)%nat → (i + n ≤ length result)%nat →
    ∃ picks a' s',
      CS.shuffle_loop n avail (Z.of_nat i) result s
      = (Return (take i result ++ picks ++ drop (i + n) result), s')
      ∧ Store.arrays s' = <[avail := a']> (Store.arrays s)
      ∧ sampled a a' i n picks.
Proof.
  induction n as [|n IH]; intros s i result a avail Hr Hint Ha Hres.
  - exists [], a, s. split_and!.
    + simpl. unfold Store.ret. by rewrite Nat.add_0_r, take_drop.
    + by rewrite list_insert_id.
    + apply sampled_nil.
  - destruct (Next_run s i (length a) ltac:(lia)) as (j & s1 & Hrun & Hs1 & Hj).
    assert (Hr1 : Store.arrays s1 !! avail = Some a) by (by rewrite Hs1).
    destruct (take_at_step s1 avail i j a Hr1 ltac:(lia)) as (x & y & Hy & Hx & Htake).
    set (s2 := Store.State (<[avail := <[j := y]> a]> (Store.arrays s1))
                 (Store.entropy s1) (Store.drawn s1)) in *.
    assert (Hr2 : Store.arrays s2 !! avail = Some (<[j := y]> a)).
    { simpl. apply list_lookup_insert_eq. by eapply lookup_lt_Some. }
    destruct (IH s2 (S i) (<[i := x]> result) (<[j := y]> a) avail Hr2)
      as (picks & a' & s' & Hloop & Hs' & Hsam).
    { by rewrite length_insert. }
    { rewrite length_insert. lia. }
    { rewrite length_insert. lia. }
    exists (x :: picks), a', s'. split_and!.
    + cbn [CS.shuffle_loop].
      rewrite (bind_Return _ _ _ _ _ (length_of_run s avail a Hr)).
      rewrite (bind_Return _ _ _ _ _ Hrun).
      rewrite (bind_Return _ _ _ _ _ Htake).
      rewrite Nat2Z.id. rewrite add_1_small by lia.
      rewrite Hloop. f_equal. f_equal.
      rewrite (take_S_r _ _ x) by (apply list_lookup_insert_eq; lia).
      rewrite take_insert_ge by lia. rewrite drop_insert_lt by lia.
      rewrite <- app_assoc. simpl.
      by replace (S (i + n)) with (i + S n)%nat by lia.
    + rewrite Hs'. simpl. rewrite list_insert_insert_eq. by rewrite Hs1.
    + apply (sampled_cons a a' i j n x y picks Hy Hx); [lia | exact Hsam].
Qed.

Lemma pick_loop_run (n : nat) :
  ∀ (s : Store.state) (i : nat) (result a : list Z) (avail : Store.ref),
    Store.arrays s !! avail = Some a →
    (i + n ≤ length a)%nat →
    ∃ picks a' s',
      Pdf.pick_loop n avail (Z.of_nat i) result s = (Return (result ++ picks), s')
      ∧ Store.arrays s' = <[avail := a']> (Store.arrays s)
      ∧ sampled a a' i n picks.
Proof.
  induction n as [|n IH]; intros s i result a avail Hr Ha.
  - exists [], a, s. split_and!.
    + simpl. unfold Store.ret. by rewrite app_nil_r.
    + by rewrite list_insert_id.
    + apply sampled_nil.
  - destruct (random_floor_run s i (length a) ltac:(lia))
      as (j & r & s1 & Hrun & Hir & Hs1 & Hj).
    assert (Hr1 : Store.arrays s1 !! avail = Some a) by (by rewrite Hs1).
    destruct (take_at_step s1 avail i j a Hr1 ltac:(lia)) as (x & y & Hy & Hx & Htake).
    set (s2 := Store.State (<[avail := <[j := y]> a]> (Store.arrays s1))
                 (Store.entropy s1) (Store.drawn s1)) in *.
    assert (Hr2 : Store.arrays s2 !! avail = Some (<[j := y]> a)).
    { simpl. apply list_lookup_insert_eq. by eapply lookup_lt_Some. }
    destruct (IH s2 (S i) (result ++ [x]) (<[j := y]> a) avail Hr2)
      as (picks & a' & s' & Hloop & Hs' & Hsam).
    { rewrite length_insert. lia. }
    exists (x :: picks), a', s'. split_and!.
    + cbn [Pdf.pick_loop].
      rewrite (bind_Return _ _ _ _ _ (length_of_run s avail a Hr)).
      rewrite (bind_Return _ _ _ _ _ Hrun). rewrite Hir.
      rewrite (bind_Return _ _ _ _ _ Htake).
      replace (Z.of_nat i + 1) with (Z.of_nat (S i)) by lia.
      rewrite Hloop. by rewrite <- app_assoc.
    + rewrite Hs'. simpl. rewrite list_insert_insert_eq. by rewrite Hs1.
    + apply (sampled_cons a a' i j n x y picks Hy Hx); [lia | exact Hsam].
Qed.

(** ** The samplers *)

Lemma lookup_snoc_new (h : list (list Z)) (a : list Z) :
  (h ++ [a]) !! length h = Some a.
Proof. by rewrite lookup_app_r, Nat.sub_diag. Qed.

Lemma insert_snoc_new (h : list (list Z)) (a a' : list Z) :
  <[length h := a']> (h ++ [a]) = h ++ [a'].
Proof.
  replace (length h) with (length h + 0)%nat at 1 by lia.
  by rewrite insert_app_r.
Qed.

Lemma generateRandomUniqueDominoes_run (s : Store.state) (L : list Z) (n : nat) :
  Store.arrays s !! TS.VALID_DOMINOES = Some L → (n ≤ length L)%nat →
  ∃ res a' s',
    TS.generateRandomUniqueDominoes (Z.of_nat n) s = (Return res, s')
    ∧ Store.arrays s' = Store.arrays s ++ [a']
    ∧ sampled L a' 0 n res.
Proof.
  intros HL Hn. unfold TS.generateRandomUniqueDominoes.
  rewrite (bind_Return _ _ _ _ _ (slice_run s _ L HL)).
  set (s1 := Store.State (Store.arrays s ++ [L]) (Store.entropy s) (Store.drawn s)).
  assert (H1 : Store.arrays s1 !! length (Store.arrays s) = Some L)
    by apply lookup_snoc_new.
  rewrite (bind_Return _ _ _ _ _ (length_of_run s1 _ L H1)).
  destruct (Z.gtb_spec (Z.of_nat n) (Z.of_nat (length L))) as [?|_]; [lia|].
  destruct (Z.ltb_spec (Z.of_nat n) 0) as [?|_]; [lia|].
  rewrite Nat2Z.id.
  destruct (TS_shuffle_loop_run n s1 0 (replicate n 0) L _ H1)
    as (picks & a' & s' & Hloop & Hs' & Hsam); [lia | by rewrite length_replicate |].
  exists picks, a', s'. split_and!; [|by rewrite Hs'; apply insert_snoc_new | done].
  change (Z.of_nat 0) with 0 in Hloop. rewrite Hloop. f_equal. f_equal.
  rewrite drop_ge by (rewrite length_replicate; lia). by rewrite app_nil_r.
Qed.

Lemma generateRandomUniqueDominoes_throw (s : Store.state) (L : list Z) (n : Z) :
  Store.arrays s !! TS.VALID_DOMINOES = Some L → Z.of_nat (length L) < n →
  TS.generateRandomUniqueDominoes n s
  = (Throw (InsufficientDominoes n (Z.of_nat (length L))),
     Store.State (Store.arrays s ++ [L]) (Store.entropy s) (Store.drawn s)).
Proof.
  intros HL Hn. unfold TS.generateRandomUniqueDominoes.
  rewrite (bind_Return _ _ _ _ _ (slice_run s _ L HL)).
  set (s1 := Store.State (Store.arrays s ++ [L]) (Store.entropy s) (Store.drawn s)).
  assert (H1 : Store.arrays s1 !! length (Store.arrays s) = Some L)
    by apply lookup_snoc_new.
  rewrite (bind_Return _ _ _ _ _ (length_of_run s1 _ L H1)).
  destruct (Z.gtb_spec n (Z.of_nat (length L))) as [_|?]; [|lia].
  reflexivity.
Qed.

Lemma GenerateRandomUniqueDominoes_run (s : Store.state) (L : list Z) (n : nat) :
  Store.arrays s !! CS.ValidDominoes = Some L → Z.of_nat (length L) < 2 ^ 31 →
  (n ≤ length L)%nat →
  ∃ res a' s',
    CS.GenerateRandomUniqueDominoes (Z.of_nat n) s = (Return res, s')
    ∧ Store.arrays s' = Store.arrays s ++ [a']
    ∧ sampled L a' 0 n res.
Proof.
  intros HL Hint Hn. unfold CS.GenerateRandomUniqueDominoes.
  rewrite (bind_Return _ _ _ _ _ (slice_run s _ L HL)).
  set (s1 := Store.State (Store.arrays s ++ [L]) (Store.entropy s) (Store.drawn s)).
  assert (H1 : Store.arrays s1 !! length (Store.arrays s) = Some L)
    by apply lookup_snoc_new.
  rewrite (bind_Return _ _ _ _ _ (length_of_run s1 _ L H1)).
  destruct (Z.gtb_spec (Z.of_nat n) (Z.of_nat (length L))) as [?|_]; [lia|].
  destruct (Z.ltb_spec (Z.of_nat n) 0) as [?|_]; [lia|].
  rewrite Nat2Z.id.
  destruct (CS_shuffle_loop_run n s1 0 (replicate n 0) L _ H1 Hint)
    as (picks & a' & s' & Hloop & Hs' & Hsam); [lia | by rewrite length_replicate |].
  exists picks, a', s'. split_and!; [|by rewrite Hs'; apply insert_snoc_new | done].
  change (Z.of_nat 0) with 0 in Hloop. rewrite Hloop. f_equal. f_equal.
  rewrite drop_ge by (rewrite length_replicate; lia). by rewrite app_nil_r.
Qed.

Lemma GenerateRandomUniqueDominoes_throw (s : Store.state) (L : list Z) (n : Z) :
  Store.arrays s !! CS.ValidDominoes = Some L → Z.of_nat (length L) < n →
  CS.GenerateRandomUniqueDominoes n s
  = (Throw (InsufficientDominoes n (Z.of_nat (length L))),
     Store.State (Store.arrays s ++ [L]) (Store.entropy s) (Store.drawn s)).
Proof.
  intros HL Hn. unfold CS.GenerateRandomUniqueDominoes.
  rewrite (bind_Return _ _ _ _ _ (slice_run s _ L HL)).
  set (s1 := Store.State (Store.arrays s ++ [L]) (Store.entropy s) (Store.drawn s)).
  assert (H1 : Store.arrays s1 !! length (Store.arrays s) = Some L)
    by apply lookup_snoc_new.
  rewrite (bind_Return _ _ _ _ _ (length_of_run s1 _ L H1)).
  destruct (Z.gtb_spec n (Z.of_nat (length L))) as [_|?]; [|lia].
  reflexivity.
Qed.

(** The rounds of [pickRandomDominoes]: each round is a sample without
    repetition of the source, and the rounds together have the length asked
    for. *)
Lemma pick_rounds_run (fuel : nat) :
  ∀ (s : Store.state) (result L : list Z) (remaining : nat) (source : Store.ref),
    Store.arrays s !! source = Some L → (1 ≤ length L)%nat →
    (remaining ≤ fuel)%nat →
    ∃ rounds s',
      Pdf.pick_rounds fuel source result (Z.of_nat remaining) s
      = (Return (result ++ concat rounds), s')
      ∧ Store.arrays s `prefix_of` Store.arrays s'
      ∧ length (concat rounds) = remaining
      ∧ Forall (λ c, ∃ a', sampled L a' 0 (length c) c) rounds
      ∧ (remaining = 0%nat → rounds = [])
      ∧ (remaining ≤ length L → length rounds ≤ 1)%nat.
Proof.
  induction fuel as [|fuel IH]; intros s result L remaining source HL Hne Hfuel.
  - assert (remaining = 0%nat) as -> by lia.
    exists [], s. simpl. unfold Store.ret. rewrite app_nil_r. split_and!; try done.
    simpl. lia.
  - destruct remaining as [|k].
    { exists [], s. simpl. unfold Store.ret. rewrite app_nil_r. split_and!; try done.
      simpl. lia. }
    cbn [Pdf.pick_rounds].
    destruct (Z.gtb_spec (Z.of_nat (S k)) 0) as [_|?]; [|lia].
    rewrite (bind_Return _ _ _ _ _ (length_of_run s source L HL)).
    rewrite (bind_Return _ _ _ _ _ (slice_run s _ L HL)).
    set (s1 := Store.State (Store.arrays s ++ [L]) (Store.entropy s) (Store.drawn s)).
    assert (H1 : Store.arrays s1 !! length (Store.arrays s) = Some L)
      by apply lookup_snoc_new.
    set (take := Nat.min (S k) (length L)).
    assert (Htake : Z.min (Z.of_nat (S k)) (Z.of_nat (length L)) = Z.of_nat take)
      by (unfold take; lia).
    rewrite Htake, Nat2Z.id.
    destruct (pick_loop_run take s1 0 result L _ H1 ltac:(lia))
      as (picks & a' & s2 & Hloop & Hs2 & Hsam).
    change (Z.of_nat 0) with 0 in Hloop.
    rewrite (bind_Return _ _ _ _ _ Hloop).
    assert (Hs2' : Store.arrays s2 = Store.arrays s ++ [a'])
      by (rewrite Hs2; apply insert_snoc_new).
    assert (HL2 : Store.arrays s2 !! source = Some L).
    { rewrite Hs2'. apply lookup_app_l_Some, HL. }
    replace (Z.of_nat (S k) - Z.of_nat take) with (Z.of_nat (S k - take)) by lia.
    destruct (IH s2 (result ++ picks) L (S k - take)%nat source HL2 Hne ltac:(lia))
      as (rounds & s' & Hrun & Hpre & Hlen & Hall & Hnil & Hone).
    exists (picks :: rounds), s'. split_and!.
    + rewrite Hrun. simpl. by rewrite <- app_assoc.
    + trans (Store.arrays s2); [|done]. rewrite Hs2'. by apply prefix_app_r.
    + simpl. rewrite length_app, Hlen. destruct Hsam as (-> & _). lia.
    + constructor; [|done]. exists a'.
      destruct Hsam as (Hl & Hl' & Hp). unfold sampled. by rewrite Hl.
    + done.
    + intros Hk. rewrite Hnil by lia. simpl. lia.
Qed.

Lemma sampled_all (L a' picks : list Z) :
  sampled L a' 0 (length L) picks → picks ≡ₚ L.
Proof.
  intros (_ & Hlen & Hperm). rewrite drop_0 in Hperm.
  rewrite drop_ge in Hperm by (simpl; lia). by rewrite app_nil_r in Hperm.
Qed.

(** The rounds of [pickRandomDominoes], counted: [remaining / length L]
    rounds that each take the whole source in some order, then one round
    of the [remaining mod length L] codes left to take. *)
Lemma pick_rounds_full (fuel : nat) :
  ∀ (s : Store.state) (result L : list Z) (remaining : nat) (source : Store.ref),
    Store.arrays s !! source = Some L → (1 ≤ length L)%nat →
    (remaining ≤ fuel)%nat →
    ∃ fulls last a' s',
      Pdf.pick_rounds fuel source result (Z.of_nat remaining) s
      = (Return (result ++ concat fulls ++ last), s')
      ∧ Forall (λ c, c ≡ₚ L) fulls
      ∧ length fulls = (remaining / length L)%nat
      ∧ sampled L a' 0 (remaining mod length L) last.
Proof.
  induction fuel as [|fuel IH]; intros s result L remaining source HL Hne Hfuel.
  - assert (remaining = 0%nat) as -> by lia.
    exists [], [], L, s. simpl. unfold Store.ret. rewrite app_nil_r. split_and!; try done.
    + symmetry. apply Nat.Div0.div_0_l.
    + rewrite Nat.Div0.mod_0_l. apply sampled_nil.
  - destruct remaining as [|k].
    { exists [], [], L, s. simpl. unfold Store.ret. rewrite app_nil_r. split_and!; try done.
      + symmetry. apply Nat.Div0.div_0_l.
      + rewrite Nat.Div0.mod_0_l. apply sampled_nil. }
    cbn [Pdf.pick_rounds].
    destruct (Z.gtb_spec (Z.of_nat (S k)) 0) as [_|?]; [|lia].
    rewrite (bind_Return _ _ _ _ _ (length_of_run s source L HL)).
    rewrite (bind_Return _ _ _ _ _ (slice_run s _ L HL)).
    set (s1 := Store.State (Store.arrays s ++ [L]) (Store.entropy s) (Store.drawn s)).
    assert (H1 : Store.arrays s1 !! length (Store.arrays s) = Some L)
      by apply lookup_snoc_new.
    set (take := Nat.min (S k) (length L)).
    assert (Htake : Z.min (Z.of_nat (S k)) (Z.of_nat (length L)) = Z.of_nat take)
      by (unfold take; lia).
    rewrite Htake, Nat2Z.id.
    destruct (pick_loop_run take s1 0 result L _ H1 ltac:(lia))
      as (picks & a' & s2 & Hloop & Hs2 & Hsam).
    change (Z.of_nat 0) with 0 in Hloop.
    rewrite (bind_Return _ _ _ _ _ Hloop).
    assert (Hs2' : Store.arrays s2 = Store.arrays s ++ [a'])
      by (rewrite Hs2; apply insert_snoc_new).
    assert (HL2 : Store.arrays s2 !! source = Some L).
    { rewrite Hs2'. apply lookup_app_l_Some, HL. }
    replace (Z.of_nat (S k) - Z.of_nat take) with (Z.of_nat (S k - take)) by lia.
    destruct (IH s2 (result ++ picks) L (S k - take)%nat source HL2 Hne ltac:(lia))
      as (fulls & last & a'' & s' & Hrun & Hall & Hlen & Hlast).
    destruct (Nat.lt_ge_cases (S k) (length L)) as [Hlt|Hge].
    + (* the last round *)
      assert (take = S k) as Htk by (unfold take; lia).
      rewrite Htk, Nat.sub_diag in *.
      rewrite Nat.Div0.div_0_l in Hlen. destruct fulls; [|done].
      rewrite Nat.Div0.mod_0_l in Hlast.
      destruct Hlast as (Hl0 & _ & _). destruct last; [|done].
      exists [], picks, a', s'. split_and!.
      * rewrite Hrun. simpl. by rewrite !app_nil_r.
      * done.
      * by rewrite Nat.div_small.
      * by rewrite Nat.mod_small.
    + (* a full round *)
      assert (take = length L) as Htk by (unfold take; lia).
      rewrite Htk in *.
      exists (picks :: fulls), last, a'', s'. split_and!.
      * rewrite Hrun. simpl. by rewrite <- !app_assoc.
      * constructor; [by eapply sampled_all | done].
      * simpl. rewrite Hlen.
        replace (S k) with ((S k - length L) + 1 * length L)%nat at 2 by lia.
        rewrite Nat.div_add by lia. lia.
      * assert (Hm : (S k mod length L = (S k - length L) mod length L)%nat).
        { replace (S k) with ((S k - length L) + 1 * length L)%nat at 1 by lia.
          apply Nat.Div0.mod_add. }
        rewrite Hm. exact Hlast.
Qed.

Lemma pickRandomDominoes_run (s : Store.state) (L : list Z) (n fuel : nat)
    (source : Store.ref) :
  Store.arrays s !! source = Some L → (1 ≤ length L)%nat → (n ≤ fuel)%nat →
  ∃ rounds s',
    Pdf.pickRandomDominoes fuel source (Z.of_nat n) s = (Return (concat rounds), s')
    ∧ Store.arrays s `prefix_of` Store.arrays s'
    ∧ length (concat rounds) = n
    ∧ Forall (λ c, ∃ a', sampled L a' 0 (length c) c) rounds
    ∧ (n ≤ length L → length rounds ≤ 1)%nat.
Proof.
  intros HL Hne Hfuel. unfold Pdf.pickRandomDominoes.
  rewrite (bind_Return _ _ _ _ _ (length_of_run s source L HL)).
  destruct (Z.eqb_spec (Z.of_nat (length L)) 0) as [?|_]; [lia|].
  destruct (Z.leb_spec (Z.of_nat n) 0) as [Hn|Hn].
  - exists [], s. unfold Store.ret. simpl. split_and!; try done; lia.
  - destruct (pick_rounds_run fuel s [] L n source HL Hne Hfuel)
      as (rounds & s' & Hrun & Hpre & Hlen & Hall & _ & Hone).
    exists rounds, s'. by rewrite Hrun.
Qed.

Lemma pickRandomDominoes_nonpositive (s : Store.state) (L : list Z) (n : Z) (fuel : nat)
    (source : Store.ref) :
  Store.arrays s !! source = Some L → (1 ≤ length L)%nat → n <= 0 →
  Pdf.pickRandomDominoes fuel source n s = (Return [], s).
Proof.
  intros HL Hne Hn. unfold Pdf.pickRandomDominoes.
  rewrite (bind_Return _ _ _ _ _ (length_of_run s source L HL)).
  destruct (Z.eqb_spec (Z.of_nat (length L)) 0) as [?|_]; [lia|].
  destruct (Z.leb_spec n 0) as [_|?]; [done|lia].
Qed.

Lemma rounds_single (L : list Z) (rounds : list (list Z)) :
  NoDup L →
  Forall (λ c, ∃ a', sampled L a' 0 (length c) c) rounds →
  (length rounds ≤ 1)%nat →
  NoDup (concat rounds) ∧ concat rounds ⊆ L.
Proof.
  intros Hnd Hall Hone. destruct rounds as [|c [|? ?]]; simpl in *; [| |lia].
  - split; [constructor|]. intros x Hx. by apply elem_of_nil in Hx.
  - rewrite app_nil_r. apply Forall_cons in Hall as [[a' Hsam] _].
    by eapply sampled_NoDup.
Qed.

Lemma rounds_subseteq (L : list Z) (rounds : list (list Z)) :
  Forall (λ c, ∃ a', sampled L a' 0 (length c) c) rounds →
  Forall (λ c, c ⊆ L ∧ (NoDup L → NoDup c)) rounds.
Proof.
  intros Hall. eapply Forall_impl; [exact Hall|].
  intros c [a' Hsam]. split.
  - by eapply sampled_subseteq.
  - intros Hnd. by eapply sampled_NoDup.
Qed.

Lemma buildValidDominoesList_length :
  length TS.buildValidDominoesList = 904%nat ∧
  length CS.BuildValidDominoesList = 904%nat.
Proof. destruct enumerated_eval as [-> ->]. split; exact enumerated_length. Qed.

(** ** The valid-code array is never written *)

Lemma generateRandomUniqueDominoes_frame (s : Store.state) (L : list Z) (count : Z) :
  Store.arrays s !! TS.VALID_DOMINOES = Some L →
  ∃ a', Store.arrays (TS.generateRandomUniqueDominoes count s).2 = Store.arrays s ++ [a'].
Proof.
  intros HL.
  destruct (Z.lt_ge_cases (Z.of_nat (length L)) count) as [Hgt|Hle].
  { rewrite (generateRandomUniqueDominoes_throw s L count HL Hgt). by exists L. }
  destruct (Z.lt_ge_cases count 0) as [Hneg|Hpos].
  - exists L. unfold TS.generateRandomUniqueDominoes.
    rewrite (bind_Return _ _ _ _ _ (slice_run s _ L HL)).
    set (s1 := Store.State (Store.arrays s ++ [L]) (Store.entropy s) (Store.drawn s)).
    assert (H1 : Store.arrays s1 !! length (Store.arrays s) = Some L)
      by apply lookup_snoc_new.
    rewrite (bind_Return _ _ _ _ _ (length_of_run s1 _ L H1)).
    destruct (Z.gtb_spec count (Z.of_nat (length L))) as [?|_]; [lia|].
    destruct (Z.ltb_spec count 0) as [_|?]; [done|lia].
  - destruct (generateRandomUniqueDominoes_run s L (Z.to_nat count) HL ltac:(lia))
      as (res & a' & s' & Hrun & Hs' & _).
    rewrite Z2Nat.id in Hrun by lia. rewrite Hrun. by exists a'.
Qed.

Lemma perform_preserves (c : call) (s : Store.state) (L : list Z) :
  (1 ≤ length L)%nat →
  Store.arrays s !! TS.VALID_DOMINOES = Some L →
  Store.arrays (perform c s) !! TS.VALID_DOMINOES = Some L.
Proof.
  intros Hne HL. destruct c as [|count|count]; simpl.
  - exact HL.
  - destruct (generateRandomUniqueDominoes_frame s L count HL) as [a' ->].
    by apply lookup_app_l_Some.
  - unfold TS.getValidDominoes.
    rewrite (bind_Return _ _ s s TS.VALID_DOMINOES) by reflexivity.
    destruct (Z.le_gt_cases count 0) as [Hle|Hgt].
    + by rewrite (pickRandomDominoes_nonpositive s L count _ _ HL Hne Hle).
    + destruct (pickRandomDominoes_run s L (Z.to_nat count) (Z.to_nat count) _ HL Hne
                  ltac:(lia)) as (rounds & s' & Hrun & Hpre & _).
      rewrite Z2Nat.id in Hrun by lia. rewrite Hrun. simpl.
      by eapply prefix_lookup_Some.
Qed.

Lemma session_preserves (calls : list call) :
  ∀ (s : Store.state) (L : list Z),
    (1 ≤ length L)%nat →
    Store.arrays s !! TS.VALID_DOMINOES = Some L →
    Store.arrays (session calls s) !! TS.VALID_DOMINOES = Some L.
Proof.
  induction calls as [|c calls IH]; intros s L Hne HL; simpl; [done|].
  apply IH; [done|]. by apply perform_preserves.
Qed.

Lemma loaded_valid (rng : nat → Z) :
  Store.arrays (TS.loaded rng) !! TS.VALID_DOMINOES = Some TS.buildValidDominoesList
  ∧ Store.arrays (CS.loaded rng) !! CS.ValidDominoes = Some CS.BuildValidDominoesList.
Proof.
  unfold TS.loaded, CS.loaded, TS.VALID_DOMINOES, CS.ValidDominoes.
  generalize TS.buildValidDominoesList, CS.BuildValidDominoesList.
  intros L L'. split; reflexivity.
Qed.

(** C7: the valid-code list has no duplicate values, and whatever calls the
    module has served, with whatever random draws, [getValidDominoes]
    returns the reference of an array that holds the list as first
    computed. *)
Theorem valid_set_stable (rng : nat → Z) (calls : list call) :
  NoDup TS.buildValidDominoesList ∧
  ∃ r, TS.getValidDominoes (session calls (TS.loaded rng))
       = (Return r, session calls (TS.loaded rng))
     ∧ Store.arrays (session calls (TS.loaded rng)) !! r = Some TS.buildValidDominoesList.
Proof.
  split; [exact (proj1 buildValidDominoesList_NoDup)|].
  exists TS.VALID_DOMINOES. split.
  - generalize (session calls (TS.loaded rng)). intros s. reflexivity.
  - apply (session_preserves calls (TS.loaded rng) TS.buildValidDominoesList).
    + destruct buildValidDominoesList_length as [-> _]. lia.
    + exact (proj1 (loaded_valid rng)).
Qed.

(** The result of [pickRandomDominoes], round by round: for a source
    without duplicates, [n / length L] rounds that are each the whole source
    in some order, then a last round of [n mod length L] distinct codes of
    the source. *)
Lemma pickRandomDominoes_rounds (s : Store.state) (L : list Z) (n fuel : nat)
    (source : Store.ref) :
  Store.arrays s !! source = Some L → NoDup L → (1 ≤ length L)%nat →
  (1 ≤ n)%nat → (n ≤ fuel)%nat →
  ∃ rounds last s',
    Pdf.pickRandomDominoes fuel source (Z.of_nat n) s
    = (Return (concat rounds ++ last), s')
    ∧ length (concat rounds ++ last) = n
    ∧ length rounds = (n / length L)%nat
    ∧ Forall (λ round, round ≡ₚ L ∧ NoDup round) rounds
    ∧ length last = (n mod length L)%nat
    ∧ NoDup last ∧ last ⊆ L.
Proof.
  intros HL Hnd Hne Hn Hfuel. unfold Pdf.pickRandomDominoes.
  rewrite (bind_Return _ _ _ _ _ (length_of_run s source L HL)).
  destruct (Z.eqb_spec (Z.of_nat (length L)) 0) as [?|_]; [lia|].
  destruct (Z.leb_spec (Z.of_nat n) 0) as [?|_]; [lia|].
  destruct (pick_rounds_full fuel s [] L n source HL Hne Hfuel)
    as (fulls & last & a' & s' & Hrun & Hall & Hlen & Hlast).
  simpl in Hrun. exists fulls, last, s'.
  destruct (sampled_NoDup _ _ _ _ Hlast Hnd) as [Hndl Hsub].
  assert (Hcat : length (concat fulls) = (length fulls * length L)%nat).
  { clear -Hall. induction Hall as [|c fulls Hc _ IH]; [done|].
    simpl. rewrite length_app, IH. by rewrite Hc. }
  split_and!; [exact Hrun | | exact Hlen | | | done | done].
  - rewrite length_app, Hcat, Hlen. destruct Hlast as (-> & _ & _).
    pose proof (Nat.div_mod_eq n (length L)). lia.
  - eapply Forall_impl; [exact Hall|]. intros round Hp. split; [done|].
    by rewrite Hp.
  - by destruct Hlast as (-> & _ & _).
Qed.

Lemma samplers_unique_gen (L L' : list Z) (s c : Store.state) (n : Z) (fuel : nat) :
  NoDup L → NoDup L' → (1 ≤ length L)%nat → Z.of_nat (length L') < 2 ^ 31 → length L' = length L →
  0 <= n →
  Store.arrays s !! TS.VALID_DOMINOES = Some L →
  Store.arrays c !! CS.ValidDominoes = Some L' →
  (Z.to_nat n ≤ fuel)%nat →
  if n <=? Z.of_nat (length L) then
    (∃ res s', TS.generateRandomUniqueDominoes n s = (Return res, s')
               ∧ unique_sample L res n)
    ∧ (∃ res c', CS.GenerateRandomUniqueDominoes n c = (Return res, c')
                 ∧ unique_sample L' res n)
    ∧ (∃ res s', Pdf.pickRandomDominoes fuel TS.VALID_DOMINOES n s = (Return res, s')
                 ∧ unique_sample L res n)
  else
    (∃ s', TS.generateRandomUniqueDominoes n s
           = (Throw (InsufficientDominoes n (Z.of_nat (length L))), s'))
    ∧ (∃ c', CS.GenerateRandomUniqueDominoes n c
             = (Throw (InsufficientDominoes n (Z.of_nat (length L'))), c'))
    ∧ (∃ rounds last s',
         Pdf.pickRandomDominoes fuel TS.VALID_DOMINOES n s
         = (Return (concat rounds ++ last), s')
         ∧ Z.of_nat (length (concat rounds ++ last)) = n
         ∧ Z.of_nat (length rounds) = n / Z.of_nat (length L)
         ∧ Forall (λ round, round ≡ₚ L ∧ NoDup round) rounds
         ∧ Z.of_nat (length last) = n mod Z.of_nat (length L)
         ∧ NoDup last ∧ last ⊆ L).
Proof.
  intros HndT HndC HlenT HlenC Heq Hn Hs Hc Hfuel.
  destruct (pickRandomDominoes_run s L (Z.to_nat n) fuel _ Hs HlenT Hfuel)
    as (rounds & sp & Hpick & _ & Hplen & Hrounds & Hone).
  rewrite Z2Nat.id in Hpick by lia.
  destruct (Z.leb_spec n (Z.of_nat (length L))) as [Hle|Hgt].
  - split; [|split].
    + destruct (generateRandomUniqueDominoes_run s L (Z.to_nat n) Hs ltac:(lia))
        as (res & a' & s' & Hrun & _ & Hsam).
      rewrite Z2Nat.id in Hrun by lia. exists res, s'. split; [exact Hrun|].
      destruct (sampled_NoDup _ _ _ _ Hsam HndT) as [? ?].
      destruct Hsam as (Hl & _). split_and!; [lia|done..].
    + destruct (Z.le_gt_cases n (Z.of_nat (length L'))) as [HleC|HgtC].
      * destruct (GenerateRandomUniqueDominoes_run c L' (Z.to_nat n) Hc HlenC ltac:(lia))
          as (res & a' & c' & Hrun & _ & Hsam).
        rewrite Z2Nat.id in Hrun by lia. exists res, c'. split; [exact Hrun|].
        destruct (sampled_NoDup _ _ _ _ Hsam HndC) as [? ?].
        destruct Hsam as (Hl & _). split_and!; [lia|done..].
      * lia.
    + exists (concat rounds), sp. split; [exact Hpick|].
      destruct (rounds_single _ rounds HndT Hrounds ltac:(lia)) as [? ?].
      split_and!; [lia|done..].
  - split; [|split].
    + eexists. apply generateRandomUniqueDominoes_throw; [exact Hs|lia].
    + eexists. apply GenerateRandomUniqueDominoes_throw; [exact Hc|lia].
    + destruct (pickRandomDominoes_rounds s L (Z.to_nat n) fuel _ Hs HndT HlenT
                  ltac:(lia) Hfuel)
        as (fulls & last & s' & Hrun & Hlen & Hfulls & Hall & Hlast & Hndl & Hsub).
      rewrite Z2Nat.id in Hrun by lia.
      exists fulls, last, s'. split_and!; [exact Hrun | lia | | exact Hall | | done | done].
      * rewrite Hfulls, Nat2Z.inj_div, Z2Nat.id by lia. reflexivity.
      * rewrite Hlast, Nat2Z.inj_mod, Z2Nat.id by lia. reflexivity.
Qed.

(** C2, as the code has it: for a count [n] from 0 to the size of the
    valid-code set, [generateRandomUniqueDominoes], the C#
    [GenerateRandomUniqueDominoes] and [pickRandomDominoes] each return
    exactly [n] pairwise distinct members of the set.  For a larger [n] the
    first two throw the insufficient-capacity error, while
    [pickRandomDominoes] returns [n] members of the set: what it returns is
    [n / size] rounds one after the other, each the whole set in some order
    and so free of repetitions, and then a last round of [n mod size]
    pairwise distinct members. *)
Theorem samplers_unique (s c : Store.state) (n : Z) (fuel : nat) :
  0 <= n →
  Store.arrays s !! TS.VALID_DOMINOES = Some TS.buildValidDominoesList →
  Store.arrays c !! CS.ValidDominoes = Some CS.BuildValidDominoesList →
  (Z.to_nat n ≤ fuel)%nat →
  if n <=? Z.of_nat (length TS.buildValidDominoesList) then
    (∃ res s', TS.generateRandomUniqueDominoes n s = (Return res, s')
               ∧ unique_sample TS.buildValidDominoesList res n)
    ∧ (∃ res c', CS.GenerateRandomUniqueDominoes n c = (Return res, c')
                 ∧ unique_sample CS.BuildValidDominoesList res n)
    ∧ (∃ res s', Pdf.pickRandomDominoes fuel TS.VALID_DOMINOES n s = (Return res, s')
                 ∧ unique_sample TS.buildValidDominoesList res n)
  else
    (∃ s', TS.generateRandomUniqueDominoes n s
           = (Throw (InsufficientDominoes n (Z.of_nat (length TS.buildValidDominoesList))), s'))
    ∧ (∃ c', CS.GenerateRandomUniqueDominoes n c
             = (Throw (InsufficientDominoes n (Z.of_nat (length CS.BuildValidDominoesList))), c'))
    ∧ (∃ rounds last s',
         Pdf.pickRandomDominoes fuel TS.VALID_DOMINOES n s
         = (Return (concat rounds ++ last), s')
         ∧ Z.of_nat (length (concat rounds ++ last)) = n
         ∧ Z.of_nat (length rounds) = n / Z.of_nat (length TS.buildValidDominoesList)
         ∧ Forall (λ round, round ≡ₚ TS.buildValidDominoesList ∧ NoDup round) rounds
         ∧ Z.of_nat (length last) = n mod Z.of_nat (length TS.buildValidDominoesList)
         ∧ NoDup last ∧ last ⊆ TS.buildValidDominoesList).
Proof.
  destruct buildValidDominoesList_NoDup as [HndT HndC].
  destruct buildValidDominoesList_length as [HlenT HlenC].
  apply (samplers_unique_gen TS.buildValidDominoesList CS.BuildValidDominoesList
           s c n fuel HndT HndC).
  - rewrite HlenT. lia.
  - rewrite HlenC. lia.
  - rewrite HlenT, HlenC. reflexivity.
Qed.

Lemma samplers_unique_witness :
  (0 <= 3
   ∧ Store.arrays (TS.loaded (λ _, 0)) !! TS.VALID_DOMINOES = Some TS.buildValidDominoesList
   ∧ Store.arrays (CS.loaded (λ _, 0)) !! CS.ValidDominoes = Some CS.BuildValidDominoesList
   ∧ (Z.to_nat 3 ≤ 3)%nat)
  ∧ ∃ res s', TS.generateRandomUniqueDominoes 3 (TS.loaded (λ _, 0)) = (Return res, s')
              ∧ unique_sample TS.buildValidDominoesList res 3.
Proof.
  assert (H0 : 0 <= 3) by lia.
  assert (H1 : Store.arrays (TS.loaded (λ _, 0)) !! TS.VALID_DOMINOES
               = Some TS.buildValidDominoesList) by exact (proj1 (loaded_valid _)).
  assert (H2 : Store.arrays (CS.loaded (λ _, 0)) !! CS.ValidDominoes
               = Some CS.BuildValidDominoesList) by exact (proj2 (loaded_valid _)).
  assert (H3 : (Z.to_nat 3 ≤ 3)%nat) by (simpl; lia).
  split; [by repeat split|].
  pose proof (samplers_unique (TS.loaded (λ _, 0)) (CS.loaded (λ _, 0)) 3 3 H0 H1 H2 H3) as H.
  destruct (Z.leb_spec 3 (Z.of_nat (length TS.buildValidDominoesList))) as [_|Hgt].
  - exact (proj1 H).
  - exfalso. destruct buildValidDominoesList_length as [Hl _]. rewrite Hl in Hgt. lia.
Defined.

(** With 905 codes asked of the 904, [pickRandomDominoes] does not throw:
    it returns 905 codes, and the code drawn first comes back as the 905th
    when every raw draw is 0. *)
Lemma pickRandomDominoes_repeats :
  match (Pdf.pickRandomDominoes 2 TS.VALID_DOMINOES 905 (TS.loaded (λ _, 0))).1 with
  | Return res =>
      length res = 905%nat ∧ res !! 0%nat = Some 33279 ∧ res !! 904%nat = Some 33279
  | _ => False
  end.
Proof.
  unfold TS.loaded. rewrite (proj1 enumerated_eval). vm_compute. repeat split.
Qed.

(** * Properties of the layout *)

Lemma toInches_doubled (m : Measurement) :
  (toInches {| value := 2 * value m; unit := unit m |} == 2 * toInches m)%Q.
Proof.
  unfold toInches. simpl. destruct (unit m); [reflexivity|].
  unfold MILLIMETERS_PER_INCH. field.
Qed.

Lemma is_zero_false (q : Q) : (0 < q)%Q → Num.is_zero q = false.
Proof.
  intros Hq. unfold Num.is_zero. destruct (Qeq_bool q 0) eqn:E; [|done].
  apply Qeq_bool_eq in E. rewrite E in Hq. by apply Qlt_irrefl in Hq.
Qed.

Lemma dominoesPerRow_of_positive (stripSpacing : Measurement) (pageSetup : PageSetup) :
  (0 < Domino.DominoWidth + toInches stripSpacing)%Q →
  TS.dominoesPerRow_of stripSpacing pageSetup
  = Num.of_Z (Qfloor ((toInches (width pageSetup)
                        + - (inject_Z 2 * TS.marginInches pageSetup))
                       / (Domino.DominoWidth + toInches stripSpacing))).
Proof.
  intros Hd. unfold TS.dominoesPerRow_of, TS.printableWidth.
  unfold Num.sub, Num.mul, Num.of_Z, Num.neg, Num.add, Num.div.
  rewrite (is_zero_false _ Hd). reflexivity.
Qed.

(** C5: on US Letter (8.5 by 11) with margin 0.25 and spacing 0.125 the tile
    is 0.5 wide and 1.7 high, and the layout is 12 tiles per row, 5 per
    column and 60 per page. *)
Theorem letter_layout :
  (Domino.DominoWidth == 1 # 2)%Q ∧ (Domino.DominoHeight == 17 # 10)%Q ∧
  TS.dominoesPerRow_of (inches (125 # 1000)) (letterPortrait (Some (inches (25 # 100))))
  = Num.of_Z 12 ∧
  TS.dominoesPerColumn_of (letterPortrait (Some (inches (25 # 100)))) = Num.of_Z 5 ∧
  TS.calculatePageLayout (inches (125 # 1000)) (letterPortrait (Some (inches (25 # 100))))
  = Return {| TS.dominoesPerRow := Num.of_Z 12; TS.dominoesPerPage := Num.of_Z 60 |}.
Proof. repeat split; vm_compute; reflexivity. Qed.

(** On a medium too narrow for one tile the layout is returned all the
    same, with 0 tiles per row and 0 per page, in both implementations. *)
Lemma calculatePageLayout_zero_returned :
  TS.dominoesPerRow_of (inches (1 # 8)) narrow_page = Num.of_Z 0 ∧
  TS.calculatePageLayout (inches (1 # 8)) narrow_page
  = Return {| TS.dominoesPerRow := Num.of_Z 0; TS.dominoesPerPage := Num.of_Z 0 |} ∧
  CS.CalculatePageLayout (inches (1 # 8)) narrow_page = Some (0, 0).
Proof. repeat split; vm_compute; reflexivity. Qed.

(** C3, as the code has it: when the tiles per row or the tiles per column
    come to 0, [calculatePageLayout] reports nothing: it returns the layout,
    whose tiles per page are then zero, or NaN when the other count is not
    finite. *)
Theorem calculatePageLayout_returns (stripSpacing : Measurement) (pageSetup : PageSetup) :
  TS.dominoesPerRow_of stripSpacing pageSetup = Num.of_Z 0
  ∨ TS.dominoesPerColumn_of pageSetup = Num.of_Z 0 →
  ∃ l, TS.calculatePageLayout stripSpacing pageSetup = Return l
       ∧ TS.dominoesPerRow l = TS.dominoesPerRow_of stripSpacing pageSetup
       ∧ (Num.eqb (TS.dominoesPerPage l) (Num.of_Z 0) = true
          ∨ TS.dominoesPerPage l = Num.NaN).
Proof.
  intros Hzero. eexists. split; [reflexivity|]. split; [reflexivity|]. simpl.
  destruct Hzero as [-> | ->].
  - destruct (TS.dominoesPerColumn_of pageSetup) as [|n|q]; simpl.
    + by right.
    + by right.
    + left. apply Qeq_bool_iff. unfold inject_Z. ring.
  - destruct (TS.dominoesPerRow_of stripSpacing pageSetup) as [|n|q]; simpl.
    + by right.
    + by right.
    + left. apply Qeq_bool_iff. unfold inject_Z. ring.
Qed.

Lemma calculatePageLayout_returns_witness :
  (TS.dominoesPerRow_of (inches (1 # 8)) narrow_page = Num.of_Z 0
   ∨ TS.dominoesPerColumn_of narrow_page = Num.of_Z 0)
  ∧ ∃ l, TS.calculatePageLayout (inches (1 # 8)) narrow_page = Return l
         ∧ TS.dominoesPerRow l = TS.dominoesPerRow_of (inches (1 # 8)) narrow_page
         ∧ (Num.eqb (TS.dominoesPerPage l) (Num.of_Z 0) = true
            ∨ TS.dominoesPerPage l = Num.NaN).
Proof.
  assert (H : TS.dominoesPerRow_of (inches (1 # 8)) narrow_page = Num.of_Z 0
              ∨ TS.dominoesPerColumn_of narrow_page = Num.of_Z 0).
  { left. vm_compute. reflexivity. }
  split; [exact H | exact (calculatePageLayout_returns _ _ H)].
Defined.

(** With centring on, width 8.5, 12 tiles per row and spacing 0.125, the
    offset is 0.5625, and offset + 12 x (0.5 + 0.125) + 0.125 is 8.1875,
    not 8.5. *)
Lemma calculateXMargin_not_trailing :
  ∃ off, TS.calculateXMargin (Num.Fin (85 # 10)) (Num.of_Z 12) true (Num.Fin (125 # 1000))
         = Num.Fin off
       ∧ (off == 5625 # 10000)%Q
       ∧ ¬ (off + 12 * (Domino.DominoWidth + (125 # 1000)) + (125 # 1000) == 85 # 10)%Q.
Proof.
  eexists. split; [reflexivity|]. split.
  - vm_compute. reflexivity.
  - intros H. vm_compute in H. discriminate H.
Qed.

(** C6, as the code has it: with centring on, the offset is the gap on
    either side of the row: twice the offset, the tiles of the row and the
    spacings between them make up the medium width. *)
Theorem calculateXMargin_centred (pageWidth stripSpacing : Q) (dominoesPerRow : Z) :
  ∃ off, TS.calculateXMargin (Num.Fin pageWidth) (Num.of_Z dominoesPerRow) true
           (Num.Fin stripSpacing) = Num.Fin off
       ∧ (off + (inject_Z dominoesPerRow * Domino.DominoWidth
                 + (inject_Z dominoesPerRow - 1) * stripSpacing) + off == pageWidth)%Q.
Proof.
  eexists. split.
  - unfold TS.calculateXMargin, Num.sub, Num.add, Num.mul, Num.neg, Num.div, Num.of_Z.
    simpl negb. cbv iota.
    replace (Num.is_zero (inject_Z 2)) with false by reflexivity.
    reflexivity.
  - unfold Domino.DominoWidth, Domino.PIP_DIAMETER, Domino.COLUMNS_PER_DOMINO,
      Domino.PIP_MARGIN.
    field.
Qed.

(** With a spacing of -1 the pitch is -0.5: one inch gives -2 tiles per row
    and two inches give -4. *)
Lemma dominoesPerRow_of_decreases :
  (0 <= toInches (width one_inch_page))%Q ∧
  TS.dominoesPerRow_of (inches (-1)) one_inch_page = Num.of_Z (-2) ∧
  TS.dominoesPerRow_of (inches (-1)) (doubled one_inch_page) = Num.of_Z (-4) ∧
  Num.ge (TS.dominoesPerRow_of (inches (-1)) (doubled one_inch_page))
         (TS.dominoesPerRow_of (inches (-1)) one_inch_page) = false.
Proof. split; [vm_compute; discriminate|]. repeat split; vm_compute; reflexivity. Qed.

(** C8, as the code has it: when the pitch, tile width plus spacing, is
    positive, doubling a width that is not negative never lowers the tiles
    per row. *)
Theorem dominoesPerRow_of_doubled (stripSpacing : Measurement) (pageSetup : PageSetup) :
  (0 <= toInches (width pageSetup))%Q →
  (0 < Domino.DominoWidth + toInches stripSpacing)%Q →
  Num.ge (TS.dominoesPerRow_of stripSpacing (doubled pageSetup))
         (TS.dominoesPerRow_of stripSpacing pageSetup) = true.
Proof.
  intros Hw Hd.
  rewrite !dominoesPerRow_of_positive by done.
  unfold Num.ge, Num.of_Z. apply Qle_bool_iff.
  rewrite <- Zle_Qle. apply Qfloor_resp_le.
  apply Qmult_le_compat_r; [|apply Qlt_le_weak, Qinv_lt_0_compat, Hd].
  change (TS.marginInches (doubled pageSetup)) with (TS.marginInches pageSetup).
  change (width (doubled pageSetup))
    with {| value := 2 * value (width pageSetup); unit := unit (width pageSetup) |}.
  rewrite toInches_doubled. unfold inject_Z. lra.
Qed.

Lemma dominoesPerRow_of_doubled_witness :
  ((0 <= toInches (width one_inch_page))%Q
   ∧ (0 < Domino.DominoWidth + toInches (inches (1 # 8)))%Q)
  ∧ Num.ge (TS.dominoesPerRow_of (inches (1 # 8)) (doubled one_inch_page))
           (TS.dominoesPerRow_of (inches (1 # 8)) one_inch_page) = true.
Proof.
  assert (H1 : (0 <= toInches (width one_inch_page))%Q) by (vm_compute; discriminate).
  assert (H2 : (0 < Domino.DominoWidth + toInches (inches (1 # 8)))%Q)
    by (vm_compute; reflexivity).
  split; [by split | exact (dominoesPerRow_of_doubled _ _ H1 H2)].
Defined.

(** * Properties of the pagination *)

Lemma int32_add_small (a b : Z) :
  - 2 ^ 31 <= a + b < 2 ^ 31 → Int32.add a b = a + b.
Proof. intros H. unfold Int32.add. by apply toInt32_small. Qed.

Lemma int32_sub_small (a b : Z) :
  - 2 ^ 31 <= a - b < 2 ^ 31 → Int32.sub a b = a - b.
Proof. intros H. unfold Int32.sub. by apply toInt32_small. Qed.

Lemma CS_page_tiles_run (n : nat) :
  ∀ (dominoValues : list Z) (dominoesPerRow : Z) (currentIndex i : nat),
    1 <= dominoesPerRow →
    (currentIndex + i + n ≤ length dominoValues)%nat →
    Z.of_nat (length dominoValues) < 2 ^ 31 →
    ∃ tiles,
      CS.page_tiles n dominoValues dominoesPerRow (Z.of_nat currentIndex) (Z.of_nat i)
      = Return tiles
      ∧ CS.Value <$> tiles = take n (drop (currentIndex + i) dominoValues)
      ∧ ∀ (k : nat) (t : CS.tile), tiles !! k = Some t →
          CS.ix t = Z.of_nat (i + k) mod dominoesPerRow
          ∧ CS.iy t = Z.of_nat (i + k) / dominoesPerRow.
Proof.
  induction n as [|n IH]; intros values perRow cur i Hrow Hlen Hint.
  - exists []. split_and!; [done..|]. intros k t Hk. by rewrite lookup_nil in Hk.
  - destruct (lookup_lt_is_Some_2 values (cur + i) ltac:(lia)) as [x Hx].
    destruct (IH values perRow cur (S i) Hrow ltac:(lia) Hint) as (rest & Hrun & Hval & Hpl).
    exists ({| CS.Value := x; CS.ix := Z.rem (Z.of_nat i) perRow;
               CS.iy := Z.quot (Z.of_nat i) perRow |} :: rest).
    split_and!.
    + cbn [CS.page_tiles].
      rewrite int32_add_small by lia.
      replace (Z.of_nat cur + Z.of_nat i) with (Z.of_nat (cur + i)) by lia.
      rewrite lookupZ_of_nat, Hx.
      destruct (Z.eqb_spec perRow 0) as [?|_]; [lia|].
      rewrite int32_add_small by lia.
      replace (Z.of_nat i + 1) with (Z.of_nat (S i)) by lia.
      by rewrite Hrun.
    + rewrite fmap_cons, Hval. cbn [CS.Value].
      rewrite (drop_S values x (cur + i) Hx). cbn [take].
      by replace (cur + S i)%nat with (S (cur + i)) by lia.
    + intros [|k] t Hk.
      * simplify_eq/=. rewrite Nat.add_0_r.
        rewrite Z.rem_mod_nonneg, Z.quot_div_nonneg by lia. done.
      * replace (i + S k)%nat with (S i + k)%nat by lia. by apply Hpl.
Qed.

Lemma ceil_div_step (r perPage : Z) :
  1 <= perPage → 1 <= r →
  1 + ceil_div (r - Z.min r perPage) perPage = ceil_div r perPage.
Proof.
  intros Hp Hr. unfold ceil_div.
  destruct (Z.le_gt_cases r perPage) as [Hle|Hgt].
  - rewrite Z.min_l by lia. replace (r - r + perPage - 1) with (perPage - 1) by lia.
    rewrite Z.div_small by lia.
    replace (r + perPage - 1) with (1 * perPage + (r - 1)) by lia.
    rewrite Z.div_add_l by lia. rewrite Z.div_small by lia. lia.
  - rewrite Z.min_r by lia.
    replace (r + perPage - 1) with (1 * perPage + (r - perPage + perPage - 1)) by lia.
    rewrite Z.div_add_l by lia. lia.
Qed.

Lemma CS_pages_loop_run (fuel : nat) :
  ∀ (dominoValues : list Z) (dominoesPerRow dominoesPerPage : Z)
    (remainingDominoes currentIndex : nat),
    1 <= dominoesPerRow → 1 <= dominoesPerPage →
    (currentIndex + remainingDominoes = length dominoValues)%nat →
    Z.of_nat (length dominoValues) < 2 ^ 31 →
    (remainingDominoes ≤ fuel)%nat →
    ∃ pages,
      CS.pages_loop fuel dominoValues dominoesPerRow dominoesPerPage
        (Z.of_nat remainingDominoes) (Z.of_nat currentIndex) = Return pages
      ∧ concat ((λ page : list CS.tile, CS.Value <$> page) <$> pages) = drop currentIndex dominoValues
      ∧ Z.of_nat (length pages) = ceil_div (Z.of_nat remainingDominoes) dominoesPerPage
      ∧ Forall (CS_placed dominoesPerRow) pages.
Proof.
  induction fuel as [|fuel IH]; intros values perRow perPage r cur Hrow Hpage Hlen Hint Hfuel.
  - assert (r = 0%nat) as -> by lia. exists []. split_and!.
    + reflexivity.
    + simpl. rewrite drop_ge by lia. done.
    + unfold ceil_div. simpl. rewrite Z.div_small by lia. done.
    + constructor.
  - destruct r as [|r'].
    { exists []. split_and!.
      + reflexivity.
      + simpl. rewrite drop_ge by lia. done.
      + unfold ceil_div. simpl. rewrite Z.div_small by lia. done.
      + constructor. }
    set (r := S r') in *.
    set (t := Z.to_nat (Z.min (Z.of_nat r) perPage)).
    assert (Ht : Z.min (Z.of_nat r) perPage = Z.of_nat t) by (unfold t, r; lia).
    assert (Ht1 : (1 ≤ t ≤ r)%nat) by (unfold t, r; lia).
    destruct (CS_page_tiles_run t values perRow cur 0 Hrow ltac:(lia) Hint)
      as (page & Hpagerun & Hpageval & Hpagepl).
    destruct (IH values perRow perPage (r - t)%nat (cur + t)%nat Hrow Hpage
                ltac:(lia) Hint ltac:(lia)) as (rest & Hrest & Hconcat & Hcount & Hall).
    exists (page :: rest). split_and!.
    + cbn [CS.pages_loop].
      destruct (Z.gtb_spec (Z.of_nat r) 0) as [_|?]; [|lia].
      rewrite Ht, Nat2Z.id. change 0 with (Z.of_nat 0) at 1. rewrite Hpagerun.
      cbn [obind].
      rewrite int32_sub_small, int32_add_small by lia.
      replace (Z.of_nat r - Z.of_nat t) with (Z.of_nat (r - t)) by lia.
      replace (Z.of_nat cur + Z.of_nat t) with (Z.of_nat (cur + t)) by lia.
      by rewrite Hrest.
    + rewrite fmap_cons. cbn [concat]. rewrite Hpageval, Hconcat, Nat.add_0_r.
      rewrite <- drop_drop. apply take_drop.
    + cbn [length]. rewrite Nat2Z.inj_succ, Hcount.
      rewrite <- (ceil_div_step (Z.of_nat r) perPage) by lia.
      rewrite Ht. replace (Z.of_nat (r - t)) with (Z.of_nat r - Z.of_nat t) by lia. lia.
    + constructor; [|done]. intros k tl Hk. by apply Hpagepl in Hk.
Qed.

Lemma seqZ_0_nat (n : nat) : seqZ 0 (Z.of_nat n) = Z.of_nat <$> seq 0 n.
Proof.
  unfold seqZ. rewrite Nat2Z.id. apply list_fmap_ext. intros _ i _. lia.
Qed.

Lemma Pdf_page_tiles_codes (values : list Z) (dominoesPerRow : Z)
    (dominoesPerPage pageStart : nat) :
  (pageStart + dominoesPerPage ≤ length values)%nat →
  Pdf.v <$> Pdf.page_tiles values dominoesPerRow (Z.of_nat dominoesPerPage)
              (Z.of_nat pageStart)
  = Some <$> take dominoesPerPage (drop pageStart values).
Proof.
  intros Hlen. unfold Pdf.page_tiles. rewrite seqZ_0_nat.
  rewrite <- !list_fmap_compose.
  apply list_eq. intros k. rewrite !list_lookup_fmap.
  destruct (decide (k < dominoesPerPage)%nat) as [Hk|Hk].
  - rewrite lookup_seq_lt by done. simpl.
    replace (Z.of_nat pageStart + Z.of_nat k) with (Z.of_nat (pageStart + k)) by lia.
    rewrite lookupZ_of_nat, lookup_take_lt, lookup_drop by done.
    destruct (lookup_lt_is_Some_2 values (pageStart + k) ltac:(lia)) as [x ->]. done.
  - rewrite lookup_seq_ge by lia. rewrite lookup_take_ge by lia. done.
Qed.

Lemma Pdf_page_tiles_placed (values : list Z) (dominoesPerRow dominoesPerPage pageStart : Z) :
  1 <= dominoesPerRow →
  Pdf_placed dominoesPerRow (Pdf.page_tiles values dominoesPerRow dominoesPerPage pageStart).
Proof.
  intros Hrow i t. unfold Pdf.page_tiles. rewrite list_lookup_fmap.
  intros Hi. apply fmap_Some in Hi as (z & Hz & ->).
  apply lookup_seqZ in Hz as [-> _]. cbn [Pdf.ix Pdf.iy]. unfold Pdf.rem, Pdf.floor_div.
  destruct (Z.eqb_spec dominoesPerRow 0) as [?|_]; [lia|].
  rewrite Z.add_0_l. by rewrite Z.rem_mod_nonneg by lia.
Qed.

Lemma concat_chunks (l : list Z) (k n : nat) :
  concat ((λ p, take k (drop (p * k) l)) <$> seq 0 n) = take (n * k) l.
Proof.
  induction n as [|n IH]; [done|].
  rewrite seq_S, fmap_app, concat_app, IH. simpl. rewrite app_nil_r.
  rewrite take_take_drop. f_equal. lia.
Qed.

Lemma concat_fmap_Some (f : nat → list Z) (l : list nat) :
  concat ((λ p, Some <$> f p) <$> l) = Some <$> concat (f <$> l).
Proof.
  induction l as [|p l IH]; [done|].
  rewrite !fmap_cons. cbn [concat]. by rewrite IH, fmap_app.
Qed.

Lemma Pdf_letter_pages_codes (values : list Z) (dominoesPerRow : Z)
    (pageCount dominoesPerPage : nat) :
  length values = (pageCount * dominoesPerPage)%nat →
  concat ((λ page : list Pdf.tile, Pdf.v <$> page)
          <$> Pdf.letter_pages values (Z.of_nat pageCount) dominoesPerRow
                (Z.of_nat dominoesPerPage))
  = Some <$> values.
Proof.
  intros Hlen. unfold Pdf.letter_pages. rewrite seqZ_0_nat.
  rewrite <- !list_fmap_compose.
  trans (concat ((λ p, Some <$> take dominoesPerPage (drop (p * dominoesPerPage) values))
                 <$> seq 0 pageCount)).
  - f_equal. apply list_fmap_ext. intros i p Hp. simpl.
    apply lookup_seq in Hp as [-> Hp]. rewrite Nat.add_0_l.
    replace (Z.of_nat i * Z.of_nat dominoesPerPage)
      with (Z.of_nat (i * dominoesPerPage)) by lia.
    apply Pdf_page_tiles_codes. nia.
  - rewrite (concat_fmap_Some
               (λ p, take dominoesPerPage (drop (p * dominoesPerPage) values))).
    rewrite concat_chunks. by rewrite take_ge by lia.
Qed.

Lemma ceil_div_mul (n k : Z) : 1 <= k → ceil_div (n * k) k = n.
Proof.
  intros Hk. unfold ceil_div.
  replace (n * k + k - 1) with (n * k + (k - 1)) by lia.
  rewrite Z.div_add_l by lia. rewrite Z.div_small by lia. lia.
Qed.

(** X21: the page loops of [generateLetterPagesPdfBlob]: for tiles per row
    and tiles per page of at least 1 and the sequence drawn for [pageCount]
    pages, the document has exactly [pageCount] pages, which is
    [ceil(total / tiles_per_page)], every page holds exactly
    [tiles_per_page] tiles, the codes of the pages, read page after page,
    are the sequence drawn (each code once, in order), and tile [i] of a
    page has column [i mod tiles_per_row] and row [i div tiles_per_row]. *)
Theorem letter_pages_exact (values : list Z)
    (dominoesPerRow dominoesPerPage pageCount : Z) :
  1 <= dominoesPerRow → 1 <= dominoesPerPage → 0 <= pageCount →
  Z.of_nat (length values) = pageCount * dominoesPerPage →
  Z.of_nat (length (Pdf.letter_pages values pageCount dominoesPerRow dominoesPerPage))
  = pageCount
  ∧ pageCount = ceil_div (Z.of_nat (length values)) dominoesPerPage
  ∧ Forall (λ page : list Pdf.tile, Z.of_nat (length page) = dominoesPerPage)
      (Pdf.letter_pages values pageCount dominoesPerRow dominoesPerPage)
  ∧ concat ((λ page : list Pdf.tile, Pdf.v <$> page)
            <$> Pdf.letter_pages values pageCount dominoesPerRow dominoesPerPage)
    = Some <$> values
  ∧ Forall (Pdf_placed dominoesPerRow)
      (Pdf.letter_pages values pageCount dominoesPerRow dominoesPerPage).
Proof.
  intros Hrow Hpage Hcount Hlen. split_and!.
  - unfold Pdf.letter_pages. rewrite length_fmap, length_seqZ. lia.
  - rewrite Hlen, ceil_div_mul by lia. reflexivity.
  - unfold Pdf.letter_pages. apply Forall_fmap, Forall_forall. intros p _.
    unfold Pdf.page_tiles. cbn [compose]. rewrite length_fmap, length_seqZ. lia.
  - rewrite <- (Z2Nat.id pageCount), <- (Z2Nat.id dominoesPerPage) by lia.
    apply Pdf_letter_pages_codes. nia.
  - unfold Pdf.letter_pages. apply Forall_fmap, Forall_forall. intros p _.
    by apply Pdf_page_tiles_placed.
Qed.

Lemma letter_pages_exact_witness :
  Z.of_nat (length (Pdf.letter_pages [20; 21; 22; 23; 24; 25] 2 2 3)) = 2
  ∧ 2 = ceil_div (Z.of_nat (length [20; 21; 22; 23; 24; 25])) 3
  ∧ Forall (λ page : list Pdf.tile, Z.of_nat (length page) = 3)
      (Pdf.letter_pages [20; 21; 22; 23; 24; 25] 2 2 3)
  ∧ concat ((λ page : list Pdf.tile, Pdf.v <$> page)
            <$> Pdf.letter_pages [20; 21; 22; 23; 24; 25] 2 2 3)
    = Some <$> [20; 21; 22; 23; 24; 25]
  ∧ Forall (Pdf_placed 2) (Pdf.letter_pages [20; 21; 22; 23; 24; 25] 2 2 3).
Proof.
  apply (letter_pages_exact [20; 21; 22; 23; 24; 25] 2 3 2); [lia | lia | lia | reflexivity].
Defined.

(** * Further properties of the code *)

(** ** Bits of the 32-bit operators *)

Lemma toInt32_mod (z : Z) : Int32.toInt32 z mod 2 ^ 32 = z mod 2 ^ 32.
Proof.
  rewrite toInt32_wrap.
  pose proof (Z.div_mod (z + 2 ^ 31) (2 ^ 32) ltac:(lia)) as Hdm.
  replace ((z + 2 ^ 31) mod 2 ^ 32 - 2 ^ 31)
    with (z + (- ((z + 2 ^ 31) / 2 ^ 32)) * 2 ^ 32) by lia.
  apply Z.mod_add. lia.
Qed.

Lemma testbit_toInt32 (z i : Z) :
  0 <= i < 32 → Z.testbit (Int32.toInt32 z) i = Z.testbit z i.
Proof.
  intros Hi.
  rewrite <- (Z.mod_pow2_bits_low (Int32.toInt32 z) 32 i) by lia.
  rewrite toInt32_mod. apply Z.mod_pow2_bits_low. lia.
Qed.

Lemma testbit_and (a b i : Z) :
  0 <= i < 32 → Z.testbit (a .& b) i = Z.testbit a i && Z.testbit b i.
Proof.
  intros Hi. unfold Int32.and.
  rewrite testbit_toInt32, Z.land_spec, !testbit_toInt32 by lia. reflexivity.
Qed.

Lemma testbit_and_ones (v k i : Z) :
  0 <= i < k → k <= 32 → Z.testbit (v .& Z.ones k) i = Z.testbit v i.
Proof.
  intros Hi Hk. rewrite testbit_and by lia.
  rewrite Z.ones_spec_low by lia. apply andb_true_r.
Qed.

(** ** The reverse tables *)

Lemma reverse8_involution_all :
  forallb (λ c, let r := Code.reverse8 c in
                (0 <=? r) && (r <? 256) && (Code.reverse8 r =? c)) (seqZ 0 256) = true.
Proof. vm_compute. reflexivity. Qed.

(** X1: the entry of either reverse table at a byte [c] is the byte whose bit
    [i] is bit [7 - i] of [c], and the entry at that byte is [c] again. *)
Theorem reverse_table_involution (c : Z) :
  0 <= c < 256 →
  ∃ r, TS.REVERSE8 !! Z.to_nat c = Some r
       ∧ CS.Reverse8 !! Z.to_nat c = Some r
       ∧ 0 <= r < 256
       ∧ (∀ i, 0 <= i < 8 → Z.testbit r i = Z.testbit c (7 - i))
       ∧ TS.REVERSE8 !! Z.to_nat r = Some c.
Proof.
  intros Hc. exists (Code.reverse8 c).
  destruct (REVERSE8_reverse8 c Hc) as [HT HC].
  pose proof (forallb_seqZ _ 0 256 reverse8_involution_all c ltac:(lia)) as H.
  cbv beta zeta in H. rewrite !andb_true_iff in H. destruct H as [[H0 H1] H2].
  apply Z.leb_le in H0. apply Z.ltb_lt in H1. apply Z.eqb_eq in H2.
  split; [exact HT|]. split; [exact HC|]. split; [lia|]. split.
  - intros i Hi. by apply reverse8_testbit.
  - destruct (REVERSE8_reverse8 (Code.reverse8 c) ltac:(lia)) as [HT' _].
    rewrite HT'. by rewrite H2.
Qed.

Lemma reverse_table_involution_witness :
  0 <= 6 < 256
  ∧ ∃ r, TS.REVERSE8 !! Z.to_nat 6 = Some r
         ∧ CS.Reverse8 !! Z.to_nat 6 = Some r
         ∧ 0 <= r < 256
         ∧ (∀ i, 0 <= i < 8 → Z.testbit r i = Z.testbit 6 (7 - i))
         ∧ TS.REVERSE8 !! Z.to_nat r = Some 6.
Proof.
  assert (H : 0 <= 6 < 256) by lia.
  split; [exact H | exact (reverse_table_involution 6 H)].
Defined.

(** ** The population count *)

Lemma and_fff_idem :
  forallb (λ d, d .& 0xfff =? d) (seqZ 0 4096) = true.
Proof. vm_compute. reflexivity. Qed.

Lemma count_set_ext (v w : Z) (bits : list Z) :
  (∀ i, i ∈ bits → Z.testbit v i = Z.testbit w i) →
  Code.count_set v bits = Code.count_set w bits.
Proof.
  intros H. unfold Code.count_set. f_equal.
  induction bits as [|b bits IH]; [done|].
  rewrite !filter_cons. rewrite (H b) by (by left).
  rewrite IH by (intros i Hi; apply H; by right). done.
Qed.

(** X2: for every integer, the loop of [popCount12] has ended within twelve
    rounds, and the count is the number of bits set among the low twelve
    bits of the argument. *)
Theorem popCount12_counts (n : Z) :
  fst (TS.popCount12_loop 12 (n .& 0xfff) 0) = 0
  ∧ TS.popCount12 n = Z.of_nat (Code.count_set n (seqZ 0 12)).
Proof.
  split; [apply popCount12_exits|].
  pose proof (and_mask_range n 12 ltac:(lia)) as Hd.
  change (Z.ones 12) with 0xfff in Hd. change (2 ^ 12) with 4096 in Hd.
  assert (Hidem : (n .& 0xfff) .& 0xfff = n .& 0xfff).
  { apply Z.eqb_eq. apply (forallb_seqZ _ 0 4096 and_fff_idem). lia. }
  assert (Hpop : TS.popCount12 n = TS.popCount12 (n .& 0xfff)).
  { unfold TS.popCount12. by rewrite Hidem. }
  rewrite Hpop. destruct (popCount12_count (n .& 0xfff) Hd) as [-> _].
  f_equal. apply count_set_ext. intros i Hi%elem_of_seqZ.
  change 0xfff with (Z.ones 12). apply testbit_and_ones; lia.
Qed.

(** ** The pips of a tile *)

Lemma land_pow2 (a b : Z) :
  0 <= b → Z.land a (2 ^ b) = if Z.testbit a b then 2 ^ b else 0.
Proof.
  intros Hb. apply Z.bits_inj'. intros i Hi.
  rewrite Z.land_spec, Z.pow2_bits_eqb by lia.
  destruct (Z.eqb_spec b i) as [->|Hne].
  - destruct (Z.testbit a i) eqn:E; simpl.
    + by rewrite Z.pow2_bits_true.
    + by rewrite Z.bits_0.
  - rewrite andb_false_r. destruct (Z.testbit a b).
    + rewrite Z.pow2_bits_false by lia. done.
    + by rewrite Z.bits_0.
Qed.

Lemma pow2_small (b : Z) : 0 <= b <= 30 → 0 < 2 ^ b < 2 ^ 31.
Proof.
  intros Hb. split; [apply Z.pow_pos_nonneg; lia|].
  apply Z.pow_lt_mono_r; lia.
Qed.

Lemma and_pow2 (v b : Z) :
  0 <= b <= 30 → v .& 2 ^ b = if Z.testbit v b then 2 ^ b else 0.
Proof.
  intros Hb. pose proof (pow2_small b Hb) as Hp. unfold Int32.and.
  rewrite (toInt32_small (2 ^ b)) by lia.
  rewrite land_pow2 by lia. rewrite testbit_toInt32 by lia.
  destruct (Z.testbit v b); apply toInt32_small; lia.
Qed.

Lemma and_pow2_eqb (v b : Z) :
  0 <= b <= 30 → negb (v .& 2 ^ b =? 0) = Z.testbit v b.
Proof.
  intros Hb. pose proof (pow2_small b Hb) as Hp. rewrite and_pow2 by done.
  destruct (Z.testbit v b); simpl.
  - destruct (Z.eqb_spec (2 ^ b) 0); [lia|done].
  - done.
Qed.

Lemma shl_pow2 (b : Z) : 0 <= b < 30 → 2 ^ b .<< 1 = 2 ^ (b + 1).
Proof.
  intros Hb. pose proof (pow2_small b ltac:(lia)) as Hp.
  pose proof (pow2_small (b + 1) ltac:(lia)) as Hp'.
  unfold Int32.shl. rewrite (toInt32_small (2 ^ b)) by lia.
  change (Z.land 1 31) with 1. rewrite Z.shiftl_mul_pow2 by lia.
  replace (2 ^ b * 2 ^ 1) with (2 ^ (b + 1)) by (rewrite Z.pow_add_r; lia).
  apply toInt32_small. lia.
Qed.

(** The inner loop from the mask of bit [b]: a circle for each set bit of
    [b .. b + n - 1], in order, bit [i] in row [pip + (i - b)]. *)
Lemma pip_loop_bits (n : nat) :
  ∀ (value b pip : Z) (cx y : Num.number),
    0 <= b → b + Z.of_nat n <= 30 →
    Shape.pip_loop n value (2 ^ b) pip cx y
    = (λ i, {| Shape.cx := cx; Shape.cy := Shape.pip_cy y (pip + (i - b));
               Shape.r := Shape.PIP_RADIUS |})
      <$> filter (λ i, Z.testbit value i = true) (seqZ b (Z.of_nat n)).
Proof.
  induction n as [|n IH]; intros value b pip cx y Hb Hn; [done|].
  cbn [Shape.pip_loop].
  rewrite and_pow2_eqb by lia. rewrite shl_pow2 by lia.
  rewrite IH by lia.
  rewrite (seqZ_cons b (Z.of_nat (S n))) by lia.
  replace (Z.pred (Z.of_nat (S n))) with (Z.of_nat n) by lia.
  replace (Z.succ b) with (b + 1) by lia.
  rewrite filter_cons.
  assert (Hext :
    (λ i, {| Shape.cx := cx; Shape.cy := Shape.pip_cy y (pip + 1 + (i - (b + 1)));
             Shape.r := Shape.PIP_RADIUS |})
    <$> filter (λ i, Z.testbit value i = true) (seqZ (b + 1) (Z.of_nat n))
    = (λ i, {| Shape.cx := cx; Shape.cy := Shape.pip_cy y (pip + (i - b));
               Shape.r := Shape.PIP_RADIUS |})
      <$> filter (λ i, Z.testbit value i = true) (seqZ (b + 1) (Z.of_nat n))).
  { apply list_fmap_ext. intros _ i _. do 2 f_equal. lia. }
  rewrite Hext.
  destruct (Z.testbit value b) eqn:E.
  - rewrite decide_True by done. rewrite fmap_cons. simpl app.
    do 3 f_equal. lia.
  - rewrite decide_False by congruence. done.
Qed.

Lemma filter_testbit_ext (v w : Z) (bits : list Z) :
  (∀ i, i ∈ bits → Z.testbit v i = Z.testbit w i) →
  filter (λ i, Z.testbit v i = true) bits = filter (λ i, Z.testbit w i = true) bits.
Proof.
  intros H. induction bits as [|b bits IH]; [done|].
  rewrite !filter_cons. rewrite (H b) by (by left).
  rewrite IH by (intros i Hi; apply H; by right). done.
Qed.

Lemma column_masks : 1 .<< (0 * 8) = 2 ^ 0 ∧ 1 .<< (1 * 8) = 2 ^ 8.
Proof. split; vm_compute; reflexivity. Qed.

Lemma pips_bits (v : Z) (x y : Num.number) :
  Shape.pips v x y
  = ((λ b, Shape.pip_circle x y 0 b)
       <$> filter (λ b, Z.testbit v b = true) (seqZ 0 8))
    ++ ((λ b, Shape.pip_circle x y 1 (b - 8))
          <$> filter (λ b, Z.testbit v b = true) (seqZ 8 8)).
Proof.
  unfold Shape.pips, Shape.column_pips.
  destruct column_masks as [-> ->].
  rewrite (pip_loop_bits 8 _ 0) by lia. rewrite (pip_loop_bits 8 _ 8) by lia.
  change (Z.of_nat 8) with 8.
  f_equal; apply list_fmap_ext; intros _ i _; unfold Shape.pip_circle;
    do 2 f_equal; lia.
Qed.

Lemma pips_masked (value : Z) (x y : Num.number) :
  Shape.pips (Shape.new_Domino value) x y = Shape.pips value x y.
Proof.
  rewrite !pips_bits.
  assert (Hlow : ∀ l : list Z, (∀ i, i ∈ l → 0 <= i < 16) →
            filter (λ i, Z.testbit (Shape.new_Domino value) i = true) l
            = filter (λ i, Z.testbit value i = true) l).
  { intros l Hl. apply filter_testbit_ext. intros i Hi%Hl.
    unfold Shape.new_Domino. change 0xffff with (Z.ones 16).
    apply testbit_and_ones; lia. }
  rewrite !Hlow by (intros i Hi%elem_of_seqZ; lia). reflexivity.
Qed.

(** X3: whatever integer the tile is built from, its pips are a circle for each
    set bit among bits 0 to 15 of the integer and no other: bits 0 to 7 down
    the first column, then bits 8 to 15 down the second.  The two loops give
    the same circles on the value the constructor has masked, as
    [toSvgShape] runs them, and on the integer itself, as [renderPips] and
    the C# [ToSvgShape] do. *)
Theorem pips_are_set_bits (value : Z) (x y : Num.number) :
  Shape.pips value x y
  = ((λ b, Shape.pip_circle x y 0 b)
       <$> filter (λ b, Z.testbit value b = true) (seqZ 0 8))
    ++ ((λ b, Shape.pip_circle x y 1 (b - 8))
          <$> filter (λ b, Z.testbit value b = true) (seqZ 8 8))
  ∧ Shape.pips (Shape.new_Domino value) x y = Shape.pips value x y.
Proof. split; [apply pips_bits | apply pips_masked]. Qed.

Lemma enumerated_ten_bits :
  forallb (λ v, (length (filter (λ b, Z.testbit v b = true) (seqZ 0 8))
                 + length (filter (λ b, Z.testbit v b = true) (seqZ 8 8)) =? 10)%nat)
    enumerated = true.
Proof. vm_compute. reflexivity. Qed.

(** X4: a code of the valid list is drawn with exactly ten pips, the four of
    the frame and six of the payload, by [toSvgShape] at any position. *)
Theorem valid_code_ten_pips (v : Z) (dxOffset dyOffset xMargin stripSpacing : Num.number) :
  v ∈ TS.buildValidDominoesList →
  length (Shape.circles (Shape.toSvgShape v dxOffset dyOffset xMargin stripSpacing))
  = 10%nat.
Proof.
  rewrite (proj1 enumerated_eval). intros Hv.
  pose proof (forallb_elem_of _ _ _ enumerated_ten_bits Hv) as H.
  cbv beta in H. apply Nat.eqb_eq in H.
  unfold Shape.toSvgShape. cbn [Shape.circles].
  rewrite pips_masked, pips_bits, length_app, !length_fmap. exact H.
Qed.

Lemma valid_code_ten_pips_witness :
  33279 ∈ TS.buildValidDominoesList
  ∧ length (Shape.circles (Shape.toSvgShape 33279 (Num.of_Z 0) (Num.of_Z 0)
                             (Num.Fin (1 # 8)) (Num.Fin (1 # 8)))) = 10%nat.
Proof.
  assert (H : 33279 ∈ TS.buildValidDominoesList).
  { rewrite (proj1 enumerated_eval). apply (list_elem_of_lookup_2 _ 0%nat). reflexivity. }
  split; [exact H | exact (valid_code_ten_pips 33279 _ _ _ _ H)].
Defined.

(** ** More on the samplers *)

(** X6: asked for as many codes as the set holds, each sampler returns the
    whole set in some order. *)
Theorem full_draw_permutation (s c : Store.state) (L L' : list Z) (fuel : nat) :
  Store.arrays s !! TS.VALID_DOMINOES = Some L →
  Store.arrays c !! CS.ValidDominoes = Some L' →
  (1 ≤ length L)%nat → Z.of_nat (length L') < 2 ^ 31 → (length L ≤ fuel)%nat →
  (∃ res s', TS.generateRandomUniqueDominoes (Z.of_nat (length L)) s = (Return res, s')
             ∧ res ≡ₚ L)
  ∧ (∃ res c', CS.GenerateRandomUniqueDominoes (Z.of_nat (length L')) c = (Return res, c')
               ∧ res ≡ₚ L')
  ∧ (∃ res s', Pdf.pickRandomDominoes fuel TS.VALID_DOMINOES (Z.of_nat (length L)) s
               = (Return res, s')
               ∧ res ≡ₚ L).
Proof.
  intros HL HL' Hne Hint Hfuel. split_and!.
  - destruct (generateRandomUniqueDominoes_run s L (length L) HL ltac:(lia))
      as (res & a' & s' & Hrun & _ & Hsam).
    exists res, s'. split; [exact Hrun | by eapply sampled_all].
  - destruct (GenerateRandomUniqueDominoes_run c L' (length L') HL' Hint ltac:(lia))
      as (res & a' & c' & Hrun & _ & Hsam).
    exists res, c'. split; [exact Hrun | by eapply sampled_all].
  - destruct (pickRandomDominoes_run s L (length L) fuel _ HL Hne Hfuel)
      as (rounds & s' & Hrun & _ & Hlen & Hall & Hone).
    exists (concat rounds), s'. split; [exact Hrun|].
    specialize (Hone ltac:(lia)).
    destruct rounds as [|r [|? ?]]; simpl in *; [lia| |lia].
    rewrite app_nil_r in *. apply Forall_cons in Hall as [[a' Hsam] _].
    rewrite Hlen in Hsam. by eapply sampled_all.
Qed.

Lemma full_draw_permutation_witness :
  (∃ res s', TS.generateRandomUniqueDominoes 3 three_codes = (Return res, s')
             ∧ res ≡ₚ [7; 8; 9])
  ∧ (∃ res c', CS.GenerateRandomUniqueDominoes 3 three_codes = (Return res, c')
               ∧ res ≡ₚ [7; 8; 9])
  ∧ (∃ res s', Pdf.pickRandomDominoes 3 TS.VALID_DOMINOES 3 three_codes = (Return res, s')
               ∧ res ≡ₚ [7; 8; 9]).
Proof.
  apply (full_draw_permutation three_codes three_codes [7; 8; 9] [7; 8; 9] 3);
    [reflexivity | reflexivity | simpl; lia | simpl; lia | simpl; lia].
Defined.


Lemma count_occ_concat_perm (L : list Z) (fulls : list (list Z)) (x : Z) :
  Forall (λ c, c ≡ₚ L) fulls →
  count_occ Z.eq_dec (concat fulls) x = (length fulls * count_occ Z.eq_dec L x)%nat.
Proof.
  induction 1 as [|c fulls Hc _ IH]; [done|].
  simpl. rewrite count_occ_app, IH.
  by rewrite (proj1 (Permutation_count_occ Z.eq_dec c L) Hc x).
Qed.

(** X8: [pickRandomDominoes] repeats evenly: when the source has no duplicates
    and [count] is positive, every code of the source comes out
    [count / length] times, or once more, and nothing else comes out. *)
Theorem pickRandomDominoes_even (s : Store.state) (L : list Z) (n fuel : nat)
    (source : Store.ref) :
  Store.arrays s !! source = Some L → NoDup L → (1 ≤ length L)%nat →
  (1 ≤ n ≤ fuel)%nat →
  ∃ res s',
    Pdf.pickRandomDominoes fuel source (Z.of_nat n) s = (Return res, s')
    ∧ length res = n
    ∧ ∀ x, if decide (x ∈ L)
           then (n / length L ≤ count_occ Z.eq_dec res x ≤ n / length L + 1)%nat
           else count_occ Z.eq_dec res x = 0%nat.
Proof.
  intros HL Hnd Hne Hn. unfold Pdf.pickRandomDominoes.
  rewrite (bind_Return _ _ _ _ _ (length_of_run s source L HL)).
  destruct (Z.eqb_spec (Z.of_nat (length L)) 0) as [?|_]; [lia|].
  destruct (Z.leb_spec (Z.of_nat n) 0) as [?|_]; [lia|].
  destruct (pick_rounds_full fuel s [] L n source HL Hne ltac:(lia))
    as (fulls & last & a' & s' & Hrun & Hall & Hlen & Hlast).
  simpl in Hrun. exists (concat fulls ++ last), s'. split; [exact Hrun|].
  destruct (sampled_NoDup _ _ _ _ Hlast Hnd) as [Hndl Hsub].
  split.
  - rewrite length_app. destruct Hlast as (-> & _ & _).
    assert (length (concat fulls) = (length fulls * length L)%nat) as ->.
    { clear -Hall. induction Hall as [|c fulls Hc _ IH]; [done|].
      simpl. rewrite length_app, IH. by rewrite Hc. }
    rewrite Hlen. pose proof (Nat.div_mod_eq n (length L)). lia.
  - intros x. rewrite count_occ_app, (count_occ_concat_perm L) by done.
    rewrite Hlen.
    destruct (decide (x ∈ L)) as [Hx|Hx].
    + assert (count_occ Z.eq_dec L x = 1%nat) as ->.
      { apply NoDup_count_occ'; [by apply NoDup_ListNoDup | by apply list_elem_of_In]. }
      assert (count_occ Z.eq_dec last x ≤ 1)%nat.
      { apply NoDup_ListNoDup in Hndl.
        apply (proj1 (List.NoDup_count_occ Z.eq_dec last) Hndl). }
      lia.
    + assert (count_occ Z.eq_dec L x = 0%nat) as ->.
      { apply count_occ_not_In. by rewrite <- list_elem_of_In. }
      assert (count_occ Z.eq_dec last x = 0%nat) as ->.
      { apply count_occ_not_In. rewrite <- list_elem_of_In. intros Hin. by apply Hx, Hsub. }
      lia.
Qed.

Lemma pickRandomDominoes_even_witness :
  ∃ res s',
    Pdf.pickRandomDominoes 5 0%nat 5 three_codes = (Return res, s')
    ∧ length res = 5%nat
    ∧ ∀ x, if decide (x ∈ [7; 8; 9])
           then (5 / 3 ≤ count_occ Z.eq_dec res x ≤ 5 / 3 + 1)%nat
           else count_occ Z.eq_dec res x = 0%nat.
Proof.
  apply (pickRandomDominoes_even three_codes [7; 8; 9] 5 5 0%nat);
    [reflexivity | | simpl; lia | lia].
  apply (bool_decide_unpack _). vm_compute. exact I.
Defined.

(** ** The C# page loop on a page lower than a tile *)

Lemma pages_loop_zero (fuel : nat) :
  ∀ (dominoValues : list Z) (dominoesPerRow remainingDominoes currentIndex : Z),
    0 < remainingDominoes < 2 ^ 31 →
    CS.pages_loop fuel dominoValues dominoesPerRow 0 remainingDominoes currentIndex
    = OutOfFuel.
Proof.
  induction fuel as [|fuel IH]; intros values perRow r cur Hr; cbn [CS.pages_loop].
  - destruct (Z.gtb_spec r 0) as [_|?]; [done|lia].
  - destruct (Z.gtb_spec r 0) as [_|?]; [|lia].
    rewrite Z.min_r by lia. cbn [Z.to_nat CS.page_tiles obind].
    rewrite int32_sub_small by lia. rewrite Z.sub_0_r.
    rewrite IH by lia. reflexivity.
Qed.

Lemma Qfloor_unit (q : Q) : (0 <= q)%Q → (q < 1)%Q → Qfloor q = 0.
Proof.
  intros H0 H1.
  pose proof (Qfloor_le q) as Hle. pose proof (Qlt_floor q) as Hlt.
  assert (inject_Z (Qfloor q) < 1)%Q as Hu by (eapply Qle_lt_trans; eauto).
  assert (0 < inject_Z (Qfloor q + 1))%Q as Hl by (eapply Qle_lt_trans; eauto).
  change 1%Q with (inject_Z 1) in Hu. change 0%Q with (inject_Z 0) in Hl.
  rewrite <- Zlt_Qlt in Hu, Hl. lia.
Qed.

(** X9: on a page setup whose height is at least the margin of a tile but less
    than a tile and its two margins, [GeneratePdf] works out 0 tiles per
    page, and with one code or more to place its page loop does not end:
    every round adds a page without a tile and leaves the count of the
    remaining codes as it was, so no number of rounds is enough. *)
Theorem GeneratePdf_short_page_never_ends (fuel : nat) (pageSetup : PageSetup)
    (h : Measurement) (dominoValues : list Z) (dominoesPerRow : Z) :
  height pageSetup = Some h →
  (Domino.DominoMargin <= toInches h)%Q →
  (toInches h < Domino.DominoHeight + 2 * Domino.DominoMargin)%Q →
  (1 ≤ length dominoValues)%nat → Z.of_nat (length dominoValues) < 2 ^ 31 →
  CS.GeneratePdf_dominoesPerPage pageSetup (Z.of_nat (length dominoValues)) dominoesPerRow
  = Some 0
  ∧ CS.GeneratePdf fuel pageSetup dominoValues dominoesPerRow = Some OutOfFuel.
Proof.
  intros Hh Hlo Hhi Hne Hint.
  assert (Hper : CS.GeneratePdf_dominoesPerPage pageSetup
                   (Z.of_nat (length dominoValues)) dominoesPerRow = Some 0).
  { unfold CS.GeneratePdf_dominoesPerPage. rewrite Hh.
    unfold Num.sub, Num.neg, Num.add, Num.div.
    rewrite is_zero_false by (vm_compute; reflexivity).
    unfold Num.floor. rewrite Qfloor_unit.
    - reflexivity.
    - apply Qle_shift_div_l; [vm_compute; reflexivity|]. lra.
    - apply Qlt_shift_div_r; [vm_compute; reflexivity|].
      unfold Domino.DominoHeight, Domino.DominoMargin, Domino.PIP_DIAMETER,
        Domino.PIPS_PER_COLUMN, Domino.PIP_MARGIN in *. lra. }
  split; [exact Hper|].
  unfold CS.GeneratePdf. rewrite Hper. cbn [mbind option_bind].
  rewrite pages_loop_zero by lia. reflexivity.
Qed.

Lemma GeneratePdf_short_page_never_ends_witness :
  CS.GeneratePdf_dominoesPerPage short_page (Z.of_nat (length [33279])) 1 = Some 0
  ∧ CS.GeneratePdf 1000 short_page [33279] 1 = Some OutOfFuel.
Proof.
  apply (GeneratePdf_short_page_never_ends 1000 short_page (inches 1) [33279] 1);
    [reflexivity | vm_compute; discriminate | vm_compute; reflexivity
    | simpl; lia | simpl; lia].
Defined.

(** ** The diagnostic of the C# library *)

Lemma rotated180_enumerated :
  forallb (λ v, match Diag.rotated180 v with
                | Return r => Bool.eqb (r =? v) (Diag.self_mirrored v)
                | _ => false
                end) enumerated = true.
Proof. vm_compute. reflexivity. Qed.

Lemma CheckForSymmetricDominoes_enumerated :
  Diag.CheckForSymmetricDominoes enumerated = Return (904, 20)
  ∧ length (filter (λ v, Diag.self_mirrored v = true) enumerated) = 20%nat.
Proof. split; vm_compute; reflexivity. Qed.

(** X10: [CheckForSymmetricDominoes] reports 904 codes and finds 20 of them
    symmetric.  The value it compares a code with reverses each column in
    its place, so what it finds are the codes whose two columns are each
    their own reversal, 20 of the list. *)
Theorem CheckForSymmetricDominoes_result :
  Diag.CheckForSymmetricDominoes CS.BuildValidDominoesList = Return (904, 20)
  ∧ length (filter (λ v, Diag.self_mirrored v = true) CS.BuildValidDominoesList) = 20%nat
  ∧ ∀ v, v ∈ CS.BuildValidDominoesList →
      ∃ r, Diag.rotated180 v = Return r
           ∧ (r = v ↔ Diag.self_mirrored v = true).
Proof.
  rewrite (proj2 enumerated_eval).
  destruct CheckForSymmetricDominoes_enumerated as [H1 H2].
  split; [exact H1|]. split; [exact H2|].
  intros v Hv.
  pose proof (forallb_elem_of _ _ _ rotated180_enumerated Hv) as H.
  cbv beta in H. destruct (Diag.rotated180 v) as [r| |]; [|done..].
  exists r. split; [done|].
  apply Bool.eqb_prop in H. rewrite <- H. symmetry. apply Z.eqb_eq.
Qed.

(** ** Where the tiles and their pips lie *)

Lemma is_zero_inject_Z (n : Z) : 1 <= n → Num.is_zero (inject_Z n) = false.
Proof.
  intros Hn. apply is_zero_false. change 0%Q with (inject_Z 0).
  rewrite <- Zlt_Qlt. lia.
Qed.

(** X5: every pip of a tile lies within the body of the tile, a pip margin
    away from its edges or more (over exact arithmetic). *)
Theorem pips_inside_body (value : Z) (dxOffset dyOffset xMargin stripSpacing : Q)
    (c : Shape.circle) :
  c ∈ Shape.circles (Shape.toSvgShape value (Num.Fin dxOffset) (Num.Fin dyOffset)
                       (Num.Fin xMargin) (Num.Fin stripSpacing)) →
  ∃ x y cx cy,
    Shape.rect_x (Shape.toSvgShape value (Num.Fin dxOffset) (Num.Fin dyOffset)
                    (Num.Fin xMargin) (Num.Fin stripSpacing)) = Num.Fin x
    ∧ Shape.rect_y (Shape.toSvgShape value (Num.Fin dxOffset) (Num.Fin dyOffset)
                      (Num.Fin xMargin) (Num.Fin stripSpacing)) = Num.Fin y
    ∧ Shape.cx c = Num.Fin cx ∧ Shape.cy c = Num.Fin cy
    ∧ (x + Domino.PIP_MARGIN <= cx - Shape.r c)%Q
    ∧ (cx + Shape.r c <= x + Domino.DominoWidth - Domino.PIP_MARGIN)%Q
    ∧ (y + Domino.PIP_MARGIN <= cy - Shape.r c)%Q
    ∧ (cy + Shape.r c <= y + Domino.DominoHeight - Domino.PIP_MARGIN)%Q.
Proof.
  unfold Shape.toSvgShape. cbn [Shape.circles Shape.rect_x Shape.rect_y].
  rewrite pips_masked, pips_bits.
  unfold Shape.tile_x, Shape.tile_y. cbn [Num.add Num.mul].
  set (x := (dxOffset * (Domino.DominoWidth + stripSpacing) + xMargin)%Q).
  set (y := (dyOffset * (Domino.DominoHeight + Domino.DominoMargin)
             + Domino.DominoMargin)%Q).
  intros Hc.
  assert (Hpip : ∃ column pip, (column = 0 ∨ column = 1) ∧ 0 <= pip < 8
                 ∧ c = Shape.pip_circle (Num.Fin x) (Num.Fin y) column pip).
  { apply elem_of_app in Hc as [Hc|Hc];
      apply list_elem_of_fmap in Hc as (b & -> & Hb);
      apply list_elem_of_filter in Hb as [_ Hb%elem_of_seqZ].
    - exists 0, b. split_and!; [by left | lia | lia | done].
    - exists 1, (b - 8). split_and!; [by right | lia | lia | done]. }
  destruct Hpip as (column & pip & Hcol & Hpip & ->).
  exists x, y. eexists. eexists.
  split; [reflexivity|]. split; [reflexivity|].
  unfold Shape.pip_circle, Shape.pip_cx, Shape.pip_cy, Num.of_Z.
  cbn [Shape.cx Shape.cy Shape.r Num.add Num.mul].
  split; [reflexivity|]. split; [reflexivity|].
  assert (0 <= inject_Z pip)%Q as Hp0
    by (change 0%Q with (inject_Z 0); rewrite <- Zle_Qle; lia).
  assert (inject_Z pip <= 7)%Q as Hp7
    by (change 7%Q with (inject_Z 7); rewrite <- Zle_Qle; lia).
  unfold Shape.PIP_RADIUS, Shape.PIP_OFFSET_SPACING, Domino.DominoWidth,
    Domino.DominoHeight, Domino.PIP_DIAMETER, Domino.PIP_MARGIN,
    Domino.PIPS_PER_COLUMN, Domino.COLUMNS_PER_DOMINO.
  generalize (inject_Z pip) Hp0 Hp7. intros p Hp0' Hp7'.
  unfold Qdiv. change (/ 2)%Q with (1 # 2)%Q.
  destruct Hcol as [-> | ->]; unfold inject_Z; split_and!; lra.
Qed.

Lemma pips_inside_body_witness :
  ∃ x y cx cy,
    Shape.rect_x (Shape.toSvgShape 33279 (Num.Fin 0) (Num.Fin 0)
                    (Num.Fin (1 # 8)) (Num.Fin (1 # 8))) = Num.Fin x
    ∧ Shape.rect_y (Shape.toSvgShape 33279 (Num.Fin 0) (Num.Fin 0)
                      (Num.Fin (1 # 8)) (Num.Fin (1 # 8))) = Num.Fin y
    ∧ Shape.cx (Shape.pip_circle (Num.Fin (0 * (Domino.DominoWidth + (1 # 8)) + (1 # 8)))
                  (Num.Fin (0 * (Domino.DominoHeight + Domino.DominoMargin)
                            + Domino.DominoMargin)) 0 0) = Num.Fin cx
    ∧ Shape.cy (Shape.pip_circle (Num.Fin (0 * (Domino.DominoWidth + (1 # 8)) + (1 # 8)))
                  (Num.Fin (0 * (Domino.DominoHeight + Domino.DominoMargin)
                            + Domino.DominoMargin)) 0 0) = Num.Fin cy
    ∧ (x + Domino.PIP_MARGIN <= cx - Shape.PIP_RADIUS)%Q
    ∧ (cx + Shape.PIP_RADIUS <= x + Domino.DominoWidth - Domino.PIP_MARGIN)%Q
    ∧ (y + Domino.PIP_MARGIN <= cy - Shape.PIP_RADIUS)%Q
    ∧ (cy + Shape.PIP_RADIUS <= y + Domino.DominoHeight - Domino.PIP_MARGIN)%Q.
Proof.
  apply (pips_inside_body 33279 0 0 (1 # 8) (1 # 8)
           (Shape.pip_circle (Num.Fin (0 * (Domino.DominoWidth + (1 # 8)) + (1 # 8)))
              (Num.Fin (0 * (Domino.DominoHeight + Domino.DominoMargin)
                        + Domino.DominoMargin)) 0 0)).
  vm_compute. left.
Defined.

(** X11: the height [calculateTotalHeight] measures holds every tile the loops
    place: for at least one tile per row, tile [i] of [count], in row
    [i / dominoesPerRow], starts a margin below the top or lower, and ends
    a margin above the measured height or higher (over exact arithmetic). *)
Theorem tiles_within_height (count dominoesPerRow i : Z) :
  1 <= dominoesPerRow → 0 <= i < count →
  ∃ total y,
    Shape.calculateTotalHeight (Num.of_Z count) (Num.of_Z dominoesPerRow) = Num.Fin total
    ∧ Shape.tile_y (Num.of_Z (i / dominoesPerRow)) = Num.Fin y
    ∧ (Domino.DominoMargin <= y)%Q
    ∧ (y + Domino.DominoHeight + Domino.DominoMargin <= total)%Q.
Proof.
  intros Hrow Hi.
  unfold Shape.calculateTotalHeight, Shape.tile_y, Num.of_Z, Num.div.
  rewrite is_zero_inject_Z by done.
  cbn [Shape.ceil Num.of_Z Num.add Num.mul].
  eexists. eexists. split; [reflexivity|]. split; [reflexivity|].
  set (k := i / dominoesPerRow).
  set (rows := Qceiling (inject_Z count / inject_Z dominoesPerRow)).
  assert (Hk0 : 0 <= k) by (apply Z.div_pos; lia).
  assert (Hk : k + 1 <= rows).
  { assert (k * dominoesPerRow <= i) as Hki.
    { unfold k. rewrite Z.mul_comm. apply Z.mul_div_le. lia. }
    assert (inject_Z k < inject_Z count / inject_Z dominoesPerRow)%Q as Hq.
    { apply Qlt_shift_div_l.
      - change 0%Q with (inject_Z 0). rewrite <- Zlt_Qlt. lia.
      - rewrite <- inject_Z_mult, <- Zlt_Qlt. lia. }
    pose proof (Qle_ceiling (inject_Z count / inject_Z dominoesPerRow)) as Hc.
    fold rows in Hc.
    assert (inject_Z k < inject_Z rows)%Q as Hlt by (eapply Qlt_le_trans; eauto).
    rewrite <- Zlt_Qlt in Hlt. lia. }
  assert (0 <= inject_Z k)%Q as Hk0'
    by (change 0%Q with (inject_Z 0); rewrite <- Zle_Qle; lia).
  assert (inject_Z k + 1 <= inject_Z rows)%Q as Hk'.
  { change 1%Q with (inject_Z 1). rewrite <- inject_Z_plus, <- Zle_Qle. lia. }
  unfold Domino.DominoHeight, Domino.DominoMargin, Domino.PIP_DIAMETER,
    Domino.PIP_MARGIN, Domino.PIPS_PER_COLUMN.
  generalize (inject_Z k) (inject_Z rows) Hk0' Hk'. intros a b Ha Hab.
  split; lra.
Qed.

Lemma tiles_within_height_witness :
  ∃ total y,
    Shape.calculateTotalHeight (Num.of_Z 7) (Num.of_Z 3) = Num.Fin total
    ∧ Shape.tile_y (Num.of_Z (6 / 3)) = Num.Fin y
    ∧ (Domino.DominoMargin <= y)%Q
    ∧ (y + Domino.DominoHeight + Domino.DominoMargin <= total)%Q.
Proof. apply (tiles_within_height 7 3 6); lia. Defined.

Lemma floor_div_mul (b c : Q) :
  (0 < c)%Q → (inject_Z (Qfloor (b / c)) * c <= b)%Q.
Proof.
  intros Hc. pose proof (Qfloor_le (b / c)) as Hf.
  apply (Qmult_le_compat_r _ _ c) in Hf; [|by apply Qlt_le_weak].
  assert (b / c * c == b)%Q as Hbc.
  { field. intros H0. rewrite H0 in Hc. by apply Qlt_irrefl in Hc. }
  by rewrite Hbc in Hf.
Qed.

Lemma floor_div_ge (b c : Q) (k : Z) :
  (0 < c)%Q → (inject_Z k * c <= b)%Q → k <= Qfloor (b / c).
Proof.
  intros Hc Hk.
  assert (inject_Z k <= b / c)%Q as Hq by (by apply Qle_shift_div_l).
  apply Qfloor_resp_le in Hq. by rewrite Qfloor_Z in Hq.
Qed.

Lemma floor_div_lt (b c : Q) (k : Z) :
  (0 < c)%Q → (b < inject_Z k * c)%Q → Qfloor (b / c) < k.
Proof.
  intros Hc Hk.
  assert (b / c < inject_Z k)%Q as Hq by (by apply Qlt_shift_div_r).
  pose proof (Qfloor_le (b / c)) as Hf.
  assert (inject_Z (Qfloor (b / c)) < inject_Z k)%Q as Hlt
    by (eapply Qle_lt_trans; eauto).
  by rewrite <- Zlt_Qlt in Hlt.
Qed.

Lemma of_Z_inj (a b : Z) : Num.of_Z a = Num.of_Z b → a = b.
Proof. unfold Num.of_Z, inject_Z. by intros [= ->]. Qed.

Lemma calculateXMargin_value (pageWidth stripSpacing : Q) (n : Z) :
  TS.calculateXMargin (Num.Fin pageWidth) (Num.of_Z n) true (Num.Fin stripSpacing)
  = Num.Fin (stripSpacing
             + (pageWidth + - (inject_Z n * Domino.DominoWidth
                               + (inject_Z n + inject_Z 1) * stripSpacing))
               / inject_Z 2).
Proof.
  unfold TS.calculateXMargin, Num.sub, Num.add, Num.mul, Num.neg, Num.div, Num.of_Z.
  simpl negb. cbv iota.
  replace (Num.is_zero (inject_Z 2)) with false by reflexivity.
  reflexivity.
Qed.

(** X12: where a row of the page layout lies: with a spacing that is not
    negative, every tile of a row of as many tiles as [calculatePageLayout]
    counts, placed by [toSvgShape] from the offset of [calculateXMargin],
    lies between the two margins of the page (over exact arithmetic). *)
Theorem row_within_margins (stripSpacing : Measurement) (pageSetup : PageSetup)
    (n ix : Z) :
  (0 <= toInches stripSpacing)%Q →
  TS.dominoesPerRow_of stripSpacing pageSetup = Num.of_Z n →
  0 <= ix < n →
  ∃ off x,
    TS.calculateXMargin (Num.Fin (toInches (width pageSetup))) (Num.of_Z n) true
      (Num.Fin (toInches stripSpacing)) = Num.Fin off
    ∧ Shape.tile_x (Num.of_Z ix) (Num.Fin off) (Num.Fin (toInches stripSpacing))
      = Num.Fin x
    ∧ (TS.marginInches pageSetup <= x)%Q
    ∧ (x + Domino.DominoWidth
       <= toInches (width pageSetup) - TS.marginInches pageSetup)%Q.
Proof.
  intros Hs Hn Hix.
  assert (Hpitch : (0 < Domino.DominoWidth + toInches stripSpacing)%Q).
  { unfold Domino.DominoWidth, Domino.PIP_DIAMETER, Domino.COLUMNS_PER_DOMINO,
      Domino.PIP_MARGIN. lra. }
  rewrite dominoesPerRow_of_positive in Hn by done.
  apply of_Z_inj in Hn.
  pose proof (floor_div_mul (toInches (width pageSetup)
                             + - (inject_Z 2 * TS.marginInches pageSetup))
                (Domino.DominoWidth + toInches stripSpacing) Hpitch) as Hfit.
  rewrite Hn in Hfit.
  rewrite calculateXMargin_value.
  eexists. eexists. split; [reflexivity|]. split; [reflexivity|].
  assert (0 <= inject_Z ix)%Q as Hi0
    by (change 0%Q with (inject_Z 0); rewrite <- Zle_Qle; lia).
  assert (inject_Z ix + 1 <= inject_Z n)%Q as Hi1.
  { change 1%Q with (inject_Z 1). rewrite <- inject_Z_plus, <- Zle_Qle. lia. }
  assert (0 <= inject_Z ix * toInches stripSpacing)%Q as Hp0
    by (by apply Qmult_le_0_compat).
  assert (inject_Z ix * toInches stripSpacing + toInches stripSpacing
          <= inject_Z n * toInches stripSpacing)%Q as Hp1.
  { apply (Qmult_le_compat_r _ _ (toInches stripSpacing)) in Hi1; [|done].
    lra. }
  revert Hfit Hi0 Hi1 Hp0 Hp1 Hs.
  unfold Domino.DominoWidth, Domino.PIP_DIAMETER, Domino.COLUMNS_PER_DOMINO,
    Domino.PIP_MARGIN.
  generalize (toInches (width pageSetup)) (TS.marginInches pageSetup)
    (toInches stripSpacing) (inject_Z n) (inject_Z ix).
  intros pw m s N I Hfit Hi0 Hi1 Hp0 Hp1 Hs.
  unfold Qdiv. change (/ inject_Z 2)%Q with (1 # 2)%Q. unfold inject_Z in *.
  split; lra.
Qed.

Lemma row_within_margins_witness :
  ∃ off x,
    TS.calculateXMargin
      (Num.Fin (toInches (width (letterPortrait (Some (inches (25 # 100)))))))
      (Num.of_Z 12) true (Num.Fin (toInches (inches (125 # 1000)))) = Num.Fin off
    ∧ Shape.tile_x (Num.of_Z 11) (Num.Fin off) (Num.Fin (toInches (inches (125 # 1000))))
      = Num.Fin x
    ∧ (TS.marginInches (letterPortrait (Some (inches (25 # 100)))) <= x)%Q
    ∧ (x + Domino.DominoWidth
       <= toInches (width (letterPortrait (Some (inches (25 # 100)))))
          - TS.marginInches (letterPortrait (Some (inches (25 # 100)))))%Q.
Proof.
  apply (row_within_margins (inches (125 # 1000))
           (letterPortrait (Some (inches (25 # 100)))) 12 11);
    [vm_compute; discriminate | vm_compute; reflexivity | lia].
Defined.

(** X13: where a column of the page layout lies: on a page with a height, every
    tile of a column of as many tiles as [calculatePageLayout] counts
    starts a tile margin below the top of the page, whatever the page
    margin, and ends, with its lower tile margin, twice the page margin
    above the bottom of the page or higher (over exact arithmetic). *)
Theorem column_within_height (pageSetup : PageSetup) (h : Measurement) (m iy : Z) :
  height pageSetup = Some h →
  TS.dominoesPerColumn_of pageSetup = Num.of_Z m →
  0 <= iy < m →
  ∃ y,
    Shape.tile_y (Num.of_Z iy) = Num.Fin y
    ∧ (Domino.DominoMargin <= y)%Q
    ∧ (y + Domino.DominoHeight + Domino.DominoMargin
       <= toInches h - 2 * TS.marginInches pageSetup)%Q.
Proof.
  intros Hh Hm Hiy.
  assert (Hc : (0 < Domino.DominoHeight + Domino.DominoMargin)%Q)
    by (vm_compute; reflexivity).
  unfold TS.dominoesPerColumn_of, TS.printableHeight, TS.heightInches in Hm.
  rewrite Hh in Hm.
  unfold Num.sub, Num.mul, Num.of_Z, Num.neg, Num.add, Num.div in Hm.
  rewrite (is_zero_false _ Hc) in Hm. unfold Num.floor in Hm.
  apply of_Z_inj in Hm.
  pose proof (floor_div_mul (toInches h + - (inject_Z 2 * TS.marginInches pageSetup)
                             + - Domino.DominoMargin)
                (Domino.DominoHeight + Domino.DominoMargin) Hc) as Hfit.
  rewrite Hm in Hfit.
  eexists. split; [reflexivity|].
  assert (0 <= inject_Z iy)%Q as Hi0
    by (change 0%Q with (inject_Z 0); rewrite <- Zle_Qle; lia).
  assert (inject_Z iy + 1 <= inject_Z m)%Q as Hi1.
  { change 1%Q with (inject_Z 1). rewrite <- inject_Z_plus, <- Zle_Qle. lia. }
  revert Hfit Hi0 Hi1.
  unfold Domino.DominoHeight, Domino.DominoMargin, Domino.PIP_DIAMETER,
    Domino.PIPS_PER_COLUMN, Domino.PIP_MARGIN.
  generalize (toInches h) (TS.marginInches pageSetup) (inject_Z m) (inject_Z iy).
  intros ph mg M I Hfit Hi0 Hi1. unfold inject_Z in *.
  split; lra.
Qed.

Lemma column_within_height_witness :
  ∃ y,
    Shape.tile_y (Num.of_Z 4) = Num.Fin y
    ∧ (Domino.DominoMargin <= y)%Q
    ∧ (y + Domino.DominoHeight + Domino.DominoMargin
       <= toInches (inches 11)
          - 2 * TS.marginInches (letterPortrait (Some (inches (25 # 100)))))%Q.
Proof.
  apply (column_within_height (letterPortrait (Some (inches (25 # 100)))) (inches 11) 5 4);
    [reflexivity | vm_compute; reflexivity | lia].
Defined.

(** ** The label of [generateBrotherLabelPdfBlob] *)

Lemma lt_false (a b : Q) : (b <= a)%Q → Label.lt (Num.Fin a) (Num.Fin b) = false.
Proof.
  intros H. unfold Label.lt, Num.ge. apply negb_false_iff. by apply Qle_bool_iff.
Qed.

Lemma max_1_of_Z (k : Z) : 1 <= k → Label.max (Num.of_Z 1) (Num.of_Z k) = Num.of_Z k.
Proof.
  intros Hk. unfold Label.max, Num.of_Z, Num.ge.
  destruct (Qle_bool (inject_Z k) (inject_Z 1)) eqn:E; [|done].
  apply Qle_bool_iff in E. rewrite <- Zle_Qle in E.
  by replace k with 1 by lia.
Qed.

Lemma label_rows (len : Q) :
  (2 <= len)%Q → (len <= 36)%Q →
  1 <= Qfloor ((len + - Domino.DominoMargin) / (Domino.DominoHeight + Domino.DominoMargin))
    <= 19.
Proof.
  intros Hlo Hhi.
  assert (Hc : (0 < Domino.DominoHeight + Domino.DominoMargin)%Q)
    by (vm_compute; reflexivity).
  split.
  - apply floor_div_ge; [done|].
    unfold Domino.DominoHeight, Domino.DominoMargin, Domino.PIP_DIAMETER,
      Domino.PIPS_PER_COLUMN, Domino.PIP_MARGIN, inject_Z. lra.
  - apply Z.lt_succ_r. change (Z.succ 19) with 20. apply floor_div_lt; [done|].
    unfold Domino.DominoHeight, Domino.DominoMargin, Domino.PIP_DIAMETER,
      Domino.PIPS_PER_COLUMN, Domino.PIP_MARGIN, inject_Z. lra.
Qed.

Lemma label_perColumn (len : Q) :
  (2 <= len)%Q → (len <= 36)%Q →
  Label.max (Num.of_Z 1)
    (Num.floor (Num.div (Num.sub (Num.Fin len) (Num.Fin Domino.DominoMargin))
                  (Num.add (Num.Fin Domino.DominoHeight) (Num.Fin Domino.DominoMargin))))
  = Num.of_Z (Qfloor ((len + - Domino.DominoMargin)
                      / (Domino.DominoHeight + Domino.DominoMargin))).
Proof.
  intros Hlo Hhi. pose proof (label_rows len Hlo Hhi) as Hm.
  unfold Num.sub, Num.neg, Num.add, Num.div.
  rewrite is_zero_false by (vm_compute; reflexivity).
  unfold Num.floor. apply max_1_of_Z. lia.
Qed.

Lemma label_columns (w : Q) (layout : Label.LabelLayout) :
  (75 # 100 <= w)%Q →
  ∃ n, 1 <= n
       ∧ match layout with
         | Label.strip => Num.of_Z 1
         | Label.rows =>
             Label.max (Num.of_Z 1)
               (Num.floor (Num.div (Num.Fin w)
                             (Num.add (Num.Fin Domino.DominoWidth)
                                      (Num.Fin (toInches (inches (125 # 1000)))))))
         end = Num.of_Z n
       ∧ (layout = Label.strip → n = 1)
       ∧ (inject_Z n * (Domino.DominoWidth + (125 # 1000)) <= w)%Q.
Proof.
  intros Hw. destruct layout.
  - exists 1. split_and!; [lia | done | done |].
    unfold Domino.DominoWidth, Domino.PIP_DIAMETER, Domino.COLUMNS_PER_DOMINO,
      Domino.PIP_MARGIN, inject_Z. lra.
  - assert (Hc : (0 < Domino.DominoWidth + (125 # 1000))%Q) by (vm_compute; reflexivity).
    exists (Qfloor (w / (Domino.DominoWidth + (125 # 1000)))).
    assert (1 <= Qfloor (w / (Domino.DominoWidth + (125 # 1000)))) as H1.
    { apply floor_div_ge; [done|].
      unfold Domino.DominoWidth, Domino.PIP_DIAMETER, Domino.COLUMNS_PER_DOMINO,
        Domino.PIP_MARGIN, inject_Z. lra. }
    split_and!; [done| |done|by apply floor_div_mul].
    unfold Num.add, Num.div. change (toInches (inches (125 # 1000))) with (125 # 1000)%Q.
    rewrite (is_zero_false _ Hc). unfold Num.floor. by apply max_1_of_Z.
Qed.

(** X14: a label of an accepted size holds what is laid out on it: for a width
    of 0.75 inches or more and a length from 2 to 36 inches,
    [generateBrotherLabelPdfBlob] plans at least one tile per row, exactly
    one in the strip layout, and from 1 to 19 per column, asks
    [pickRandomDominoes] for their product, and every tile of that many,
    tile [i] in column [i mod perRow] and row [i / perRow], lies inside the
    label, a margin from its upper and lower ends (over exact
    arithmetic). *)
Theorem label_plan_fits (w len : Q) (layout : Label.LabelLayout) (i : Z) :
  (75 # 100 <= w)%Q → (2 <= len)%Q → (len <= 36)%Q →
  ∃ n m off,
    Label.label_plan (Num.Fin w) (Num.Fin len) layout
    = inl {| Label.dominoesPerRow := Num.of_Z n;
             Label.dominoesPerColumn := Num.of_Z m;
             Label.totalDominoes := Num.of_Z (n * m);
             Label.xMargin := Num.Fin off |}
    ∧ 1 <= n ∧ (layout = Label.strip → n = 1) ∧ 1 <= m <= 19
    ∧ (0 <= i < n * m →
       ∃ x y,
         Shape.tile_x (Num.of_Z (i mod n)) (Num.Fin off) (Num.Fin (125 # 1000)) = Num.Fin x
         ∧ Shape.tile_y (Num.of_Z (i / n)) = Num.Fin y
         ∧ (0 < x)%Q ∧ (x + Domino.DominoWidth < w)%Q
         ∧ (Domino.DominoMargin <= y)%Q
         ∧ (y + Domino.DominoHeight + Domino.DominoMargin <= len)%Q).
Proof.
  intros Hw Hlo Hhi.
  destruct (label_columns w layout Hw) as (n & Hn1 & Hrow & Hstrip & Hnw).
  pose proof (label_rows len Hlo Hhi) as Hm.
  set (m := Qfloor ((len + - Domino.DominoMargin)
                    / (Domino.DominoHeight + Domino.DominoMargin))) in *.
  assert (Hc : (0 < Domino.DominoHeight + Domino.DominoMargin)%Q)
    by (vm_compute; reflexivity).
  pose proof (floor_div_mul (len + - Domino.DominoMargin)
                (Domino.DominoHeight + Domino.DominoMargin) Hc) as Hml.
  fold m in Hml.
  exists n, m. eexists. split_and!; [|done|done|lia|lia|].
  - unfold Label.label_plan. cbn [Label.isFinite negb orb].
    rewrite (lt_false w (75 # 100)) by done.
    unfold Num.of_Z at 1 2.
    rewrite (lt_false len (inject_Z 2)) by (unfold inject_Z; lra).
    rewrite (lt_false (inject_Z 36) len) by (unfold inject_Z; lra).
    cbn [negb orb]. cbv zeta. rewrite Hrow.
    rewrite !label_perColumn by done. fold m.
    change (toInches (inches (125 # 1000))) with (125 # 1000)%Q.
    rewrite calculateXMargin_value. reflexivity.
  - intros Hi.
    eexists. eexists. split; [reflexivity|]. split; [reflexivity|].
    pose proof (Z.mod_pos_bound i n ltac:(lia)) as Hix.
    assert (Hiy0 : 0 <= i / n) by (apply Z.div_pos; lia).
    assert (Hiy : i / n + 1 <= m).
    { assert (i / n < m); [|lia]. apply Z.div_lt_upper_bound; lia. }
    assert (0 <= inject_Z (i mod n))%Q as Hx0
      by (change 0%Q with (inject_Z 0); rewrite <- Zle_Qle; lia).
    assert (inject_Z (i mod n) + 1 <= inject_Z n)%Q as Hx1.
    { change 1%Q with (inject_Z 1). rewrite <- inject_Z_plus, <- Zle_Qle. lia. }
    assert (0 <= inject_Z (i / n))%Q as Hy0
      by (change 0%Q with (inject_Z 0); rewrite <- Zle_Qle; lia).
    assert (inject_Z (i / n) + 1 <= inject_Z m)%Q as Hy1.
    { change 1%Q with (inject_Z 1). rewrite <- inject_Z_plus, <- Zle_Qle. lia. }
    revert Hnw Hml Hx0 Hx1 Hy0 Hy1.
    unfold Domino.DominoWidth, Domino.DominoHeight, Domino.DominoMargin,
      Domino.PIP_DIAMETER, Domino.COLUMNS_PER_DOMINO, Domino.PIPS_PER_COLUMN,
      Domino.PIP_MARGIN.
    generalize (inject_Z n) (inject_Z m) (inject_Z (i mod n)) (inject_Z (i / n)).
    intros N M X Y Hnw Hml Hx0 Hx1 Hy0 Hy1.
    unfold Qdiv. change (/ inject_Z 2)%Q with (1 # 2)%Q. unfold inject_Z.
    split_and!; lra.
Qed.

Lemma label_plan_fits_witness :
  ∃ n m off,
    Label.label_plan (Num.Fin (24 # 10)) (Num.Fin 36) Label.rows
    = inl {| Label.dominoesPerRow := Num.of_Z n;
             Label.dominoesPerColumn := Num.of_Z m;
             Label.totalDominoes := Num.of_Z (n * m);
             Label.xMargin := Num.Fin off |}
    ∧ 1 <= n ∧ (Label.rows = Label.strip → n = 1) ∧ 1 <= m <= 19
    ∧ (0 <= 5 < n * m →
       ∃ x y,
         Shape.tile_x (Num.of_Z (5 mod n)) (Num.Fin off) (Num.Fin (125 # 1000)) = Num.Fin x
         ∧ Shape.tile_y (Num.of_Z (5 / n)) = Num.Fin y
         ∧ (0 < x)%Q ∧ (x + Domino.DominoWidth < 24 # 10)%Q
         ∧ (Domino.DominoMargin <= y)%Q
         ∧ (y + Domino.DominoHeight + Domino.DominoMargin <= 36)%Q).
Proof.
  apply (label_plan_fits (24 # 10) 36 Label.rows 5); vm_compute; discriminate.
Defined.

(** ** The pages of [GeneratePagesPdf] *)

Lemma toInt_of_Z (z : Z) :
  CS.toInt (Num.of_Z z)
  = if (- 2 ^ 31 <=? z) && (z <? 2 ^ 31) then Some z else None.
Proof.
  unfold CS.toInt, Num.of_Z. rewrite Qceiling_Z, Qfloor_Z.
  by destruct (Num.sign_neg (inject_Z z)).
Qed.

Lemma toInt_floor_Some (a : Num.number) (z : Z) :
  CS.toInt (Num.floor a) = Some z →
  ∃ q, a = Num.Fin q ∧ z = Qfloor q ∧ - 2 ^ 31 <= z < 2 ^ 31.
Proof.
  destruct a as [| |q]; [done..|]. unfold Num.floor. rewrite toInt_of_Z.
  destruct (Z.leb_spec (- 2 ^ 31) (Qfloor q)), (Z.ltb_spec (Qfloor q) (2 ^ 31));
    simpl; intros [= <-]. exists q. split_and!; done || lia.
Qed.

Lemma ceil_div_le (pageCount perPage perPage' : Z) :
  0 <= pageCount → 1 <= perPage <= perPage' →
  ceil_div (pageCount * perPage) perPage' <= pageCount.
Proof.
  intros Hc Hp. unfold ceil_div.
  assert ((pageCount * perPage + perPage' - 1) / perPage' < pageCount + 1); [|lia].
  apply Z.div_lt_upper_bound; nia.
Qed.

(** X15: [GeneratePagesPdf] draws [pageCount] pages of codes by the count of
    [CalculatePageLayout], which leaves the page margin free at both ends
    of the page, and [GeneratePdf] then fills its pages by a count of its
    own, which does not.  On a page setup with a margin that is not
    negative, the second count is never below the first, so the codes drawn
    for [pageCount] pages are laid out, each once and in order, on
    [ceil(pageCount x perPage / perPage')] pages, which is never more than
    [pageCount]. *)
Theorem GeneratePdf_pages_at_most (fuel : nat) (stripSpacing h : Measurement)
    (pageSetup : PageSetup) (dominoValues : list Z)
    (dominoesPerRow dominoesPerPage pageCount : Z) :
  CS.CalculatePageLayout stripSpacing pageSetup = Some (dominoesPerRow, dominoesPerPage) →
  height pageSetup = Some h →
  (0 <= CS.marginInches pageSetup)%Q →
  (2 * CS.marginInches pageSetup + Domino.DominoMargin <= toInches h)%Q →
  (toInches h <= 1000000)%Q →
  1 <= dominoesPerRow <= 1000 → 1 <= dominoesPerPage → 0 <= pageCount →
  Z.of_nat (length dominoValues) = pageCount * dominoesPerPage →
  Z.of_nat (length dominoValues) < 2 ^ 31 →
  (length dominoValues ≤ fuel)%nat →
  ∃ perPage' pages,
    CS.GeneratePdf_dominoesPerPage pageSetup (Z.of_nat (length dominoValues)) dominoesPerRow
    = Some perPage'
    ∧ dominoesPerPage <= perPage'
    ∧ CS.GeneratePdf fuel pageSetup dominoValues dominoesPerRow = Some (Return pages)
    ∧ concat ((λ page : list CS.tile, CS.Value <$> page) <$> pages) = dominoValues
    ∧ Z.of_nat (length pages) = ceil_div (pageCount * dominoesPerPage) perPage'
    ∧ Z.of_nat (length pages) <= pageCount.
Proof.
  intros Hlayout Hh Hmg Hfits Hbig Hrow Hpage Hcount Hlen Hint Hfuel.
  assert (Hc : (0 < Domino.DominoHeight + Domino.DominoMargin)%Q)
    by (vm_compute; reflexivity).
  unfold CS.CalculatePageLayout, CS.heightInches in Hlayout. rewrite Hh in Hlayout.
  destruct (CS.toInt (Num.floor (Num.div
              (Num.sub (Num.sub (Num.Fin (toInches h))
                          (Num.mul (Num.of_Z 2) (Num.Fin (CS.marginInches pageSetup))))
                       (Num.Fin Domino.DominoMargin))
              (Num.add (Num.Fin Domino.DominoHeight) (Num.Fin Domino.DominoMargin)))))
    as [perColumn|] eqn:Ecol; [|done].
  cbn [mbind option_bind] in Hlayout.
  destruct (CS.toInt (Num.floor (Num.div
              (Num.sub (Num.Fin (toInches (width pageSetup)))
                 (Num.mul (Num.of_Z 2) (Num.Fin (CS.marginInches pageSetup))))
              (Num.add (Num.Fin Domino.DominoWidth) (Num.Fin (toInches stripSpacing))))))
    as [perRow|] eqn:Erow; [|done].
  cbn [mbind option_bind] in Hlayout. injection Hlayout as -> <-.
  apply toInt_floor_Some in Ecol as (qc & Eqc & -> & Hrange).
  unfold Num.sub, Num.mul, Num.neg, Num.add, Num.div, Num.of_Z in Eqc.
  rewrite (is_zero_false _ Hc) in Eqc. injection Eqc as <-.
  set (qc := ((toInches h + - (inject_Z 2 * CS.marginInches pageSetup)
               + - Domino.DominoMargin)
              / (Domino.DominoHeight + Domino.DominoMargin))%Q) in *.
  set (qc' := ((toInches h + - Domino.DominoMargin)
               / (Domino.DominoHeight + Domino.DominoMargin))%Q).
  assert (Hc0 : 0 <= Qfloor qc).
  { apply (floor_div_ge _ _ 0 Hc). unfold inject_Z. lra. }
  assert (Hcc : Qfloor qc <= Qfloor qc').
  { apply Qfloor_resp_le. unfold qc, qc'.
    apply Qmult_le_compat_r; [|by apply Qlt_le_weak, Qinv_lt_0_compat].
    unfold inject_Z. lra. }
  assert (Hc1 : Qfloor qc' < 1000000).
  { apply floor_div_lt; [done|].
    unfold Domino.DominoHeight, Domino.DominoMargin, Domino.PIP_DIAMETER,
      Domino.PIPS_PER_COLUMN, Domino.PIP_MARGIN, inject_Z in *. lra. }
  assert (Hmul : ∀ k, 0 <= k < 1000000 → Int32.mul k dominoesPerRow = k * dominoesPerRow).
  { intros k Hk. unfold Int32.mul. apply toInt32_small. nia. }
  rewrite Hmul in Hpage, Hlen by lia.
  assert (Hper : CS.GeneratePdf_dominoesPerPage pageSetup
                   (Z.of_nat (length dominoValues)) dominoesPerRow
                 = Some (Qfloor qc' * dominoesPerRow)).
  { unfold CS.GeneratePdf_dominoesPerPage. rewrite Hh.
    unfold Num.sub, Num.neg, Num.add, Num.div.
    rewrite (is_zero_false _ Hc). unfold Num.floor. rewrite toInt_of_Z. fold qc'.
    destruct (Z.leb_spec (- 2 ^ 31) (Qfloor qc')); [|lia].
    destruct (Z.ltb_spec (Qfloor qc') (2 ^ 31)); [|lia].
    cbn [andb mbind option_bind]. by rewrite Hmul by lia. }
  rewrite Hmul by lia.
  assert (Hle : Qfloor qc * dominoesPerRow <= Qfloor qc' * dominoesPerRow) by nia.
  destruct (CS_pages_loop_run fuel dominoValues dominoesPerRow
              (Qfloor qc' * dominoesPerRow) (length dominoValues) 0
              ltac:(lia) ltac:(lia) ltac:(lia) Hint Hfuel)
    as (pages & Hrun & Hcodes & Hn & _).
  exists (Qfloor qc' * dominoesPerRow), pages. split_and!.
  - exact Hper.
  - exact Hle.
  - unfold CS.GeneratePdf. rewrite Hper. cbn [mbind option_bind].
    change (Z.of_nat 0) with 0 in Hrun. by rewrite Hrun.
  - by rewrite drop_0 in Hcodes.
  - by rewrite Hn, Hlen.
  - rewrite Hn, Hlen. apply ceil_div_le; lia.
Qed.

Lemma GeneratePdf_pages_at_most_witness :
  ∃ perPage' pages,
    CS.GeneratePdf_dominoesPerPage A4Portrait (Z.of_nat (length (seqZ 0 360))) 12
    = Some perPage'
    ∧ 60 <= perPage'
    ∧ CS.GeneratePdf 360 A4Portrait (seqZ 0 360) 12 = Some (Return pages)
    ∧ concat ((λ page : list CS.tile, CS.Value <$> page) <$> pages) = seqZ 0 360
    ∧ Z.of_nat (length pages) = ceil_div (6 * 60) perPage'
    ∧ Z.of_nat (length pages) <= 6.
Proof.
  apply (GeneratePdf_pages_at_most 360 (millimeters 3) (millimeters 297) A4Portrait
           (seqZ 0 360) 12 60 6);
    [vm_compute; reflexivity | reflexivity | vm_compute; discriminate
    | vm_compute; discriminate | vm_compute; discriminate
    | lia | lia | lia | reflexivity | reflexivity | simpl; lia].
Defined.

(** On A4 with its margin of 10 mm and a spacing of 3 mm the layout counts
    5 rows of 12 tiles, [GeneratePdf] places 6 rows on a page, and the codes
    drawn for 6 pages come out on 5. *)
Lemma GeneratePdf_A4_six_pages :
  CS.CalculatePageLayout (millimeters 3) A4Portrait = Some (12, 60)
  ∧ CS.GeneratePdf_dominoesPerPage A4Portrait 360 12 = Some 72
  ∧ ∃ pages, CS.GeneratePdf 360 A4Portrait (seqZ 0 360) 12 = Some (Return pages)
             ∧ length pages = 5%nat.
Proof.
  split; [vm_compute; reflexivity|]. split; [vm_compute; reflexivity|].
  eexists. split; [vm_compute; reflexivity|]. reflexivity.
Qed.

(** ** The desktop preview *)

Lemma preview_rows (paper : Preview.DesktopPaperSize) :
  ∃ m, TS.dominoesPerColumn_of (Preview.pageSetup_of paper) = Num.of_Z m ∧ 1 <= m <= 8.
Proof.
  destruct paper.
  - exists 5. split; [vm_compute; reflexivity | lia].
  - exists 7. split; [vm_compute; reflexivity | lia].
  - exists 5. split; [vm_compute; reflexivity | lia].
  - exists 8. split; [vm_compute; reflexivity | lia].
Qed.

Lemma preview_width (paper : Preview.DesktopPaperSize) :
  (0 <= toInches (width (Preview.pageSetup_of paper))
        + - (inject_Z 2 * TS.marginInches (Preview.pageSetup_of paper)))%Q
  ∧ (toInches (width (Preview.pageSetup_of paper))
     + - (inject_Z 2 * TS.marginInches (Preview.pageSetup_of paper)) < 11)%Q.
Proof. destruct paper; split; vm_compute; (reflexivity || discriminate). Qed.

Lemma preview_columns (s : Q) (paper : Preview.DesktopPaperSize) :
  (0 < s)%Q →
  ∃ n, TS.dominoesPerRow_of (inches s) (Preview.pageSetup_of paper) = Num.of_Z n
       ∧ 0 <= n <= 21.
Proof.
  intros Hs.
  assert (Hpitch : (0 < Domino.DominoWidth + toInches (inches s))%Q).
  { change (toInches (inches s)) with s.
    unfold Domino.DominoWidth, Domino.PIP_DIAMETER, Domino.COLUMNS_PER_DOMINO,
      Domino.PIP_MARGIN. lra. }
  rewrite dominoesPerRow_of_positive by done.
  eexists. split; [reflexivity|].
  destruct (preview_width paper) as [Hw0 Hw1].
  split.
  - apply floor_div_ge; [done|]. unfold inject_Z in *. lra.
  - apply Z.lt_succ_r. change (Z.succ 21) with 22. apply floor_div_lt; [done|].
    change (toInches (inches s)) with s.
    unfold Domino.DominoWidth, Domino.PIP_DIAMETER, Domino.COLUMNS_PER_DOMINO,
      Domino.PIP_MARGIN, inject_Z in *. lra.
Qed.

(** X16: the desktop preview never runs short of codes.  For a positive row
    spacing and each of the four paper sizes, [generateDesktopPreviewSvg]
    passes its check; its layout has [n] tiles per row, from 0 to 21, and
    [m] per column, from 1 to 8, and asks for [n x m] codes, which
    [generateRandomUniqueDominoes] returns from the valid-code list
    whatever the draws.  When no tile fits the width ([n = 0]) the height
    of the drawing is NaN, the ceiling of 0 / 0; otherwise it is [m] rows
    of tile and margin and one margin more (over exact arithmetic). *)
Theorem desktop_preview_plan (s : Q) (paper : Preview.DesktopPaperSize) (rng : nat → Z) :
  (0 < s)%Q →
  ∃ n m c p,
    Preview.generateDesktopPreviewSvg_plan (Num.Fin s) paper = inl (Return p)
    ∧ Preview.dominoesPerRow p = Num.of_Z n
    ∧ Preview.count p = Num.Fin c ∧ (c == inject_Z (n * m))%Q
    ∧ 0 <= n <= 21 ∧ 1 <= m <= 8
    ∧ (n = 0 → Preview.measuredHeight p = Num.NaN)
    ∧ (1 <= n →
       ∃ total, Preview.measuredHeight p = Num.Fin total
                ∧ (total == inject_Z m * (Domino.DominoHeight + Domino.DominoMargin)
                            + Domino.DominoMargin)%Q)
    ∧ ∃ res s', TS.generateRandomUniqueDominoes (n * m) (TS.loaded rng) = (Return res, s')
                ∧ Z.of_nat (length res) = n * m.
Proof.
  intros Hs.
  destruct (preview_rows paper) as (m & Hm & Hm1).
  destruct (preview_columns s paper Hs) as (n & Hn & Hn1).
  exists n, m. eexists. eexists.
  split; [|split; [|split; [|split; [|split; [|split; [|split; [|split]]]]]]].
  - unfold Preview.generateDesktopPreviewSvg_plan.
    cbn [Label.isFinite negb orb]. unfold Num.ge, Num.of_Z.
    destruct (Qle_bool s (inject_Z 0)) eqn:E.
    { apply Qle_bool_iff in E. unfold inject_Z in E. lra. }
    unfold Preview.generatePagesSvg_plan, TS.calculatePageLayout. cbn [obind].
    rewrite Hm, Hn. reflexivity.
  - reflexivity.
  - reflexivity.
  - rewrite inject_Z_mult. unfold inject_Z. ring.
  - lia.
  - lia.
  - intros ->. cbn [Preview.measuredHeight Preview.generateSvg_plan TS.dominoesPerRow
                      TS.dominoesPerPage].
    unfold Shape.calculateTotalHeight, Num.of_Z, Num.mul, Num.div.
    replace (Num.is_zero (inject_Z 0)) with true by reflexivity.
    replace (Num.is_zero (inject_Z 1 * (inject_Z m * inject_Z 0))) with true.
    + reflexivity.
    + symmetry. apply Qeq_bool_iff. unfold inject_Z. ring.
  - intros Hn0. cbn [Preview.measuredHeight Preview.generateSvg_plan TS.dominoesPerRow
                       TS.dominoesPerPage].
    unfold Shape.calculateTotalHeight, Num.of_Z, Num.mul at 2 3, Num.div.
    rewrite is_zero_inject_Z by done.
    cbn [Shape.ceil Num.of_Z Num.mul Num.add].
    eexists. split; [reflexivity|].
    assert (Hq : (inject_Z 1 * (inject_Z m * inject_Z n) / inject_Z n == inject_Z m)%Q).
    { field. change 0%Q with (inject_Z 0). rewrite inject_Z_injective. lia. }
    rewrite Hq, Qceiling_Z. reflexivity.
  - pose proof (loaded_valid rng) as [HL _].
    pose proof buildValidDominoesList_length as [Hlen _].
    destruct (generateRandomUniqueDominoes_run (TS.loaded rng) _ (Z.to_nat (n * m)) HL)
      as (res & a' & s' & Hrun & _ & Hsam).
    { rewrite Hlen. nia. }
    rewrite Z2Nat.id in Hrun by nia.
    exists res, s'. split; [exact Hrun|].
    destruct Hsam as (-> & _). rewrite Z2Nat.id; nia.
Qed.

Lemma desktop_preview_plan_witness :
  ∃ n m c p,
    Preview.generateDesktopPreviewSvg_plan (Num.Fin 1) Preview.letter = inl (Return p)
    ∧ Preview.dominoesPerRow p = Num.of_Z n
    ∧ Preview.count p = Num.Fin c ∧ (c == inject_Z (n * m))%Q
    ∧ 0 <= n <= 21 ∧ 1 <= m <= 8
    ∧ (n = 0 → Preview.measuredHeight p = Num.NaN)
    ∧ (1 <= n →
       ∃ total, Preview.measuredHeight p = Num.Fin total
                ∧ (total == inject_Z m * (Domino.DominoHeight + Domino.DominoMargin)
                            + Domino.DominoMargin)%Q)
    ∧ ∃ res s', TS.generateRandomUniqueDominoes (n * m) (TS.loaded (λ _, 0))
                = (Return res, s')
                ∧ Z.of_nat (length res) = n * m.
Proof. apply (desktop_preview_plan 1 Preview.letter (λ _, 0)). reflexivity. Defined.

(** ** The two page layouts *)

Lemma toInt_floor_agree (a : Num.number) (z : Z) :
  CS.toInt (Num.floor a) = Some z → Num.floor a = Num.of_Z z.
Proof.
  intros H. apply toInt_floor_Some in H as (q & -> & -> & _). reflexivity.
Qed.

(** X17: where the C# [CalculatePageLayout] has a defined result on a page
    setup with a height, the TypeScript [calculatePageLayout] counts the
    same: the tiles per row are the same integer, and the tiles per page
    are the product of the same two integers, which C# wraps to 32 bits and
    TypeScript does not. *)
Theorem layouts_agree (stripSpacing h : Measurement) (pageSetup : PageSetup)
    (dominoesPerRow dominoesPerPage : Z) :
  height pageSetup = Some h →
  CS.CalculatePageLayout stripSpacing pageSetup = Some (dominoesPerRow, dominoesPerPage) →
  ∃ dominoesPerColumn,
    TS.dominoesPerColumn_of pageSetup = Num.of_Z dominoesPerColumn
    ∧ TS.dominoesPerRow_of stripSpacing pageSetup = Num.of_Z dominoesPerRow
    ∧ TS.calculatePageLayout stripSpacing pageSetup
      = Return {| TS.dominoesPerRow := Num.of_Z dominoesPerRow;
                  TS.dominoesPerPage :=
                    Num.mul (Num.of_Z dominoesPerColumn) (Num.of_Z dominoesPerRow) |}
    ∧ dominoesPerPage = Int32.mul dominoesPerColumn dominoesPerRow.
Proof.
  intros Hh Hlayout.
  unfold CS.CalculatePageLayout, CS.heightInches in Hlayout. rewrite Hh in Hlayout.
  destruct (CS.toInt (Num.floor (Num.div
              (Num.sub (Num.sub (Num.Fin (toInches h))
                          (Num.mul (Num.of_Z 2) (Num.Fin (CS.marginInches pageSetup))))
                       (Num.Fin Domino.DominoMargin))
              (Num.add (Num.Fin Domino.DominoHeight) (Num.Fin Domino.DominoMargin)))))
    as [perColumn|] eqn:Ecol; [|done].
  cbn [mbind option_bind] in Hlayout.
  destruct (CS.toInt (Num.floor (Num.div
              (Num.sub (Num.Fin (toInches (width pageSetup)))
                 (Num.mul (Num.of_Z 2) (Num.Fin (CS.marginInches pageSetup))))
              (Num.add (Num.Fin Domino.DominoWidth) (Num.Fin (toInches stripSpacing))))))
    as [perRow|] eqn:Erow; [|done].
  cbn [mbind option_bind] in Hlayout. injection Hlayout as <- <-.
  apply toInt_floor_agree in Ecol, Erow.
  assert (Hcol : TS.dominoesPerColumn_of pageSetup = Num.of_Z perColumn).
  { unfold TS.dominoesPerColumn_of, TS.printableHeight, TS.heightInches.
    rewrite Hh. exact Ecol. }
  assert (Hrow : TS.dominoesPerRow_of stripSpacing pageSetup = Num.of_Z perRow).
  { unfold TS.dominoesPerRow_of, TS.printableWidth. exact Erow. }
  exists perColumn. split; [exact Hcol|]. split; [exact Hrow|]. split; [|done].
  unfold TS.calculatePageLayout. by rewrite Hcol, Hrow.
Qed.

Lemma layouts_agree_witness :
  ∃ dominoesPerColumn,
    TS.dominoesPerColumn_of (letterPortrait None) = Num.of_Z dominoesPerColumn
    ∧ TS.dominoesPerRow_of (inches (125 # 1000)) (letterPortrait None) = Num.of_Z 12
    ∧ TS.calculatePageLayout (inches (125 # 1000)) (letterPortrait None)
      = Return {| TS.dominoesPerRow := Num.of_Z 12;
                  TS.dominoesPerPage := Num.mul (Num.of_Z dominoesPerColumn) (Num.of_Z 12) |}
    ∧ 60 = Int32.mul dominoesPerColumn 12.
Proof.
  apply (layouts_agree (inches (125 # 1000)) (inches 11) (letterPortrait None) 12 60);
    [reflexivity | vm_compute; reflexivity].
Defined.

(** X18: on a page setup without a height, with a margin from 0 to a million
    inches, the two layouts part: the C# count of tiles per column is the
    conversion to [int] of a value far out of the range of [int], which the
    language leaves unspecified, where TypeScript counts infinitely many
    tiles per column. *)
Theorem layouts_without_height (stripSpacing : Measurement) (pageSetup : PageSetup) :
  height pageSetup = None →
  (0 <= CS.marginInches pageSetup)%Q → (CS.marginInches pageSetup <= 1000000)%Q →
  CS.CalculatePageLayout stripSpacing pageSetup = None
  ∧ TS.dominoesPerColumn_of pageSetup = Num.Inf false.
Proof.
  intros Hh Hm0 Hm1. split.
  - assert (Ecol : CS.toInt (Num.floor (Num.div
              (Num.sub (Num.sub (Num.Fin CS.double_MaxValue)
                          (Num.mul (Num.of_Z 2) (Num.Fin (CS.marginInches pageSetup))))
                       (Num.Fin Domino.DominoMargin))
              (Num.add (Num.Fin Domino.DominoHeight) (Num.Fin Domino.DominoMargin))))
            = None).
    { unfold Num.sub, Num.mul, Num.neg, Num.add, Num.div, Num.of_Z.
      rewrite is_zero_false by (vm_compute; reflexivity).
      unfold Num.floor. rewrite toInt_of_Z.
      set (q := ((CS.double_MaxValue + - (inject_Z 2 * CS.marginInches pageSetup)
                  + - Domino.DominoMargin)
                 / (Domino.DominoHeight + Domino.DominoMargin))%Q).
      assert (2 ^ 31 <= Qfloor q) as Hbig.
      { apply floor_div_ge; [vm_compute; reflexivity|].
        assert (inject_Z (2 ^ 31) * (Domino.DominoHeight + Domino.DominoMargin)
                + 2000001 <= CS.double_MaxValue)%Q as Hmax
          by (vm_compute; discriminate).
        unfold Domino.DominoMargin, inject_Z in *. lra. }
      destruct (Z.ltb_spec (Qfloor q) (2 ^ 31)) as [?|_]; [lia|].
      by rewrite andb_false_r. }
    unfold CS.CalculatePageLayout, CS.heightInches. rewrite Hh, Ecol. reflexivity.
  - unfold TS.dominoesPerColumn_of, TS.printableHeight, TS.heightInches.
    rewrite Hh. reflexivity.
Qed.

Lemma layouts_without_height_witness :
  CS.CalculatePageLayout (inches (125 # 1000)) (continuousLabel (inches (24 # 10)) None)
  = None
  ∧ TS.dominoesPerColumn_of (continuousLabel (inches (24 # 10)) None) = Num.Inf false.
Proof.
  apply (layouts_without_height (inches (125 # 1000))
           (continuousLabel (inches (24 # 10)) None));
    [reflexivity | vm_compute; discriminate | vm_compute; discriminate].
Defined.

(** ** The preview of a label *)

(** X19: the preview of a label is one row: for a finite width of 0.75 inches
    or more, [generateLabelPreviewSvg] passes its check, counts [n] tiles
    for a row of [n], at least one and exactly one in the strip layout; the
    height of the drawing is that of one tile and its two margins, whatever
    the width; and every tile [i] of the row, in column [i], lies inside the
    width of the label (over exact arithmetic). *)
Theorem label_preview_one_row (w : Q) (layout : Label.LabelLayout) (i : Z) :
  (75 # 100 <= w)%Q →
  ∃ n off total,
    LabelPreview.preview_plan (Num.Fin w) layout
    = inl {| LabelPreview.dominoesPerRow := Num.of_Z n;
             LabelPreview.count := Num.of_Z n;
             LabelPreview.xMargin := Num.Fin off;
             LabelPreview.heightIn := Num.Fin total |}
    ∧ 1 <= n ∧ (layout = Label.strip → n = 1)
    ∧ (total == Domino.DominoHeight + 2 * Domino.DominoMargin)%Q
    ∧ (0 <= i < n →
       ∃ x, Shape.tile_x (Num.of_Z i) (Num.Fin off) (Num.Fin (125 # 1000)) = Num.Fin x
            ∧ (0 < x)%Q ∧ (x + Domino.DominoWidth < w)%Q).
Proof.
  intros Hw.
  destruct (label_columns w layout Hw) as (n & Hn1 & Hrow & Hstrip & Hnw).
  exists n. eexists. eexists. split; [|split; [|split; [|split]]].
  - unfold LabelPreview.preview_plan. cbn [Label.isFinite negb orb].
    rewrite (lt_false w (75 # 100)) by done. cbv zeta.
    change (Num.Fin (125 # 1000)) with (Num.Fin (toInches (inches (125 # 1000)))).
    rewrite Hrow.
    change (toInches (inches (125 # 1000))) with (125 # 1000)%Q.
    rewrite calculateXMargin_value.
    unfold Shape.calculateTotalHeight, Num.div, Num.of_Z.
    rewrite is_zero_inject_Z by done.
    cbn [Shape.ceil Num.of_Z Num.mul Num.add]. reflexivity.
  - done.
  - done.
  - assert (Hq : (inject_Z n / inject_Z n == inject_Z 1)%Q).
    { field. change 0%Q with (inject_Z 0). rewrite inject_Z_injective. lia. }
    rewrite Hq, Qceiling_Z. unfold inject_Z. ring.
  - intros Hi. eexists. split; [reflexivity|].
    assert (0 <= inject_Z i)%Q as Hx0
      by (change 0%Q with (inject_Z 0); rewrite <- Zle_Qle; lia).
    assert (inject_Z i + 1 <= inject_Z n)%Q as Hx1.
    { change 1%Q with (inject_Z 1). rewrite <- inject_Z_plus, <- Zle_Qle. lia. }
    revert Hnw Hx0 Hx1.
    unfold Domino.DominoWidth, Domino.PIP_DIAMETER, Domino.COLUMNS_PER_DOMINO,
      Domino.PIP_MARGIN.
    generalize (inject_Z n) (inject_Z i). intros N X Hnw Hx0 Hx1.
    unfold Qdiv. change (/ inject_Z 2)%Q with (1 # 2)%Q. unfold inject_Z.
    split; lra.
Qed.

Lemma label_preview_one_row_witness :
  ∃ n off total,
    LabelPreview.preview_plan (Num.Fin (24 # 10)) Label.rows
    = inl {| LabelPreview.dominoesPerRow := Num.of_Z n;
             LabelPreview.count := Num.of_Z n;
             LabelPreview.xMargin := Num.Fin off;
             LabelPreview.heightIn := Num.Fin total |}
    ∧ 1 <= n ∧ (Label.rows = Label.strip → n = 1)
    ∧ (total == Domino.DominoHeight + 2 * Domino.DominoMargin)%Q
    ∧ (0 <= 2 < n →
       ∃ x, Shape.tile_x (Num.of_Z 2) (Num.Fin off) (Num.Fin (125 # 1000)) = Num.Fin x
            ∧ (0 < x)%Q ∧ (x + Domino.DominoWidth < 24 # 10)%Q).
Proof.
  apply (label_preview_one_row (24 # 10) Label.rows 2). vm_compute. discriminate.
Defined.

(** ** The strip of the C# library *)

(** X20: on a page setup without a height, [GeneratePdf] with one tile per row,
    as [GenerateStripPdf] calls it, puts a sequence of codes that is not
    empty on a single page, in a single column: one round of its loop is
    enough, and tile [i] of the page carries code [i] in column 0 and
    row [i]. *)
Theorem GeneratePdf_strip_single_page (fuel : nat) (pageSetup : PageSetup)
    (dominoValues : list Z) :
  height pageSetup = None →
  (1 ≤ length dominoValues)%nat → Z.of_nat (length dominoValues) < 2 ^ 31 →
  ∃ page,
    CS.GeneratePdf (S fuel) pageSetup dominoValues 1 = Some (Return [page])
    ∧ CS.Value <$> page = dominoValues
    ∧ ∀ (i : nat) (t : CS.tile), page !! i = Some t →
        CS.ix t = 0 ∧ CS.iy t = Z.of_nat i.
Proof.
  intros Hh Hne Hint.
  destruct (CS_page_tiles_run (length dominoValues) dominoValues 1 0 0
              ltac:(lia) ltac:(lia) Hint) as (page & Hrun & Hvals & Hpos).
  exists page. split_and!.
  - unfold CS.GeneratePdf, CS.GeneratePdf_dominoesPerPage. rewrite Hh.
    cbn [mbind option_bind CS.pages_loop].
    destruct (Z.gtb_spec (Z.of_nat (length dominoValues)) 0) as [_|?]; [|lia].
    rewrite Z.min_id, Nat2Z.id.
    change (Z.of_nat 0) with 0 in Hrun. rewrite Hrun. cbn [obind].
    rewrite int32_sub_small by lia. rewrite Z.sub_diag.
    destruct fuel; reflexivity.
  - rewrite Hvals. simpl. by rewrite firstn_all.
  - intros i t Hi. destruct (Hpos i t Hi) as [-> ->].
    rewrite Z.mod_1_r, Z.div_1_r. split; [done|]. simpl. lia.
Qed.

Lemma GeneratePdf_strip_single_page_witness :
  ∃ page,
    CS.GeneratePdf 1 (continuousLabel (inches (24 # 10)) None) [33279; 39357] 1
    = Some (Return [page])
    ∧ CS.Value <$> page = [33279; 39357]
    ∧ ∀ (i : nat) (t : CS.tile), page !! i = Some t →
        CS.ix t = 0 ∧ CS.iy t = Z.of_nat i.
Proof.
  apply (GeneratePdf_strip_single_page 0 (continuousLabel (inches (24 # 10)) None)
           [33279; 39357]); [reflexivity | simpl; lia | simpl; lia].
Defined.

(** ** The pages [GeneratePagesPdf] makes *)



